(** * Particle engine of the hand-motion particle viewer

    A shallow embedding of [ParticleSystem] (shape sampling, glyph
    sampling, buffer life cycle and the per-frame integrator) and of the
    letter/number guards of [VoiceService.processCommand].

    Numbers.  A JavaScript number is modelled as a real ([R]); IEEE-754
    rounding and overflow are idealised away.  An operation whose result
    would not be a finite number (NaN from [Math.acos] or [Math.sqrt]
    outside their domain, a division by zero, arithmetic on the
    [undefined] read past the end of a typed array) ends the computation
    with the fault [NotFinite]; a thrown exception ends it with the
    fault of its class.

    Randomness.  [Math.random] is the only hidden input.  It is made
    explicit as the sequence [draws] of the values it returns, with a
    [cursor] that advances by one on each call.

    Buffers.  A [Float32Array] is a [list R] indexed from 0; a write past
    the end is ignored, as typed arrays do, which is what stdpp's list
    insert does. *)

From Stdlib Require Import String Ascii.
From stdpp Require Import base list gmap.
From Stdlib Require Import ZArith Reals Lra Lia.

Open Scope R_scope.

(** ** Effects: faults and the random source *)

Inductive fault : Type :=
| RangeError   (* new Float32Array(n) with n < 0 *)
| TypeError    (* property access on undefined *)
| NotFinite.   (* a NaN or an infinity was produced *)

Inductive outcome (A : Type) : Type :=
| Ok (a : A)
| Raise (e : fault).
Arguments Ok {A} a.
Arguments Raise {A} e.

Record rng : Type := Rng { draws : nat -> R; cursor : nat }.

Definition M (A : Type) : Type := rng -> outcome (A * rng).

Definition ret {A} (a : A) : M A := fun s => Ok (a, s).

Definition raise {A} (e : fault) : M A := fun _ => Raise e.

Definition bind {A B} (c : M A) (k : A -> M B) : M B :=
  fun s => match c s with
           | Ok (a, s') => k a s'
           | Raise e => Raise e
           end.

Notation "'let!' x ':=' c 'in' k" := (bind c (fun x => k))
  (at level 10, x pattern, c at level 100, k at level 200,
   format "'[v' 'let!'  x  ':='  c  'in' '/' k ']'").

(** [Math.random()]: the next value of the sequence. *)
Definition Math_random : M R :=
  fun s => Ok (draws s (cursor s), Rng (draws s) (S (cursor s))).

(** The generator after [n] further calls. *)
Definition advance (n : nat) (s : rng) : rng := Rng (draws s) (cursor s + n).

(** [for (let i = 0; i < n; i++) body(i)], threading the loop state. *)
Fixpoint for_loop {St : Type} (n : nat) (body : nat -> St -> M St) (st : St)
    : M St :=
  match n with
  | O => ret st
  | S m => let! st' := for_loop m body st in body m st'
  end.

(** ** Numbers and typed arrays *)

(** [Math.acos(x)] is NaN outside [-1, 1]. *)
Definition Math_acos (x : R) : M R :=
  if Rle_dec (-1) x then
    if Rle_dec x 1 then ret (acos x) else raise NotFinite
  else raise NotFinite.

(** [Math.sqrt(x)] is NaN for negative [x]. *)
Definition Math_sqrt (x : R) : M R :=
  if Rle_dec 0 x then ret (sqrt x) else raise NotFinite.

(** [x / y] is an infinity or NaN when [y] is zero. *)
Definition js_div (x y : R) : M R :=
  if Req_dec_T y 0 then raise NotFinite else ret (x / y).

(** [new Float32Array(n)]: [n] zeros; a negative length throws. *)
Definition Float32Array_new (n : Z) : M (list R) :=
  if (n <? 0)%Z then raise RangeError else ret (replicate (Z.to_nat n) 0).

(** [buf[j]] used as an operand: past the end the read is [undefined],
    which arithmetic turns into NaN. *)
Definition aget (buf : list R) (j : nat) : M R :=
  match buf !! j with
  | Some v => ret v
  | None => raise NotFinite
  end.

(** [buf[j] = v]: ignored past the end. *)
Definition aset (buf : list R) (j : nat) (v : R) : list R := <[j := v]> buf.

(** ** Colours *)

Record Color : Type := mkColor { r : R; g : R; b : R }.

(** constants.ts: [THREE_COLOR_HOT = new THREE.Color('#ffffff')]. *)
Definition THREE_COLOR_HOT : Color := mkColor 1 1 1.

(** [THREE.MathUtils.lerp] of the three.js library. *)
Definition lerp (x y t : R) : R := (1 - t) * x + t * y.

(** ** The per-frame integrator (useFrame) *)

Definition attraction : R := 0.03.
Definition damping : R := 0.92.
Definition noiseAmt (audioTreble : R) : R := 0.02 + audioTreble * 0.1.

(** The arrays the physics loop writes: the position attribute of the
    geometry (the very array held by [currentPositionsRef]), the
    velocities and the colour attribute. *)
Record buffers : Type :=
  Buffers { positions : list R; vels : list R; colors : list R }.

(** The heat factor of the dynamic colouring. *)
Definition heat (speed audioTreble : R) : R :=
  Rmin (speed * 3.0 + audioTreble * 0.5) 1.

(** Body of the loop over particles, statement by statement. *)
Definition particle_update (targets : list R) (threeColorBase : Color)
    (audioTreble : R) (i : nat) (bf : buffers) : M buffers :=
  let i3 := (i * 3)%nat in
  let positions := positions bf in
  let vels := vels bf in
  let colors := colors bf in
  let! tx := aget targets i3 in
  let! ty := aget targets (i3 + 1) in
  let! tz := aget targets (i3 + 2) in
  let! px := aget positions i3 in
  let ax := (tx - px) * attraction in
  let! py := aget positions (i3 + 1) in
  let ay := (ty - py) * attraction in
  let! pz := aget positions (i3 + 2) in
  let az := (tz - pz) * attraction in
  let! u := Math_random in
  let nx := (u - 0.5) * noiseAmt audioTreble in
  let! u := Math_random in
  let ny := (u - 0.5) * noiseAmt audioTreble in
  let! u := Math_random in
  let nz := (u - 0.5) * noiseAmt audioTreble in
  let! v := aget vels i3 in
  let vels := aset vels i3 (v + (ax + nx)) in
  let! v := aget vels (i3 + 1) in
  let vels := aset vels (i3 + 1) (v + (ay + ny)) in
  let! v := aget vels (i3 + 2) in
  let vels := aset vels (i3 + 2) (v + (az + nz)) in
  let! v := aget vels i3 in
  let vels := aset vels i3 (v * damping) in
  let! v := aget vels (i3 + 1) in
  let vels := aset vels (i3 + 1) (v * damping) in
  let! v := aget vels (i3 + 2) in
  let vels := aset vels (i3 + 2) (v * damping) in
  let! p := aget positions i3 in
  let! v := aget vels i3 in
  let positions := aset positions i3 (p + v) in
  let! p := aget positions (i3 + 1) in
  let! v := aget vels (i3 + 1) in
  let positions := aset positions (i3 + 1) (p + v) in
  let! p := aget positions (i3 + 2) in
  let! v := aget vels (i3 + 2) in
  let positions := aset positions (i3 + 2) (p + v) in
  let! vx := aget vels i3 in
  let! vy := aget vels (i3 + 1) in
  let! vz := aget vels (i3 + 2) in
  let! speed := Math_sqrt (vx ^ 2 + vy ^ 2 + vz ^ 2) in
  let t := heat speed audioTreble in
  let colors := aset colors i3 (lerp (r threeColorBase) (r THREE_COLOR_HOT) t) in
  let colors := aset colors (i3 + 1) (lerp (g threeColorBase) (g THREE_COLOR_HOT) t) in
  let colors := aset colors (i3 + 2) (lerp (b threeColorBase) (b THREE_COLOR_HOT) t) in
  ret (Buffers positions vels colors).

(** The loop [for (let i = 0; i < count; i++)] of the frame callback. *)
Definition physics_loop (targets : list R) (threeColorBase : Color)
    (audioTreble : R) (count : nat) (bf : buffers) : M buffers :=
  for_loop count (particle_update targets threeColorBase audioTreble) bf.

(** ** Strings *)

(** A JavaScript string is its sequence of UTF-16 code units. *)
Definition js_string : Type := list Z.

(** The code units of an ASCII literal. *)
Definition units (s : string) : js_string :=
  map (fun c => Z.of_N (N_of_ascii c)) (list_ascii_of_string s).

(** [String.fromCharCode(n)] for an integer [n]. *)
Definition String_fromCharCode (n : Z) : js_string := [(n mod 65536)%Z].

Fixpoint uint_units (d : Decimal.uint) : js_string :=
  match d with
  | Decimal.Nil => []
  | Decimal.D0 d => 48%Z :: uint_units d
  | Decimal.D1 d => 49%Z :: uint_units d
  | Decimal.D2 d => 50%Z :: uint_units d
  | Decimal.D3 d => 51%Z :: uint_units d
  | Decimal.D4 d => 52%Z :: uint_units d
  | Decimal.D5 d => 53%Z :: uint_units d
  | Decimal.D6 d => 54%Z :: uint_units d
  | Decimal.D7 d => 55%Z :: uint_units d
  | Decimal.D8 d => 56%Z :: uint_units d
  | Decimal.D9 d => 57%Z :: uint_units d
  end.

(** [String(n)] for an integer [n]: its decimal numeral. *)
Definition String_of_number (n : Z) : js_string :=
  match Z.to_int n with
  | Decimal.Pos d => uint_units d
  | Decimal.Neg d => 45%Z :: uint_units d
  end.

(** ** Shapes *)

(** The members of [ParticleShape] that the component names. *)
Inductive ParticleShape : Type :=
| SPHERE | CUBE | TORUS | GALAXY | DNA | SATURN | PYRAMID | BIG_BANG
| TEXT | NUMBER.

#[global] Instance ParticleShape_eq_dec : EqDecision ParticleShape.
Proof. solve_decision. Defined.

(** ** Glyph sampling (generateTextPositions) *)

Definition size : Z := 100.

(** The 2D canvas: [None] when [getContext('2d')] returns null, else the
    RGBA bytes [getImageData] yields after the text has been drawn. *)
Definition Canvas : Type := option (js_string -> list Z).

(** The scan over rows and columns that collects the bright pixels. *)
Definition scan_pixels (data : list Z) : list (Z * Z) :=
  fold_left (fun validPixels y =>
    fold_left (fun validPixels x =>
      match data !! Z.to_nat ((y * size + x) * 4) with
      | Some alpha => if (128 <? alpha)%Z then validPixels ++ [(x, y)]
                      else validPixels
      | None => validPixels
      end) (map Z.of_nat (seq 0 (Z.to_nat size))) validPixels)
    (map Z.of_nat (seq 0 (Z.to_nat size))) [].

(** [validPixels[k]] followed by [pixel[0]]: outside the array the element
    is [undefined] and the property access throws. *)
Definition pick_pixel (validPixels : list (Z * Z)) (k : Z) : M (Z * Z) :=
  if (k <? 0)%Z then raise TypeError
  else match validPixels !! Z.to_nat k with
       | Some pixel => ret pixel
       | None => raise TypeError
       end.

Definition text_particle (validPixels : list (Z * Z)) (radius : R)
    (i : nat) (positions : list R) : M (list R) :=
  let! u := Math_random in
  let! pixel := pick_pixel validPixels
                  (Zfloor (u * INR (length validPixels))) in
  let x := (IZR (fst pixel) / IZR size - 0.5) * radius * 1.5 in
  let y := - (IZR (snd pixel) / IZR size - 0.5) * radius * 1.5 in
  let! u := Math_random in
  let z := (u - 0.5) * radius * 0.2 in
  let positions := aset positions (i * 3) x in
  let positions := aset positions (i * 3 + 1) y in
  let positions := aset positions (i * 3 + 2) z in
  ret positions.

Definition generateTextPositions (canvas : Canvas) (text : js_string)
    (pCount : Z) (radius : R) : M (list R) :=
  match canvas with
  | None => Float32Array_new (pCount * 3)
  | Some raster =>
      let data := raster text in
      let validPixels := scan_pixels data in
      let! positions := Float32Array_new (pCount * 3) in
      if decide (length validPixels = 0%nat) then ret positions
      else for_loop (Z.to_nat pCount) (text_particle validPixels radius)
             positions
  end.

(** ** Shape sampling (generateTargetPositions) *)

(** The three reflections of the PYRAMID case. *)
Definition pyramid_fold (a b c : R) : R * R * R :=
  let '(a, b) := if Rgt_dec (a + b) 1 then (1 - a, 1 - b) else (a, b) in
  let '(b, c) := if Rgt_dec (b + c) 1 then (1 - b, 1 - c) else (b, c) in
  if Rgt_dec (a + b + c) 1 then (1 - a, 1 - b, 1 - c) else (a, b, c).

(** The explosion distribution, also the [default] of the switch. *)
Definition big_bang_point (radius : R) : M (R * R * R) :=
  let! u := Math_random in
  let r := u * radius * 2 in
  let! u := Math_random in
  let theta := u * PI * 2 in
  let! u := Math_random in
  let! phi := Math_acos (2 * u - 1) in
  ret (r * sin phi * cos theta, r * sin phi * sin theta, r * cos phi).

(** The [switch (type)] that computes [x, y, z] for particle [i]. *)
Definition shape_point (type : ParticleShape) (pCount : Z) (radius : R)
    (i : nat) : M (R * R * R) :=
  match type with
  | SPHERE =>
      let! q := js_div (2 * INR i) (IZR pCount) in
      let! phi := Math_acos (-1 + q) in
      let! s := Math_sqrt (IZR pCount * PI) in
      let theta := s * phi in
      ret (radius * cos theta * sin phi,
           radius * sin theta * sin phi,
           radius * cos phi)
  | CUBE =>
      let! u := Math_random in
      let x := (u - 0.5) * radius * 1.5 in
      let! u := Math_random in
      let y := (u - 0.5) * radius * 1.5 in
      let! u := Math_random in
      let z := (u - 0.5) * radius * 1.5 in
      ret (x, y, z)
  | TORUS =>
      let! u0 := Math_random in
      let u := u0 * PI * 2 in
      let! v0 := Math_random in
      let v := v0 * PI * 2 in
      let tubeRadius := radius * 0.3 in
      ret ((radius + tubeRadius * cos v) * cos u,
           (radius + tubeRadius * cos v) * sin u,
           tubeRadius * sin v)
  | GALAXY =>
      let armCount := 3 in
      let! q := js_div (INR i) (IZR pCount) in
      let spin := q * armCount * PI * 2 in
      let! q := js_div (INR i) (IZR pCount) in
      let r := q * radius in
      let! u := Math_random in
      let randomOffset := (u - 0.5) * (radius * 0.2) in
      let x := r * cos spin + randomOffset in
      let! u := Math_random in
      let y := (u - 0.5) * (r * 0.2) in
      let z := r * sin spin + randomOffset in
      ret (x, y, z)
  | DNA =>
      let strands := 2%nat in
      let strandIdx := INR (i mod strands) in
      let! q := js_div (INR i) (IZR pCount) in
      let t := q * PI * 10 in
      let! q := js_div (INR i) (IZR pCount) in
      let height := q * radius * 2.5 - radius * 1.25 in
      let r := radius * 0.5 in
      let offset := strandIdx * PI in
      let! u := Math_random in
      let x := r * cos (t + offset) + (u - 0.5) in
      let y := height in
      let! u := Math_random in
      let z := r * sin (t + offset) + (u - 0.5) in
      ret (x, y, z)
  | SATURN =>
      if Rlt_dec (INR i) (IZR pCount * 0.7) then
        let! q := js_div (2 * INR i) (IZR pCount * 0.7) in
        let! phi := Math_acos (-1 + q) in
        let! s := Math_sqrt ((IZR pCount * 0.7) * PI) in
        let theta := s * phi in
        let r := radius * 0.6 in
        ret (r * cos theta * sin phi, r * sin theta * sin phi, r * cos phi)
      else
        let! u := Math_random in
        let theta := u * PI * 2 in
        let rMin := radius * 0.8 in
        let rMax := radius * 1.5 in
        let! u := Math_random in
        let! s := Math_sqrt u in
        let r := s * (rMax - rMin) + rMin in
        let x := r * cos theta in
        let! u := Math_random in
        let y := (u - 0.5) * 0.2 in
        let z := r * sin theta in
        ret (x, y, z)
  | PYRAMID =>
      let! a := Math_random in
      let! b := Math_random in
      let! c := Math_random in
      let '(a, b, c) := pyramid_fold a b c in
      let d := 1 - a - b - c in
      let s := radius * 1.5 in
      ret (a * s + b * - s + c * - s + d * s,
           a * s + b * - s + c * s + d * - s,
           a * s + b * s + c * - s + d * - s)
  | BIG_BANG | TEXT | NUMBER => big_bang_point radius
  end.

(** One round of the loop: compute the point, store its coordinates. *)
Definition shape_particle (type : ParticleShape) (pCount : Z) (radius : R)
    (i : nat) (positions : list R) : M (list R) :=
  let i3 := (i * 3)%nat in
  let! xyz := shape_point type pCount radius i in
  let '(x, y, z) := xyz in
  let positions := aset positions i3 x in
  let positions := aset positions (i3 + 1) y in
  let positions := aset positions (i3 + 2) z in
  ret positions.

(** [generateTargetPositions(type, pCount, radius)]; [charIndex] and
    [numIndex] are the props the closure reads. *)
Definition generateTargetPositions (canvas : Canvas) (charIndex numIndex : Z)
    (type : ParticleShape) (pCount : Z) (radius : R) : M (list R) :=
  match type with
  | TEXT =>
      let char := String_fromCharCode (65 + charIndex) in
      generateTextPositions canvas char pCount radius
  | NUMBER =>
      generateTextPositions canvas (String_of_number numIndex) pCount radius
  | _ =>
      let! positions := Float32Array_new (pCount * 3) in
      for_loop (Z.to_nat pCount) (shape_particle type pCount radius) positions
  end.

(** ** The component: props, refs and their life cycle *)

Record Props : Type := mkProps {
  shape : ParticleShape;
  threeColorBase : Color;
  particleCount : Z;
  charIndex : Z;
  numIndex : Z
}.

(** [pointsRef] stands for the mounted points object, given by the colour
    array of its geometry; its position array is the array held by
    [currentPositionsRef]. *)
Record Refs : Type := mkRefs {
  targetPositionsRef : option (list R);
  currentPositionsRef : option (list R);
  velocitiesRef : option (list R);
  pointsRef : option (list R)
}.

(** The default value of the [radius] parameter. *)
Definition default_radius : R := 10.

Definition sample (canvas : Canvas) (p : Props) (type : ParticleShape) : M (list R) :=
  generateTargetPositions canvas (charIndex p) (numIndex p) type
    (particleCount p) default_radius.

(** Initialization: [useMemo(..., [count])]. *)
Definition initialization (canvas : Canvas) (p : Props) (rf : Refs) : M Refs :=
  let count := particleCount p in
  let! current := sample canvas p BIG_BANG in
  let! velocities := Float32Array_new (count * 3) in
  let! target := sample canvas p (shape p) in
  ret (mkRefs (Some target) (Some current) (Some velocities) (pointsRef rf)).

(** Shape update effect: [useEffect(..., [shape, count, charIndex, numIndex])]. *)
Definition shape_update_effect (canvas : Canvas) (p : Props) (rf : Refs) : M Refs :=
  let! target := sample canvas p (shape p) in
  ret (mkRefs (Some target) (currentPositionsRef rf) (velocitiesRef rf)
         (pointsRef rf)).

(** Core geometry setup: the colour array filled with the base colour. *)
Definition core_geometry (p : Props) : M (list R) :=
  let count := particleCount p in
  let! colors := Float32Array_new (count * 3) in
  for_loop (Z.to_nat count) (fun i colors =>
    let colors := aset colors (i * 3) (r (threeColorBase p)) in
    let colors := aset colors (i * 3 + 1) (g (threeColorBase p)) in
    let colors := aset colors (i * 3 + 2) (b (threeColorBase p)) in
    ret colors) colors.

(** What a change of [particleCount] runs: the two memo blocks keyed on
    [count] during render, and after it the effect keyed on [count]. *)
Definition resize (canvas : Canvas) (p : Props) (rf : Refs) : M Refs :=
  let! rf := initialization canvas p rf in
  let! colors := core_geometry p in
  let rf := mkRefs (targetPositionsRef rf) (currentPositionsRef rf)
              (velocitiesRef rf) (Some colors) in
  shape_update_effect canvas p rf.

(** ** Audio bands *)

Record AudioData : Type := mkAudio { bass : R; mid : R; treble : R; average : R }.

(** The audio service: [analyser] holds the bands its byte data yields,
    [None] while the analyser or its data array is missing. *)
Record AudioService : Type := mkService {
  isRunning : bool;
  analyser : option AudioData
}.

Definition getFrequencyData (svc : AudioService) : AudioData :=
  match isRunning svc, analyser svc with
  | true, Some d => d
  | _, _ => mkAudio 0 0 0 0
  end.

(** The bass and treble the frame reads; both 0 without a service. *)
Definition audio_reactivity (audioService : option AudioService) : R * R :=
  match audioService with
  | Some svc => let audioData := getFrequencyData svc in
                (bass audioData, treble audioData)
  | None => (0, 0)
  end.

(** The frame callback, restricted to the buffers: guard, audio, loop. *)
Definition useFrame (p : Props) (audioService : option AudioService)
    (rf : Refs) : M Refs :=
  match pointsRef rf, currentPositionsRef rf, targetPositionsRef rf,
        velocitiesRef rf with
  | Some colorArray, Some positionArray, Some targets, Some velocities =>
      let '(audioBass, audioTreble) := audio_reactivity audioService in
      let! bf := physics_loop targets (threeColorBase p) audioTreble
                   (Z.to_nat (particleCount p))
                   (Buffers positionArray velocities colorArray) in
      ret (mkRefs (Some targets) (Some (positions bf))
             (Some (vels bf)) (Some (colors bf)))
  | _, _, _, _ => ret rf
  end.

(** ** Voice commands: the letter and number guards of processCommand *)

Inductive VoiceCommandType : Type := SET_CHAR | SET_NUM.

Definition NUMBER_WORD_MAP : gmap js_string Z :=
  list_to_map
    [(units "ZERO", 0%Z); (units "ONE", 1%Z); (units "TWO", 2%Z);
     (units "THREE", 3%Z); (units "FOUR", 4%Z); (units "FIVE", 5%Z);
     (units "SIX", 6%Z); (units "SEVEN", 7%Z); (units "EIGHT", 8%Z);
     (units "NINE", 9%Z)].

(** White space and line terminators that [parseInt] skips. *)
Definition is_white_space (c : Z) : bool :=
  bool_decide (c ∈ [9; 10; 11; 12; 13; 32; 160; 5760; 8232; 8233; 8239;
                    8287; 12288; 65279]%Z)
  || ((8192 <=? c) && (c <=? 8202))%Z.

Fixpoint skip_white_space (s : js_string) : js_string :=
  match s with
  | c :: s' => if is_white_space c then skip_white_space s' else s
  | [] => []
  end.

(** The value of a code unit as a digit of the given radix. *)
Definition digit_value (radix c : Z) : option Z :=
  let d := if ((48 <=? c) && (c <=? 57))%Z then Some (c - 48)%Z
           else if ((97 <=? c) && (c <=? 122))%Z then Some (c - 87)%Z
           else if ((65 <=? c) && (c <=? 90))%Z then Some (c - 55)%Z
           else None in
  match d with
  | Some v => if (v <? radix)%Z then Some v else None
  | None => None
  end.

(** The longest prefix of digits, read as a numeral; [None] when empty. *)
Fixpoint parse_digits (radix : Z) (s : js_string) (acc : option Z) : option Z :=
  match s with
  | c :: s' =>
      match digit_value radix c with
      | Some v => parse_digits radix s' (Some (default 0 acc * radix + v)%Z)
      | None => acc
      end
  | [] => acc
  end.

(** [parseInt(s)] without a radix argument; [None] is NaN. *)
Definition parseInt (s : js_string) : option Z :=
  let s := skip_white_space s in
  let '(sign, s) := match s with
                    | 45%Z :: s' => ((-1)%Z, s')
                    | 43%Z :: s' => (1%Z, s')
                    | _ => (1%Z, s)
                    end in
  let '(radix, s) := match s with
                     | 48%Z :: 120%Z :: s' => (16%Z, s')
                     | 48%Z :: 88%Z :: s' => (16%Z, s')
                     | _ => (10%Z, s)
                     end in
  match parse_digits radix s None with
  | Some n => Some (sign * n)%Z
  | None => None
  end.

(** The handler of a letter match: [char] is the captured group. *)
Definition letter_command (char : js_string) : option (VoiceCommandType * js_string) :=
  match char with
  | c :: _ =>
      let index := (c - 65)%Z in
      if ((0 <=? index) && (index <=? 25))%Z
      then Some (SET_CHAR, String_of_number index)
      else None
  | [] => None
  end.

(** The handler of a number match: [valStr] is the captured group.  A key
    absent from [NUMBER_WORD_MAP] reads as [undefined] or as an inherited
    member that is not a number; either way [numVal] stays NaN. *)
Definition number_command (valStr : js_string) : option (VoiceCommandType * js_string) :=
  let numVal := parseInt valStr in
  let numVal := match numVal, NUMBER_WORD_MAP !! valStr with
                | None, Some n => Some n
                | _, _ => numVal
                end in
  match numVal with
  | Some n => if ((0 <=? n) && (n <=? 9))%Z
              then Some (SET_NUM, String_of_number n)
              else None
  | None => None
  end.

(** ** The update step in the words of the specification *)

(** accel, noise, velocity, current: the four lines of the design. *)
Definition spec_axis (target current velocity u treble : R) : R * R :=
  let accel := (target - current) * 0.03 in
  let noise := (u - 0.5) * (0.02 + treble * 0.1) in
  let velocity := (velocity + accel + noise) * 0.92 in
  let current := current + velocity in
  (current, velocity).

(** Content of cell [j], 0 past the end. *)
Definition cell (l : list R) (j : nat) : R := default 0 (l !! j).

(** Euclidean distance between the points stored at particle [i]. *)
Definition distance (current target : list R) (i : nat) : R :=
  sqrt ((cell current (i * 3) - cell target (i * 3)) ^ 2
        + (cell current (i * 3 + 1) - cell target (i * 3 + 1)) ^ 2
        + (cell current (i * 3 + 2) - cell target (i * 3 + 2)) ^ 2).

(** The update of cell [j] as the specification words it, from the
    buffers at the start of the frame and the [j]-th draw of the frame. *)
Definition axis_after (targets : list R) (bf : buffers) (s : rng)
    (audioTreble : R) (j : nat) : R * R :=
  spec_axis (cell targets j) (cell (positions bf) j) (cell (vels bf) j)
    (draws s (cursor s + j)) audioTreble.

(** Speed of particle [i] after that update. *)
Definition speed_after (targets : list R) (bf : buffers) (s : rng)
    (audioTreble : R) (i : nat) : R :=
  sqrt (snd (axis_after targets bf s audioTreble (i * 3)) ^ 2
        + snd (axis_after targets bf s audioTreble (i * 3 + 1)) ^ 2
        + snd (axis_after targets bf s audioTreble (i * 3 + 2)) ^ 2).

Definition channel (k : nat) (c : Color) : R :=
  match k with
  | O => r c
  | 1%nat => g c
  | _ => b c
  end.

(** ** Notions used by the statements *)

(** Every value of the generator lies in [0, 1), as [Math.random] promises. *)
Definition uniform (s : rng) : Prop := forall k, 0 <= draws s k < 1.

(** The generator under which the jitter term is zero at every draw. *)
Definition centred (s : rng) : Prop := forall k, draws s k = 0.5.

(** [n] successive frames of the physics loop with a fixed target. *)
Definition frames (targets : list R) (threeColorBase : Color)
    (audioTreble : R) (count n : nat) (bf : buffers) : M buffers :=
  for_loop n (fun _ bf => physics_loop targets threeColorBase audioTreble
                            count bf) bf.

(** One axis after [n] updates in the specification's words, without
    jitter (the draw is 0.5). *)
Fixpoint axis_iter (n : nat) (target current velocity treble : R) : R * R :=
  match n with
  | O => (current, velocity)
  | S m =>
      let cv := axis_iter m target current velocity treble in
      spec_axis target (fst cv) (snd cv) 0.5 treble
  end.

(** The quadratic energy of one axis: [d] is current minus target; 0.0276
    is attraction times damping and 0.0524 is 1 - damping - 0.0276. *)
Definition axis_energy (d v : R) : R :=
  0.0276 * d ^ 2 + 0.0524 * d * v + 0.92 * v ^ 2.

(** The energy of particle [i]: the sum over its three axes. *)
Definition energy (targets : list R) (bf : buffers) (i : nat) : R :=
  axis_energy (cell (positions bf) (i * 3) - cell targets (i * 3))
              (cell (vels bf) (i * 3))
  + axis_energy (cell (positions bf) (i * 3 + 1) - cell targets (i * 3 + 1))
                (cell (vels bf) (i * 3 + 1))
  + axis_energy (cell (positions bf) (i * 3 + 2) - cell targets (i * 3 + 2))
                (cell (vels bf) (i * 3 + 2)).

(** [Math.sqrt(vels[i3]**2 + vels[i3+1]**2 + vels[i3+2]**2)]. *)
Definition speed (vels : list R) (i : nat) : R :=
  sqrt (cell vels (i * 3) ^ 2 + cell vels (i * 3 + 1) ^ 2
        + cell vels (i * 3 + 2) ^ 2).

(** The text a glyph formation hands to the rasteriser. *)
Definition glyph_text (charIndex numIndex : Z) (type : ParticleShape) : js_string :=
  match type with
  | NUMBER => String_of_number numIndex
  | _ => String_fromCharCode (65 + charIndex)
  end.

(** Two images of the canvas size: all black, and black but for the red
    byte of the pixel (0, 0). *)
Definition dark_image : list Z := replicate (Z.to_nat (size * size * 4)) 0%Z.

Definition dot_image : list Z :=
  255%Z :: replicate (Z.to_nat (size * size * 4) - 1) 0%Z.

(** A canvas on which the text [lit] renders as that single bright pixel
    and every other text renders as nothing. *)
Definition dot_canvas (lit : js_string) : Canvas :=
  Some (fun text => if decide (text = lit) then dot_image else dark_image).

(** ** Geometry of a sampled buffer *)

(** The triple stored for particle [i]. *)
Definition point (positions : list R) (i : nat) : R * R * R :=
  (cell positions (i * 3), cell positions (i * 3 + 1),
   cell positions (i * 3 + 2)).

(** Squared distance of a point from the origin. *)
Definition norm2 (p : R * R * R) : R :=
  let '(x, y, z) := p in x ^ 2 + y ^ 2 + z ^ 2.

(** ** The frame callback: rotation and scale *)

(** The fields of the hand data the frame reads ([x] and [y] under the
    names the callback gives them). *)
Record HandData : Type := mkHand {
  handX : R;
  handY : R;
  isDetected : bool;
  handSpread : R
}.

(** What the frame reads of the renderer state: pointer and clock. *)
Record RootState : Type := mkState {
  mouse_x : R;
  mouse_y : R;
  elapsedTime : R
}.

Record Vector3 : Type := mkVector3 { v3x : R; v3y : R; v3z : R }.

(** [Vector3.lerp] of the three.js library: each component moves towards
    the other vector's by the fraction [alpha]. *)
Definition Vector3_lerp (this v : Vector3) (alpha : R) : Vector3 :=
  mkVector3 (v3x this + (v3x v - v3x this) * alpha)
            (v3y this + (v3y v - v3y this) * alpha)
            (v3z this + (v3z v - v3z this) * alpha).

(** The rotation about x and y and the scale of a points object. *)
Record Object3D : Type := mkObject3D {
  rotation_x : R;
  rotation_y : R;
  scale : Vector3
}.

(** The core cloud and the aura ([auraRef] may be unset). *)
Record Scene : Type := mkScene { points : Object3D; aura : option Object3D }.

(** The rotation, scaling and aura part of the frame callback, past its
    guard. *)
Definition frame_transform (hand : HandData) (audioBass : R)
    (state : RootState) (sc : Scene) : Scene :=
  let targetRotX := if isDetected hand then - handY hand * 1.5
                    else mouse_y state * 1.0 in
  let targetRotY := if isDetected hand then handX hand * 1.5
                    else mouse_x state * 1.0 + elapsedTime state * 0.05 in
  let rx := lerp (rotation_x (points sc)) targetRotX 0.1 in
  let ry := lerp (rotation_y (points sc)) targetRotY 0.1 in
  let baseScale := if isDetected hand then 0.3 + handSpread hand * 1.2
                   else 1.0 in
  let audioScale := audioBass * 0.4 in
  let targetScale := baseScale + audioScale in
  let lerpSpeed := 0.08 in
  let sc_points :=
    mkObject3D rx ry
      (Vector3_lerp (scale (points sc))
         (mkVector3 targetScale targetScale targetScale) lerpSpeed) in
  let sc_aura :=
    match aura sc with
    | Some a =>
        let auraScale := targetScale * (1 + audioBass * 0.5) in
        Some (mkObject3D (rx * 0.8) (ry * 0.8)
                (Vector3_lerp (scale a)
                   (mkVector3 auraScale auraScale auraScale) lerpSpeed))
    | None => None
    end in
  mkScene sc_points sc_aura.


Definition target_scale (hand : HandData) (audioBass : R) : R :=
  (if isDetected hand then 0.3 + handSpread hand * 1.2 else 1.0)
  + audioBass * 0.4.

(** A run of frames, one triple of inputs per frame. *)
Definition transform_run (inputs : list (HandData * R * RootState))
    (sc : Scene) : Scene :=
  fold_left (fun sc input =>
               frame_transform (fst (fst input)) (snd (fst input)) (snd input) sc)
    inputs sc.

(** All three components of a vector lie between two bounds. *)
Definition within (lo hi : R) (v : Vector3) : Prop :=
  lo <= v3x v <= hi /\ lo <= v3y v <= hi /\ lo <= v3z v <= hi.

(** ** The audio service: bands from the analyser's bytes *)

(** [arr.slice(b, e)] for indices that are not negative. *)
Definition slice (arr : list Z) (b e : nat) : list Z := take (e - b) (drop b arr).

(** [arr.reduce((a, b) => a + b, 0) / arr.length]. *)
Definition getAvg (arr : list Z) : M R :=
  js_div (IZR (fold_left Z.add arr 0%Z)) (INR (length arr)).

(** The band computation of [getFrequencyData] on the byte data the
    analyser has written. *)
Definition frequency_bands (dataArray : list Z) : M AudioData :=
  let bassRange := slice dataArray 0 10 in
  let midRange := slice dataArray 11 60 in
  let trebleRange := slice dataArray 61 255 in
  let! avg := getAvg bassRange in
  let bass := avg / 255 in
  let! avg := getAvg midRange in
  let mid := avg / 255 in
  let! avg := getAvg trebleRange in
  let treble := avg / 255 in
  let average := (bass + mid + treble) / 3 in
  ret (mkAudio bass mid treble average).

(** [getFrequencyData] on the bytes: [dataArray] is [None] while the
    analyser or its array is missing. *)
Definition getFrequencyData_bytes (isRunning : bool)
    (dataArray : option (list Z)) : M AudioData :=
  match isRunning, dataArray with
  | true, Some d => frequency_bands d
  | _, _ => ret (mkAudio 0 0 0 0)
  end.

(** ** The audio visualizer of the control panel *)

(** The ten levels a bar picks from. *)
Definition levels (data : AudioData) : list R :=
  [bass data; bass data; bass data;
   mid data; mid data; mid data; mid data;
   treble data; treble data; treble data].

Definition bars : nat := 20.

(** [Math.floor((i / bars) * levels.length)]. *)
Definition bandIdx (data : AudioData) (i : nat) : Z :=
  Zfloor (INR i / INR bars * INR (length (levels data))).

(** The height of bar [i]: an undefined level would make it NaN. *)
Definition bar_height (data : AudioData) (canvas_height : R) (i : nat) : M R :=
  let k := bandIdx data i in
  let! level := (if (k <? 0)%Z then raise NotFinite
                 else aget (levels data) (Z.to_nat k)) in
  let! u := Math_random in
  ret (Rmax 2 (level * canvas_height * 1.5 * u)).

(** ** The component across renders and frames *)

(** constants.ts: [PARTICLE_COUNTS.AURA]. *)
Definition auraCount : Z := 4000.

(** The mounted component: the props of its last render, its refs and the
    memoised aura positions. *)
Record Component : Type := mkComponent {
  props : option Props;
  refs : Refs;
  auraGeometry : option (list R)
}.

Definition unmounted : Component :=
  mkComponent None (mkRefs None None None None) None.

(** A render with new props followed by its commit and effects: each memo
    block and the effect run when one of their dependencies has changed
    since the last render, and all of them on the first. *)
Definition render (canvas : Canvas) (new : Props) (c : Component) : M Component :=
  let count_changed :=
    match props c with
    | Some old => negb (particleCount old =? particleCount new)%Z
    | None => true
    end in
  let effect_runs :=
    match props c with
    | Some old =>
        negb (bool_decide (shape old = shape new)
              && (particleCount old =? particleCount new)%Z
              && (charIndex old =? charIndex new)%Z
              && (numIndex old =? numIndex new)%Z)
    | None => true
    end in
  let! rf := (if count_changed then initialization canvas new (refs c)
              else ret (refs c)) in
  let! auraPositions :=
    (match props c, auraGeometry c with
     | Some _, Some g => ret g
     | _, _ => generateTargetPositions canvas (charIndex new) (numIndex new)
                 SPHERE auraCount 12
     end) in
  let! rf := (if count_changed then
                let! colors := core_geometry new in
                ret (mkRefs (targetPositionsRef rf) (currentPositionsRef rf)
                       (velocitiesRef rf) (Some colors))
              else ret rf) in
  let! rf := (if effect_runs then shape_update_effect canvas new rf
              else ret rf) in
  ret (mkComponent (Some new) rf (Some auraPositions)).

(** A frame of the mounted component, with the props of its last render. *)
Definition frame (audioService : option AudioService) (c : Component) : M Component :=
  match props c with
  | Some p =>
      let! rf := useFrame p audioService (refs c) in
      ret (mkComponent (Some p) rf (auraGeometry c))
  | None => ret c
  end.

Inductive Event : Type :=
| Render (p : Props)
| Frame (audioService : option AudioService).

Fixpoint run (canvas : Canvas) (events : list Event) (c : Component) : M Component :=
  match events with
  | [] => ret c
  | Render p :: rest => let! c' := render canvas p c in run canvas rest c'
  | Frame a :: rest => let! c' := frame a c in run canvas rest c'
  end.

(** The buffers of a mounted component all hold three numbers per
    particle of the last rendered count, and the aura holds its own. *)
Definition cloud_ok (c : Component) : Prop :=
  match props c with
  | None => True
  | Some p =>
      exists target current velocities colorArray auraPositions,
        refs c = mkRefs (Some target) (Some current) (Some velocities)
                   (Some colorArray) /\
        auraGeometry c = Some auraPositions /\
        length target = (Z.to_nat (particleCount p) * 3)%nat /\
        length current = (Z.to_nat (particleCount p) * 3)%nat /\
        length velocities = (Z.to_nat (particleCount p) * 3)%nat /\
        length colorArray = (Z.to_nat (particleCount p) * 3)%nat /\
        length auraPositions = (Z.to_nat auraCount * 3)%nat
  end.

(** What a render keeps: the aura once mounted; positions, velocities and
    colours while the count is the same; everything, generator included,
    while the four dependencies of the effect are the same. *)
Definition render_keeps (new : Props) (c : Component) (s : rng)
    (c' : Component) (s' : rng) : Prop :=
  forall old, props c = Some old ->
    auraGeometry c' = auraGeometry c /\
    (particleCount old = particleCount new ->
       currentPositionsRef (refs c') = currentPositionsRef (refs c) /\
       velocitiesRef (refs c') = velocitiesRef (refs c) /\
       pointsRef (refs c') = pointsRef (refs c) /\
       (shape old = shape new -> charIndex old = charIndex new ->
        numIndex old = numIndex new -> refs c' = refs c /\ s' = s)).

(** The events the lifecycle is followed on: renders with a count that is
    not negative, and any frame. *)
Definition valid_event (e : Event) : Prop :=
  match e with
  | Render p => (0 <= particleCount p)%Z
  | Frame _ => True
  end.


(** ** Voice commands: the whole of processCommand *)

(** The command types the handler passes to its callback; the two value
    commands are those of [VoiceCommandType]. *)
Inductive CommandType : Type :=
| RESET | SNAPSHOT | COLOR | SHAPE | VALUE (t : VoiceCommandType).

Definition Command : Type := CommandType * js_string.

Fixpoint starts_with (search text : js_string) : bool :=
  match search, text with
  | [], _ => true
  | c :: search', d :: text' => (c =? d)%Z && starts_with search' text'
  | _ :: _, [] => false
  end.

(** [text.includes(search)]. *)
Fixpoint includes (text search : js_string) : bool :=
  starts_with search text
  || match text with
     | [] => false
     | _ :: text' => includes text' search
     end.

(** constants.ts: [COLOR_PALETTES], in the order of its entries. *)
Definition COLOR_PALETTES : list (js_string * js_string) :=
  [(units "CYAN", units "#00f3ff"); (units "GOLD", units "#ffaa00");
   (units "MAGENTA", units "#ff00aa"); (units "LIME", units "#39ff14");
   (units "ORANGE", units "#ff4500"); (units "RED", units "#ff003c");
   (units "WHITE", units "#ffffff"); (units "PURPLE", units "#a855f7")].

(** [COLOR_PALETTES.NAME]. *)
Definition palette (name : js_string) : js_string :=
  match find (fun e => bool_decide (fst e = name)) COLOR_PALETTES with
  | Some e => snd e
  | None => []
  end.

(** Step 3: the first palette name the text includes, else an alias. *)
Definition color_commands (text : js_string) : list Command :=
  match find (fun e => includes text (fst e)) COLOR_PALETTES with
  | Some e => [(COLOR, snd e)]
  | None =>
      if includes text (units "BLUE") then [(COLOR, palette (units "CYAN"))]
      else if includes text (units "GREEN") then [(COLOR, palette (units "LIME"))]
      else if includes text (units "YELLOW") then [(COLOR, palette (units "GOLD"))]
      else if includes text (units "VIOLET") then [(COLOR, palette (units "PURPLE"))]
      else if includes text (units "PINK") then [(COLOR, palette (units "MAGENTA"))]
      else if includes text (units "WHITE") then [(COLOR, palette (units "WHITE"))]
      else if includes text (units "BLACK") then [(COLOR, units "#333333")]
      else []
  end.

(** Step 5: the loop over the values of the shape enumeration. *)
Fixpoint shape_commands (text : js_string) (letterMatch numberMatch : bool)
    (shapes : list js_string) : list Command :=
  match shapes with
  | [] => []
  | shape :: rest =>
      if includes text shape
         || (bool_decide (shape = units "BIG_BANG")
             && includes text (units "BIG BANG"))
      then
        if bool_decide (shape = units "TEXT") && letterMatch
        then shape_commands text letterMatch numberMatch rest
        else if bool_decide (shape = units "NUMBER") && numberMatch
        then shape_commands text letterMatch numberMatch rest
        else [(SHAPE, shape)]
      else shape_commands text letterMatch numberMatch rest
  end.

Definition value_commands (c : option (VoiceCommandType * js_string)) : list Command :=
  match c with
  | Some (t, v) => [(VALUE t, v)]
  | None => []
  end.

(** [processCommand(text)]: the calls of the callback, in order.  The two
    regular expression matches are inputs: [letterMatch] and [numberMatch]
    hold the second captured group when the expression matches.  [shapes]
    is [Object.values(ParticleShape)], whose members TEXT, NUMBER and
    BIG_BANG have their own names as values. *)
Definition processCommand (shapes : list js_string)
    (letterMatch numberMatch : option js_string) (text : js_string)
    : list Command :=
  if includes text (units "RESET") || includes text (units "CLEAR")
     || includes text (units "DEFAULT")
  then [(RESET, [])]
  else
    (if includes text (units "SAVE") || includes text (units "SNAPSHOT")
        || includes text (units "CAPTURE") || includes text (units "DOWNLOAD")
        || includes text (units "PICTURE")
     then [(SNAPSHOT, [])] else [])
    ++ color_commands text
    ++ match letterMatch with
       | Some char => value_commands (letter_command char)
       | None => []
       end
    ++ match numberMatch with
       | Some valStr => value_commands (number_command valStr)
       | None => []
       end
    ++ shape_commands text (bool_decide (is_Some letterMatch))
         (bool_decide (is_Some numberMatch)) shapes.

(** ** A small program logic for [M] *)

(** [returns c s Q]: from generator state [s], [c] ends without a fault
    and its result and final generator state satisfy [Q]. *)
Definition returns {A} (c : M A) (s : rng) (Q : A -> rng -> Prop) : Prop :=
  exists a s', c s = Ok (a, s') /\ Q a s'.

Lemma returns_ret {A} (a : A) s (Q : A -> rng -> Prop) :
  Q a s -> returns (ret a) s Q.
Proof. intros H. exists a, s. split; [reflexivity | exact H]. Qed.

Lemma returns_bind {A B} (c : M A) (k : A -> M B) s (Q : B -> rng -> Prop) :
  returns c s (fun a s' => returns (k a) s' Q) -> returns (bind c k) s Q.
Proof.
  intros (a & s' & Hc & b0 & s'' & Hk & HQ).
  exists b0, s''. unfold bind. rewrite Hc. auto.
Qed.

Lemma returns_mono {A} (c : M A) s (P Q : A -> rng -> Prop) :
  returns c s P -> (forall a s', P a s' -> Q a s') -> returns c s Q.
Proof. intros (a & s' & Hc & HP) H. exists a, s'. auto. Qed.

Lemma returns_inv {A} (c : M A) s (Q : A -> rng -> Prop) a s' :
  returns c s Q -> c s = Ok (a, s') -> Q a s'.
Proof. intros (a0 & s0 & Hc & HQ) E. congruence. Qed.

Lemma returns_random s (Q : R -> rng -> Prop) :
  Q (draws s (cursor s)) (Rng (draws s) (S (cursor s))) ->
  returns Math_random s Q.
Proof. intros H. eexists _, _. split; [reflexivity | exact H]. Qed.

Lemma returns_aget (l : list R) j v s (Q : R -> rng -> Prop) :
  l !! j = Some v -> Q v s -> returns (aget l j) s Q.
Proof.
  intros Hl H. exists v, s. unfold aget. rewrite Hl. split; [reflexivity | exact H].
Qed.

Lemma returns_sqrt x s (Q : R -> rng -> Prop) :
  0 <= x -> Q (sqrt x) s -> returns (Math_sqrt x) s Q.
Proof.
  intros Hx H. exists (sqrt x), s. unfold Math_sqrt.
  destruct (Rle_dec 0 x); [split; [reflexivity | exact H] | contradiction].
Qed.

Lemma returns_acos x s (Q : R -> rng -> Prop) :
  -1 <= x <= 1 -> Q (acos x) s -> returns (Math_acos x) s Q.
Proof.
  intros [Hl Hu] H. exists (acos x), s. unfold Math_acos.
  destruct (Rle_dec (-1) x); [| contradiction].
  destruct (Rle_dec x 1); [| contradiction].
  split; [reflexivity | exact H].
Qed.

Lemma returns_div x y s (Q : R -> rng -> Prop) :
  y <> 0 -> Q (x / y) s -> returns (js_div x y) s Q.
Proof.
  intros Hy H. exists (x / y), s. unfold js_div.
  destruct (Req_dec_T y 0); [contradiction | split; [reflexivity | exact H]].
Qed.

Lemma returns_new n s (Q : list R -> rng -> Prop) :
  (0 <= n)%Z -> Q (replicate (Z.to_nat n) 0) s ->
  returns (Float32Array_new n) s Q.
Proof.
  intros Hn H. eexists _, s. unfold Float32Array_new.
  destruct (Z.ltb_spec n 0); [lia | split; [reflexivity | exact H]].
Qed.

(** The loop rule: an invariant indexed by the number of rounds done. *)
Lemma returns_for_loop {St} (body : nat -> St -> M St)
    (Inv : nat -> St -> rng -> Prop) n st s :
  Inv O st s ->
  (forall m st' s', (m < n)%nat -> Inv m st' s' ->
     returns (body m st') s' (Inv (S m))) ->
  returns (for_loop n body st) s (Inv n).
Proof.
  intros H0 Hstep. induction n as [| n IH]; simpl.
  - apply returns_ret, H0.
  - apply returns_bind. eapply returns_mono.
    + apply IH. intros m st' s' Hm. apply Hstep. lia.
    + intros st' s' HI. apply Hstep; [lia | exact HI].
Qed.

Lemma cell_lookup (l : list R) j v : l !! j = Some v -> cell l j = v.
Proof. unfold cell. intros ->. reflexivity. Qed.

Lemma lookup_cell (l : list R) j : (j < length l)%nat -> l !! j = Some (cell l j).
Proof.
  intros H. destruct (lookup_lt_is_Some_2 l j H) as [v Hv].
  rewrite Hv. f_equal. symmetry. apply cell_lookup, Hv.
Qed.

(** ** The integrator, particle by particle *)

Ltac solve_lookup :=
  unfold aset;
  repeat first
    [ rewrite list_lookup_insert_ne by lia
    | rewrite list_lookup_insert_eq by (rewrite ?length_insert; lia) ];
  first [ reflexivity | eassumption ].

Ltac run_step :=
  lazymatch goal with
  | |- returns (bind _ _) _ _ => apply returns_bind
  | |- returns (aget _ _) _ _ => eapply returns_aget; [solve_lookup |]
  | |- returns Math_random _ _ => apply returns_random; cbn [draws cursor]
  | |- returns (ret _) _ _ => apply returns_ret
  end.

(** One round of the physics loop: the three cells of particle [i] get the
    specified update, every other cell is left as it was, and three values
    are drawn. *)
Lemma particle_update_returns targets base treble i bf s :
  (i * 3 + 2 < length targets)%nat ->
  (i * 3 + 2 < length (positions bf))%nat ->
  (i * 3 + 2 < length (vels bf))%nat ->
  returns (particle_update targets base treble i bf) s (fun bf' s' =>
    let ax k := spec_axis (cell targets (i * 3 + k))
                  (cell (positions bf) (i * 3 + k)) (cell (vels bf) (i * 3 + k))
                  (draws s (cursor s + k)) treble in
    let t := heat (sqrt (snd (ax 0%nat) ^ 2 + snd (ax 1%nat) ^ 2
                         + snd (ax 2%nat) ^ 2)) treble in
    s' = advance 3 s /\
    length (positions bf') = length (positions bf) /\
    length (vels bf') = length (vels bf) /\
    length (colors bf') = length (colors bf) /\
    (forall k, (k < 3)%nat ->
       positions bf' !! (i * 3 + k)%nat = Some (fst (ax k)) /\
       vels bf' !! (i * 3 + k)%nat = Some (snd (ax k)) /\
       ((i * 3 + k < length (colors bf))%nat ->
        colors bf' !! (i * 3 + k)%nat
        = Some (lerp (channel k base) (channel k THREE_COLOR_HOT) t))) /\
    (forall j, ~ (i * 3 <= j < i * 3 + 3)%nat ->
       positions bf' !! j = positions bf !! j /\
       vels bf' !! j = vels bf !! j /\
       colors bf' !! j = colors bf !! j)).
Proof.
  intros Ht Hp Hv.
  destruct bf as [P V C]; simpl in *.
  pose proof (lookup_cell targets (i * 3) ltac:(lia)) as Ht0.
  pose proof (lookup_cell targets (i * 3 + 1) ltac:(lia)) as Ht1.
  pose proof (lookup_cell targets (i * 3 + 2) ltac:(lia)) as Ht2.
  pose proof (lookup_cell P (i * 3) ltac:(lia)) as Hp0.
  pose proof (lookup_cell P (i * 3 + 1) ltac:(lia)) as Hp1.
  pose proof (lookup_cell P (i * 3 + 2) ltac:(lia)) as Hp2.
  pose proof (lookup_cell V (i * 3) ltac:(lia)) as Hv0.
  pose proof (lookup_cell V (i * 3 + 1) ltac:(lia)) as Hv1.
  pose proof (lookup_cell V (i * 3 + 2) ltac:(lia)) as Hv2.
  unfold particle_update; cbv zeta; simpl positions; simpl vels; simpl colors.
  repeat run_step.
  apply returns_sqrt;
    [repeat apply Rplus_le_le_0_compat; apply pow2_ge_0 |].
  apply returns_ret.
  cbv zeta. cbn [positions vels colors]. unfold aset.
  rewrite !length_insert.
  split; [unfold advance; f_equal; lia |].
  do 3 (split; [reflexivity |]).
  split.
  - intros k Hk.
    assert (Hc : k = 0%nat \/ k = 1%nat \/ k = 2%nat) by lia.
    replace (S (S (cursor s))) with (cursor s + 2)%nat by lia.
    replace (S (cursor s)) with (cursor s + 1)%nat by lia.
    replace (draws s (cursor s)) with (draws s (cursor s + 0)) by (f_equal; lia).
    replace (cell targets (i * 3)) with (cell targets (i * 3 + 0))
      by (f_equal; lia).
    replace (cell P (i * 3)) with (cell P (i * 3 + 0)) by (f_equal; lia).
    replace (cell V (i * 3)) with (cell V (i * 3 + 0)) by (f_equal; lia).
    destruct Hc as [-> | [-> | ->]]; rewrite ?Nat.add_0_r;
      (split; [| split; [| intros HC]]);
      repeat first
        [ rewrite list_lookup_insert_ne by lia
        | rewrite list_lookup_insert_eq by (rewrite ?length_insert; lia) ];
      rewrite ?Nat.add_0_r;
      unfold spec_axis, attraction, damping, noiseAmt; cbn [fst snd channel];
      first [ f_equal; lra | do 4 f_equal; ring ].
  - intros j Hj.
    rewrite !list_lookup_insert_ne by lia. auto.
Qed.

Lemma cell_ext (l l' : list R) j : l !! j = l' !! j -> cell l j = cell l' j.
Proof. unfold cell. intros ->. reflexivity. Qed.

(** The postcondition of the physics loop after [n] rounds. *)
Lemma physics_loop_returns targets base treble count bf s :
  (count * 3 <= length targets)%nat ->
  (count * 3 <= length (positions bf))%nat ->
  (count * 3 <= length (vels bf))%nat ->
  returns (physics_loop targets base treble count bf) s (fun bf' s' =>
    s' = advance (count * 3) s /\
    length (positions bf') = length (positions bf) /\
    length (vels bf') = length (vels bf) /\
    length (colors bf') = length (colors bf) /\
    (forall j, (j < count * 3)%nat ->
       positions bf' !! j = Some (fst (axis_after targets bf s treble j)) /\
       vels bf' !! j = Some (snd (axis_after targets bf s treble j))) /\
    (forall j, (count * 3 <= j)%nat ->
       positions bf' !! j = positions bf !! j /\
       vels bf' !! j = vels bf !! j /\
       colors bf' !! j = colors bf !! j) /\
    (forall i k, (i < count)%nat -> (k < 3)%nat ->
       (i * 3 + k < length (colors bf))%nat ->
       colors bf' !! (i * 3 + k)%nat
       = Some (lerp (channel k base) (channel k THREE_COLOR_HOT)
                 (heat (speed_after targets bf s treble i) treble)))).
Proof.
  intros Ht Hp Hv. unfold physics_loop.
  assert (Hn : (count <= count)%nat) by lia. revert Hn.
  generalize count at 1 3 4 5 6 7 as n. intros n Hn.
  apply (returns_for_loop (particle_update targets base treble)
    (fun n bf' s' =>
      s' = advance (n * 3) s /\
      length (positions bf') = length (positions bf) /\
      length (vels bf') = length (vels bf) /\
      length (colors bf') = length (colors bf) /\
      (forall j, (j < n * 3)%nat ->
         positions bf' !! j = Some (fst (axis_after targets bf s treble j)) /\
         vels bf' !! j = Some (snd (axis_after targets bf s treble j))) /\
      (forall j, (n * 3 <= j)%nat ->
         positions bf' !! j = positions bf !! j /\
         vels bf' !! j = vels bf !! j /\
         colors bf' !! j = colors bf !! j) /\
      (forall i k, (i < n)%nat -> (k < 3)%nat ->
         (i * 3 + k < length (colors bf))%nat ->
         colors bf' !! (i * 3 + k)%nat
         = Some (lerp (channel k base) (channel k THREE_COLOR_HOT)
                   (heat (speed_after targets bf s treble i) treble))))).
  - split; [unfold advance; destruct s; simpl; f_equal; lia |].
    do 3 (split; [reflexivity |]).
    split; [intros j Hj; lia |]. split; [auto | intros i k Hi; lia].
  - intros m bm sm Hm (Hs & Lp & Lv & Lc & Hdone & Hrest & Hcol).
    eapply returns_mono.
    { apply particle_update_returns; lia. }
    cbv zeta. intros bf' s' (Hs' & Lp' & Lv' & Lc' & Hnew & Hold).
    assert (Hax : forall k, (k < 3)%nat ->
              spec_axis (cell targets (m * 3 + k)) (cell (positions bm) (m * 3 + k))
                (cell (vels bm) (m * 3 + k)) (draws sm (cursor sm + k)) treble
              = axis_after targets bf s treble (m * 3 + k)).
    { intros k Hk. unfold axis_after.
      destruct (Hrest (m * 3 + k)%nat ltac:(lia)) as (Ep & Ev & _).
      rewrite (cell_ext _ _ _ Ep), (cell_ext _ _ _ Ev).
      subst sm. unfold advance. cbn [draws cursor]. do 2 f_equal. lia. }
    split; [subst; unfold advance; cbn [draws cursor]; f_equal; lia |].
    do 3 (split; [congruence |]).
    split; [| split].
    + intros j Hj. destruct (decide (j < m * 3)%nat) as [Hlt | Hge].
      * destruct (Hold j ltac:(lia)) as (Ep & Ev & _).
        rewrite Ep, Ev. apply Hdone, Hlt.
      * replace j with (m * 3 + (j - m * 3))%nat by lia.
        destruct (Hnew (j - m * 3)%nat ltac:(lia)) as (Ep & Ev & _).
        rewrite Ep, Ev, Hax by lia. auto.
    + intros j Hj. destruct (Hold j ltac:(lia)) as (Ep & Ev & Ec).
      destruct (Hrest j ltac:(lia)) as (Ep' & Ev' & Ec').
      rewrite Ep, Ev, Ec. auto.
    + intros i k Hi Hk Hlen. destruct (decide (i < m)%nat) as [Hlt | Hge].
      * destruct (Hold (i * 3 + k)%nat ltac:(lia)) as (_ & _ & Ec).
        rewrite Ec. apply Hcol; auto.
      * assert (i = m) by lia. subst i.
        destruct (Hnew k Hk) as (_ & _ & Ec).
        rewrite Ec by lia. unfold speed_after.
        rewrite !Hax by lia. rewrite Nat.add_0_r. reflexivity.
Qed.

(** ** C1: the order of the update *)

(** C1.  Per frame, for every particle and each axis independently (every
    cell [j] of the flat buffers), the physics loop computes the
    acceleration [(target - current) * 0.03], adds it and the jitter
    [(u - 0.5) * (0.02 + treble * 0.1)] to the velocity, multiplies the
    updated velocity by 0.92 and only then adds the damped velocity to the
    position: the buffers after the loop hold exactly what [spec_axis]
    computes in that order, with the [j]-th draw of the frame as [u]. *)
Theorem integrator_order targets base treble count bf s :
  (count * 3 <= length targets)%nat ->
  (count * 3 <= length (positions bf))%nat ->
  (count * 3 <= length (vels bf))%nat ->
  exists bf',
    physics_loop targets base treble count bf s
      = Ok (bf', advance (count * 3) s) /\
    forall j, (j < count * 3)%nat ->
      positions bf' !! j
        = Some (fst (spec_axis (cell targets j) (cell (positions bf) j)
                       (cell (vels bf) j) (draws s (cursor s + j)) treble)) /\
      vels bf' !! j
        = Some (snd (spec_axis (cell targets j) (cell (positions bf) j)
                       (cell (vels bf) j) (draws s (cursor s + j)) treble)).
Proof.
  intros Ht Hp Hv.
  destruct (physics_loop_returns targets base treble count bf s Ht Hp Hv)
    as (bf' & s' & Hrun & -> & _ & _ & _ & Hcells & _).
  exists bf'. split; [exact Hrun |].
  intros j Hj. apply Hcells, Hj.
Qed.

Lemma integrator_order_witness :
  exists bf',
    physics_loop [1; 2; 3] (mkColor 0 0 0) 0 1
      (Buffers [0; 0; 0] [0; 0; 0] [0; 0; 0]) (Rng (fun _ => 0.5) 0)
      = Ok (bf', advance (1 * 3) (Rng (fun _ => 0.5) 0)) /\
    forall j, (j < 1 * 3)%nat ->
      positions bf' !! j
        = Some (fst (spec_axis (cell [1; 2; 3] j) (cell [0; 0; 0] j)
                       (cell [0; 0; 0] j) 0.5 0)) /\
      vels bf' !! j
        = Some (snd (spec_axis (cell [1; 2; 3] j) (cell [0; 0; 0] j)
                       (cell [0; 0; 0] j) 0.5 0)).
Proof.
  apply (integrator_order [1; 2; 3] (mkColor 0 0 0) 0 1
           (Buffers [0; 0; 0] [0; 0; 0] [0; 0; 0]) (Rng (fun _ => 0.5) 0));
    simpl; lia.
Defined.

(** The order is observable: from rest one unit below the target, damping
    after the acceleration gives the velocity 0.0276, and moving by the
    damped velocity gives the position 0.0276; damping the old velocity
    first would give 0.03. *)
Lemma damping_after_acceleration :
  spec_axis 1 0 0 0.5 0 = (0.0276, 0.0276) /\
  0 * 0.92 + ((1 - 0) * 0.03 + (0.5 - 0.5) * (0.02 + 0 * 0.1)) <> 0.0276.
Proof. unfold spec_axis. split; [f_equal; lra | lra]. Qed.

(** ** The frame callback *)

Lemma audio_reactivity_missing : audio_reactivity None = (0, 0).
Proof. reflexivity. Qed.

Lemma audio_reactivity_stopped svc :
  isRunning svc = false \/ analyser svc = None ->
  audio_reactivity (Some svc) = (0, 0).
Proof.
  unfold audio_reactivity, getFrequencyData.
  intros [-> | ->]; [reflexivity | destruct (isRunning svc); reflexivity].
Qed.

(** With all four refs set, the frame runs the physics loop on them with
    the treble the audio service reports. *)
Lemma useFrame_runs p audioService targets current velocities colorArray s bf' s' :
  physics_loop targets (threeColorBase p) (snd (audio_reactivity audioService))
    (Z.to_nat (particleCount p)) (Buffers current velocities colorArray) s
    = Ok (bf', s') ->
  useFrame p audioService
    (mkRefs (Some targets) (Some current) (Some velocities) (Some colorArray)) s
  = Ok (mkRefs (Some targets) (Some (positions bf')) (Some (vels bf'))
          (Some (colors bf')), s').
Proof.
  intros H. unfold useFrame. cbn [pointsRef currentPositionsRef
    targetPositionsRef velocitiesRef].
  destruct (audio_reactivity audioService) as [audioBass audioTreble].
  cbn [snd] in H. unfold bind. rewrite H. reflexivity.
Qed.

(** ** C2: zero audio *)

(** C2, refuted as stated.  Audio is missing, target equals current and
    the velocity is zero, yet one frame with the generator returning 0
    gives every velocity component the value -0.0092 and moves every
    coordinate by as much: the base jitter 0.02 does not depend on audio. *)
Lemma zero_audio_not_fixed_point :
  exists rf' s',
    useFrame (mkProps SPHERE (mkColor 0 0 0) 1 0 0) None
      (mkRefs (Some [0; 0; 0]) (Some [0; 0; 0]) (Some [0; 0; 0])
         (Some [0; 0; 0]))
      (Rng (fun _ => 0) 0) = Ok (rf', s') /\
    velocitiesRef rf' <> Some [0; 0; 0] /\
    currentPositionsRef rf' <> Some [0; 0; 0].
Proof.
  destruct (physics_loop_returns [0; 0; 0] (mkColor 0 0 0) 0 1
              (Buffers [0; 0; 0] [0; 0; 0] [0; 0; 0]) (Rng (fun _ => 0) 0))
    as (bf' & s' & Hrun & _ & _ & _ & _ & Hcells & _); [simpl; lia .. |].
  eexists _, s'. split.
  - apply useFrame_runs. exact Hrun.
  - destruct (Hcells 0%nat ltac:(lia)) as [Hp Hv].
    unfold axis_after, spec_axis, cell in Hp, Hv. cbn in Hp, Hv.
    cbn [velocitiesRef currentPositionsRef].
    split; intros E; injection E as E; rewrite E in *; cbn in *;
      [injection Hv as Hv | injection Hp as Hp]; lra.
Qed.

Lemma audio_reactivity_silent audioService :
  audioService = None \/
  (exists svc, audioService = Some svc /\ getFrequencyData svc = mkAudio 0 0 0 0) ->
  audio_reactivity audioService = (0, 0).
Proof.
  intros [-> | (svc & -> & H)]; [reflexivity |].
  unfold audio_reactivity. rewrite H. reflexivity.
Qed.

(** C2, as the code has it.  When audio input is missing or all bands are
    zero the treble read is 0 and the jitter keeps its base amplitude 0.02.
    One frame with target equal to current and zero velocity sets velocity
    component [j] to [(u - 0.5) * 0.02 * 0.92] for its draw [u] and moves
    the coordinate by that amount; the component stays at zero and the
    coordinate unchanged exactly when that draw is 0.5. *)
Theorem zero_audio_step p audioService cur colorArray s :
  (audioService = None \/
   exists svc, audioService = Some svc /\
               getFrequencyData svc = mkAudio 0 0 0 0) ->
  length cur = (Z.to_nat (particleCount p) * 3)%nat ->
  exists cur' vel' colors',
    useFrame p audioService
      (mkRefs (Some cur) (Some cur) (Some (replicate (length cur) 0))
         (Some colorArray)) s
    = Ok (mkRefs (Some cur) (Some cur') (Some vel') (Some colors'),
          advance (length cur) s) /\
    forall j, (j < length cur)%nat ->
      vel' !! j = Some ((draws s (cursor s + j) - 0.5) * 0.02 * 0.92) /\
      cur' !! j
        = Some (cell cur j + (draws s (cursor s + j) - 0.5) * 0.02 * 0.92) /\
      ((vel' !! j = Some 0 /\ cur' !! j = cur !! j)
       <-> draws s (cursor s + j) = 0.5).
Proof.
  intros Haudio Hlen.
  pose proof (audio_reactivity_silent _ Haudio) as Hsilent.
  set (n := Z.to_nat (particleCount p)) in *.
  destruct (physics_loop_returns cur (threeColorBase p) 0 n
              (Buffers cur (replicate (length cur) 0) colorArray) s)
    as (bf' & s' & Hrun & -> & _ & _ & _ & Hcells & _);
    [cbn [positions vels]; rewrite ?length_replicate; lia .. |].
  exists (positions bf'), (vels bf'), (colors bf'). split.
  - replace (advance (length cur) s) with (advance (n * 3) s)
      by (rewrite Hlen; reflexivity).
    apply useFrame_runs. rewrite Hsilent. cbn [snd]. exact Hrun.
  - intros j Hj. destruct (Hcells j ltac:(lia)) as [Hp Hv].
    unfold axis_after, spec_axis in Hp, Hv. cbn [positions vels fst snd] in Hp, Hv.
    assert (Hz : cell (replicate (length cur) 0) j = 0).
    { apply cell_lookup, lookup_replicate_2, Hj. }
    rewrite Hz in Hp, Hv. rewrite Hp, Hv, (lookup_cell cur j Hj).
    split; [f_equal; lra | split; [f_equal; lra |]].
    split.
    + intros [E _]. injection E as E. lra.
    + intros E. rewrite E. split; f_equal; lra.
Qed.

Lemma zero_audio_step_witness :
  exists cur' vel' colors',
    useFrame (mkProps SPHERE (mkColor 0 0 0) 1 0 0) None
      (mkRefs (Some [1; 2; 3]) (Some [1; 2; 3])
         (Some (replicate (length [1; 2; 3]) 0)) (Some [0; 0; 0]))
      (Rng (fun _ => 0.5) 0)
    = Ok (mkRefs (Some [1; 2; 3]) (Some cur') (Some vel') (Some colors'),
          advance (length [1; 2; 3]) (Rng (fun _ => 0.5) 0)) /\
    forall j, (j < length [1; 2; 3])%nat ->
      vel' !! j = Some ((0.5 - 0.5) * 0.02 * 0.92) /\
      cur' !! j = Some (cell [1; 2; 3] j + (0.5 - 0.5) * 0.02 * 0.92) /\
      ((vel' !! j = Some 0 /\ cur' !! j = [1; 2; 3] !! j) <-> 0.5 = 0.5).
Proof.
  apply (zero_audio_step (mkProps SPHERE (mkColor 0 0 0) 1 0 0) None
           [1; 2; 3] [0; 0; 0] (Rng (fun _ => 0.5) 0));
    [left; reflexivity | reflexivity].
Defined.

(** ** C3: the pyramid fold *)

Ltac decide_folds :=
  repeat match goal with
         | |- context [Rgt_dec ?x ?y] =>
             destruct (Rgt_dec x y); try lra; cbv beta iota zeta
         end.

(** C3, at the failing input.  For the draws a = 0.5, b = 0.75, c = 0.75
    the three reflections of the PYRAMID case end with a = 0.5, b = 0.75,
    c = 0.25, so the fourth coefficient d = 1 - a - b - c is -0.5: the
    sampled point is not a convex combination of the four vertices, and
    with radius 10 its z coordinate 22.5 lies beyond the vertex
    coordinate 15. *)
Theorem pyramid_fold_negative_weight :
  pyramid_fold 0.5 0.75 0.75 = (0.5, 0.75, 0.25) /\
  1 - 0.5 - 0.75 - 0.25 < 0 /\
  exists x y z s',
    shape_point PYRAMID 1 10 0
      (Rng (fun k => match k with O => 0.5 | _ => 0.75 end) 0)
    = Ok ((x, y, z), s') /\ z = 22.5 /\ 10 * 1.5 < z.
Proof.
  assert (Hfold : pyramid_fold 0.5 0.75 0.75 = (0.5, 0.75, 0.25)).
  { unfold pyramid_fold. decide_folds. repeat f_equal; lra. }
  split; [exact Hfold |]. split; [lra |].
  unfold shape_point, bind, Math_random, ret. cbn [draws cursor].
  rewrite Hfold. eexists _, _, _, _. split; [reflexivity |]. lra.
Qed.

(** The fold does keep each of a, b, c within [0, 1] and the four
    coefficients always sum to 1; only their sign is not guaranteed. *)
Lemma pyramid_fold_unit a b c :
  0 <= a <= 1 -> 0 <= b <= 1 -> 0 <= c <= 1 ->
  let '(a', b', c') := pyramid_fold a b c in
  0 <= a' <= 1 /\ 0 <= b' <= 1 /\ 0 <= c' <= 1 /\
  a' + b' + c' + (1 - a' - b' - c') = 1.
Proof.
  intros Ha Hb Hc. unfold pyramid_fold.
  repeat match goal with
         | |- context [Rgt_dec ?x ?y] =>
             destruct (Rgt_dec x y); cbv beta iota zeta
         end; lra.
Qed.

(** ** C4: repeated frames with a constant target and zero jitter *)

(** One axis, zero jitter: the energy shrinks by the damping factor. *)
Lemma axis_energy_step t p v treble :
  axis_energy (fst (spec_axis t p v 0.5 treble) - t)
              (snd (spec_axis t p v 0.5 treble))
  = 0.92 * axis_energy (p - t) v.
Proof. unfold axis_energy, spec_axis. cbn [fst snd]. lra. Qed.

Lemma axis_energy_bound d v : d ^ 2 <= 40 * axis_energy d v.
Proof.
  unfold axis_energy.
  assert (H : 0 <= (d + 10 * v) ^ 2) by apply pow2_ge_0.
  nra.
Qed.

Lemma axis_energy_nonneg d v : 0 <= axis_energy d v.
Proof. pose proof (axis_energy_bound d v). pose proof (pow2_ge_0 d). lra. Qed.

Lemma centred_advance n s : centred s -> centred (advance n s).
Proof. intros H k. apply H. Qed.

(** One frame under zero jitter scales every particle's energy by 0.92. *)
Lemma physics_loop_energy targets base treble count bf s :
  centred s ->
  (count * 3 <= length targets)%nat ->
  (count * 3 <= length (positions bf))%nat ->
  (count * 3 <= length (vels bf))%nat ->
  returns (physics_loop targets base treble count bf) s (fun bf' s' =>
    centred s' /\
    length (positions bf') = length (positions bf) /\
    length (vels bf') = length (vels bf) /\
    forall i, (i < count)%nat ->
      energy targets bf' i = 0.92 * energy targets bf i).
Proof.
  intros Hc Ht Hp Hv.
  eapply returns_mono; [apply physics_loop_returns; assumption |].
  intros bf' s' (-> & Lp & Lv & _ & Hcells & _).
  split; [apply centred_advance, Hc |]. do 2 (split; [assumption |]).
  intros i Hi. unfold energy.
  destruct (Hcells (i * 3)%nat ltac:(lia)) as [P0 V0].
  destruct (Hcells (i * 3 + 1)%nat ltac:(lia)) as [P1 V1].
  destruct (Hcells (i * 3 + 2)%nat ltac:(lia)) as [P2 V2].
  rewrite (cell_lookup _ _ _ P0), (cell_lookup _ _ _ V0),
    (cell_lookup _ _ _ P1), (cell_lookup _ _ _ V1),
    (cell_lookup _ _ _ P2), (cell_lookup _ _ _ V2).
  unfold axis_after. rewrite !Hc, !axis_energy_step. lra.
Qed.

Lemma frames_energy targets base treble count n bf s :
  centred s ->
  (count * 3 <= length targets)%nat ->
  (count * 3 <= length (positions bf))%nat ->
  (count * 3 <= length (vels bf))%nat ->
  returns (frames targets base treble count n bf) s (fun bf' s' =>
    centred s' /\
    length (positions bf') = length (positions bf) /\
    length (vels bf') = length (vels bf) /\
    forall i, (i < count)%nat ->
      energy targets bf' i = 0.92 ^ n * energy targets bf i).
Proof.
  intros Hc Ht Hp Hv. unfold frames.
  apply (returns_for_loop
    (fun _ bf => physics_loop targets base treble count bf)
    (fun n bf' s' =>
       centred s' /\
       length (positions bf') = length (positions bf) /\
       length (vels bf') = length (vels bf) /\
       forall i, (i < count)%nat ->
         energy targets bf' i = 0.92 ^ n * energy targets bf i)).
  - split; [exact Hc |]. do 2 (split; [reflexivity |]).
    intros i _. simpl. lra.
  - intros m bm sm _ (Hcm & Lp & Lv & He).
    eapply returns_mono; [apply physics_loop_energy; [exact Hcm | lia ..] |].
    intros bf' s' (Hc' & Lp' & Lv' & He').
    split; [exact Hc' |]. do 2 (split; [congruence |]).
    intros i Hi. rewrite He', He by exact Hi. simpl. lra.
Qed.

Lemma distance_sq current target i :
  distance current target i ^ 2
  = (cell current (i * 3) - cell target (i * 3)) ^ 2
    + (cell current (i * 3 + 1) - cell target (i * 3 + 1)) ^ 2
    + (cell current (i * 3 + 2) - cell target (i * 3 + 2)) ^ 2.
Proof.
  unfold distance. apply pow2_sqrt.
  repeat apply Rplus_le_le_0_compat; apply pow2_ge_0.
Qed.

(** Start on the target with velocity (1, 0, 0) and zero jitter (every
    draw 0.5): the distance to the target is 0 before the first step and
    positive after it. *)
Lemma distance_grows_from_target :
  exists b0 s0 b1 s1,
    frames [0; 0; 0] (mkColor 0 0 0) 0 1 0
      (Buffers [0; 0; 0] [1; 0; 0] [0; 0; 0]) (Rng (fun _ => 0.5) 0)
    = Ok (b0, s0) /\
    frames [0; 0; 0] (mkColor 0 0 0) 0 1 1
      (Buffers [0; 0; 0] [1; 0; 0] [0; 0; 0]) (Rng (fun _ => 0.5) 0)
    = Ok (b1, s1) /\
    ~ distance (positions b1) [0; 0; 0] 0 <= distance (positions b0) [0; 0; 0] 0.
Proof.
  destruct (physics_loop_returns [0; 0; 0] (mkColor 0 0 0) 0 1
              (Buffers [0; 0; 0] [1; 0; 0] [0; 0; 0]) (Rng (fun _ => 0.5) 0))
    as (b1 & s1 & Hrun & _ & _ & _ & _ & Hcells & _); [simpl; lia .. |].
  eexists _, _, b1, s1. split; [reflexivity |].
  split; [exact Hrun |].
  cbn [positions].
  destruct (Hcells 0%nat ltac:(lia)) as [P0 _].
  destruct (Hcells 1%nat ltac:(lia)) as [P1 _].
  destruct (Hcells 2%nat ltac:(lia)) as [P2 _].
  unfold distance. cbn [Nat.mul Nat.add].
  rewrite (cell_lookup _ _ _ P0), (cell_lookup _ _ _ P1), (cell_lookup _ _ _ P2).
  unfold axis_after, spec_axis, cell. cbn.
  intros Hle.
  assert (H0 : sqrt ((0 - 0) * ((0 - 0) * 1) + (0 - 0) * ((0 - 0) * 1)
                     + (0 - 0) * ((0 - 0) * 1)) = 0).
  { transitivity (sqrt 0); [f_equal; lra | apply sqrt_0]. }
  rewrite H0 in Hle.
  match type of Hle with
  | sqrt ?x <= 0 => assert (Hpos : 0 < sqrt x) by (apply sqrt_lt_R0; lra)
  end.
  lra.
Qed.

Lemma axis_iter_S n target current velocity treble :
  axis_iter (S n) target current velocity treble
  = spec_axis target (fst (axis_iter n target current velocity treble))
      (snd (axis_iter n target current velocity treble)) 0.5 treble.
Proof. reflexivity. Qed.

(** An axis at rest on its target stays there. *)
Lemma axis_iter_rest n target treble :
  axis_iter n target target 0 treble = (target, 0).
Proof.
  induction n as [| n IH]; [reflexivity |].
  rewrite axis_iter_S, IH. unfold spec_axis. cbn [fst snd]. f_equal; lra.
Qed.

(** The cells after [n] frames without jitter. *)
Lemma frames_cells targets base treble count n bf s :
  centred s ->
  (count * 3 <= length targets)%nat ->
  (count * 3 <= length (positions bf))%nat ->
  (count * 3 <= length (vels bf))%nat ->
  returns (frames targets base treble count n bf) s (fun bf' s' =>
    centred s' /\
    length (positions bf') = length (positions bf) /\
    length (vels bf') = length (vels bf) /\
    forall j, (j < count * 3)%nat ->
      positions bf' !! j
        = Some (fst (axis_iter n (cell targets j) (cell (positions bf) j)
                       (cell (vels bf) j) treble)) /\
      vels bf' !! j
        = Some (snd (axis_iter n (cell targets j) (cell (positions bf) j)
                       (cell (vels bf) j) treble))).
Proof.
  intros Hc Ht Hp Hv. unfold frames.
  apply (returns_for_loop
    (fun _ bf => physics_loop targets base treble count bf)
    (fun n bf' s' =>
       centred s' /\
       length (positions bf') = length (positions bf) /\
       length (vels bf') = length (vels bf) /\
       forall j, (j < count * 3)%nat ->
         positions bf' !! j
           = Some (fst (axis_iter n (cell targets j) (cell (positions bf) j)
                          (cell (vels bf) j) treble)) /\
         vels bf' !! j
           = Some (snd (axis_iter n (cell targets j) (cell (positions bf) j)
                          (cell (vels bf) j) treble)))).
  - split; [exact Hc |]. do 2 (split; [reflexivity |]).
    intros j Hj. cbn [axis_iter fst snd].
    split; apply lookup_cell; lia.
  - intros m bm sm _ (Hcm & Lp & Lv & Hcells).
    eapply returns_mono; [apply physics_loop_returns; lia |].
    intros bf' s' (-> & Lp' & Lv' & _ & Hnew & _).
    split; [apply centred_advance, Hcm |]. do 2 (split; [congruence |]).
    intros j Hj. destruct (Hnew j Hj) as [Ep Ev].
    destruct (Hcells j Hj) as [Ep0 Ev0].
    rewrite Ep, Ev, axis_iter_S. unfold axis_after.
    rewrite (cell_lookup _ _ _ Ep0), (cell_lookup _ _ _ Ev0), Hcm. auto.
Qed.

(** The axis that starts at rest one unit from its target, step by step. *)
Lemma axis_overshoot :
  axis_iter 11 0 1 0 0
  = ((-0.04788611835694657695207913937418534860619776),
     (-0.10782506188029534255364237955776080066379776)) /\
  axis_iter 12 0 1 0 0
  = ((-0.145763518420166566577552744320597769595360641024),
     (-0.097877400063219989625473604946412420989162881024)).
Proof.
  assert (H0 : axis_iter 0 0 1 0 0 = (1, 0)) by reflexivity.
  assert (H1 : axis_iter 1 0 1 0 0
               = (0.9724,
                  (-0.0276))).
  { rewrite axis_iter_S, H0. unfold spec_axis. cbn [fst snd]. f_equal; lra. }
  assert (H2 : axis_iter 2 0 1 0 0
               = (0.92016976,
                  (-0.05223024))).
  { rewrite axis_iter_S, H1. unfold spec_axis. cbn [fst snd]. f_equal; lra. }
  assert (H3 : axis_iter 3 0 1 0 0
               = (0.846721253824,
                  (-0.073448506176))).
  { rewrite axis_iter_S, H2. unfold spec_axis. cbn [fst snd]. f_equal; lra. }
  assert (H4 : axis_iter 4 0 1 0 0
               = (0.7557791215365376,
                  (-0.0909421322874624))).
  { rewrite axis_iter_S, H3. unfold spec_axis. cbn [fst snd]. f_equal; lra. }
  assert (H5 : axis_iter 5 0 1 0 0
               = (0.65125285607766375424,
                  (-0.10452626545887384576))).
  { rewrite axis_iter_S, H4. unfold spec_axis. cbn [fst snd]. f_equal; lra. }
  assert (H6 : axis_iter 6 0 1 0 0
               = (0.537114113027756296523776,
                  (-0.114138743049907457716224))).
  { rewrite axis_iter_S, H5. unfold spec_axis. cbn [fst snd]. f_equal; lra. }
  assert (H7 : axis_iter 7 0 1 0 0
               = (0.4172821199022753616407937024,
                  (-0.1198319931254809348829822976))).
  { rewrite axis_iter_S, H6. unfold spec_axis. cbn [fst snd]. f_equal; lra. }
  assert (H8 : axis_iter 8 0 1 0 0
               = (0.29551969971753010156716408242176,
                  (-0.12176242018474526007362961997824))).
  { rewrite axis_iter_S, H7. unfold spec_axis. cbn [fst snd]. f_equal; lra. }
  assert (H9 : axis_iter 9 0 1 0 0
               = (0.175341929435360631496171103366938624,
                  (-0.120177770282169470070992979054821376))).
  { rewrite axis_iter_S, H8. unfold spec_axis. cbn [fst snd]. f_equal; lra. }
  assert (H10 : axis_iter 10 0 1 0 0
               = (0.0599389435233487656015632401835754520576,
                  (-0.1154029859120118658946078631833631719424))).
  { rewrite axis_iter_S, H9. unfold spec_axis. cbn [fst snd]. f_equal; lra. }
  assert (H11 : axis_iter 11 0 1 0 0
               = ((-0.04788611835694657695207913937418534860619776),
                  (-0.10782506188029534255364237955776080066379776))).
  { rewrite axis_iter_S, H10. unfold spec_axis. cbn [fst snd]. f_equal; lra. }
  assert (H12 : axis_iter 12 0 1 0 0
               = ((-0.145763518420166566577552744320597769595360641024),
                  (-0.097877400063219989625473604946412420989162881024))).
  { rewrite axis_iter_S, H11. unfold spec_axis. cbn [fst snd]. f_equal; lra. }
  split; assumption.
Qed.

(** C4, refuted as stated.  One particle starts at rest at distance 1
    from its constant target, with zero jitter (every draw 0.5).  After
    11 steps its distance to the target is below 0.05, after 12 steps it
    is above 0.14: the particle has passed through the target and the
    distance has grown. *)
Lemma distance_not_monotone :
  exists b11 s11 b12 s12,
    frames [0; 0; 0] (mkColor 0 0 0) 0 1 11
      (Buffers [1; 0; 0] [0; 0; 0] [0; 0; 0]) (Rng (fun _ => 0.5) 0)
    = Ok (b11, s11) /\
    frames [0; 0; 0] (mkColor 0 0 0) 0 1 12
      (Buffers [1; 0; 0] [0; 0; 0] [0; 0; 0]) (Rng (fun _ => 0.5) 0)
    = Ok (b12, s12) /\
    ~ distance (positions b12) [0; 0; 0] 0 <= distance (positions b11) [0; 0; 0] 0.
Proof.
  assert (Hc : centred (Rng (fun _ => 0.5) 0)) by (intros k; reflexivity).
  destruct (frames_cells [0; 0; 0] (mkColor 0 0 0) 0 1 11
              (Buffers [1; 0; 0] [0; 0; 0] [0; 0; 0]) (Rng (fun _ => 0.5) 0) Hc)
    as (b11 & s11 & Hrun11 & _ & _ & _ & Hcells11); [simpl; lia .. |].
  destruct (frames_cells [0; 0; 0] (mkColor 0 0 0) 0 1 12
              (Buffers [1; 0; 0] [0; 0; 0] [0; 0; 0]) (Rng (fun _ => 0.5) 0) Hc)
    as (b12 & s12 & Hrun12 & _ & _ & _ & Hcells12); [simpl; lia .. |].
  exists b11, s11, b12, s12. do 2 (split; [assumption |]).
  destruct axis_overshoot as [E11 E12].
  destruct (Hcells11 0%nat ltac:(lia)) as [A0 _].
  destruct (Hcells11 1%nat ltac:(lia)) as [A1 _].
  destruct (Hcells11 2%nat ltac:(lia)) as [A2 _].
  destruct (Hcells12 0%nat ltac:(lia)) as [B0 _].
  destruct (Hcells12 1%nat ltac:(lia)) as [B1 _].
  destruct (Hcells12 2%nat ltac:(lia)) as [B2 _].
  cbn [positions vels] in A0, A1, A2, B0, B1, B2.
  change (cell [0; 0; 0] 0) with 0 in *. change (cell [0; 0; 0] 1) with 0 in *.
  change (cell [0; 0; 0] 2) with 0 in *. change (cell [1; 0; 0] 0) with 1 in *.
  change (cell [1; 0; 0] 1) with 0 in *. change (cell [1; 0; 0] 2) with 0 in *.
  rewrite axis_iter_rest in A1, A2, B1, B2.
  rewrite E11 in A0. rewrite E12 in B0. cbn [fst] in A0, A1, A2, B0, B1, B2.
  unfold distance. cbn [Nat.mul Nat.add].
  rewrite (cell_lookup _ _ _ A0), (cell_lookup _ _ _ A1), (cell_lookup _ _ _ A2),
    (cell_lookup _ _ _ B0), (cell_lookup _ _ _ B1), (cell_lookup _ _ _ B2).
  change (cell [0; 0; 0] 0) with 0. change (cell [0; 0; 0] 1) with 0.
  change (cell [0; 0; 0] 2) with 0.
  intros Hle. apply sqrt_le_0 in Hle; nra.
Qed.

(** C4, as the code has it.  With a constant target and zero jitter the
    update is a damped oscillator: it contracts the quadratic energy
    [energy], not the Euclidean distance.  For every initial state and
    every [n], after [n] frames the energy of each particle is [0.92 ^ n]
    times its initial energy, and the squared distance from current to
    target is at most 40 times that energy, so current converges to the
    target although the distance may grow from one step to the next. *)
Theorem energy_contraction targets base treble count n bf s i :
  centred s ->
  (count * 3 <= length targets)%nat ->
  (count * 3 <= length (positions bf))%nat ->
  (count * 3 <= length (vels bf))%nat ->
  (i < count)%nat ->
  exists bf_n s_n,
    frames targets base treble count n bf s = Ok (bf_n, s_n) /\
    energy targets bf_n i = 0.92 ^ n * energy targets bf i /\
    0 <= energy targets bf_n i /\
    distance (positions bf_n) targets i ^ 2
      <= 40 * (0.92 ^ n * energy targets bf i).
Proof.
  intros Hc Ht Hp Hv Hi.
  destruct (frames_energy targets base treble count n bf s Hc Ht Hp Hv)
    as (bf_n & s_n & Hrun & _ & _ & _ & He).
  exists bf_n, s_n. split; [exact Hrun |].
  split; [apply He, Hi |].
  split.
  - unfold energy.
    apply Rplus_le_le_0_compat; [apply Rplus_le_le_0_compat |];
      apply axis_energy_nonneg.
  - rewrite <- (He i Hi), distance_sq. unfold energy.
    pose proof (axis_energy_bound
      (cell (positions bf_n) (i * 3) - cell targets (i * 3))
      (cell (vels bf_n) (i * 3))).
    pose proof (axis_energy_bound
      (cell (positions bf_n) (i * 3 + 1) - cell targets (i * 3 + 1))
      (cell (vels bf_n) (i * 3 + 1))).
    pose proof (axis_energy_bound
      (cell (positions bf_n) (i * 3 + 2) - cell targets (i * 3 + 2))
      (cell (vels bf_n) (i * 3 + 2))).
    lra.
Qed.

Lemma energy_contraction_witness :
  exists bf_n s_n,
    frames [0; 0; 0] (mkColor 0 0 0) 0 1 2
      (Buffers [1; 0; 0] [0; 0; 0] [0; 0; 0]) (Rng (fun _ => 0.5) 0)
    = Ok (bf_n, s_n) /\
    energy [0; 0; 0] bf_n 0
    = 0.92 ^ 2 * energy [0; 0; 0] (Buffers [1; 0; 0] [0; 0; 0] [0; 0; 0]) 0 /\
    0 <= energy [0; 0; 0] bf_n 0 /\
    distance (positions bf_n) [0; 0; 0] 0 ^ 2
      <= 40 * (0.92 ^ 2
               * energy [0; 0; 0] (Buffers [1; 0; 0] [0; 0; 0] [0; 0; 0]) 0).
Proof.
  apply (energy_contraction [0; 0; 0] (mkColor 0 0 0) 0 1 2
           (Buffers [1; 0; 0] [0; 0; 0] [0; 0; 0]) (Rng (fun _ => 0.5) 0) 0);
    [intros k; reflexivity | simpl; lia ..].
Defined.

(** ** C10: the heat factor and the colours written *)

Lemma heat_unit speed treble :
  0 <= speed -> 0 <= treble -> 0 <= heat speed treble <= 1.
Proof.
  intros Hs Ht. unfold heat. split.
  - apply Rmin_glb; lra.
  - apply Rmin_r.
Qed.

Lemma lerp_between x y t :
  0 <= t <= 1 -> Rmin x y <= lerp x y t <= Rmax x y.
Proof.
  intros Ht. unfold lerp, Rmin, Rmax.
  destruct (Rle_dec x y); nra.
Qed.

Lemma lerp_0 x y : lerp x y 0 = x.
Proof. unfold lerp. lra. Qed.

(** C10.  On every frame and for every particle [i], with treble >= 0,
    the heat factor [min(speed * 3.0 + treble * 0.5, 1)] computed from the
    updated velocity lies in [0, 1]; each colour channel written is the
    interpolation of the base and the hot channel by that factor and lies
    between the two; with treble = 0 and a zero updated velocity the
    colour written is the base colour exactly. *)
Theorem heat_colour_bounds targets base treble count bf s i k :
  0 <= treble ->
  (count * 3 <= length targets)%nat ->
  (count * 3 <= length (positions bf))%nat ->
  (count * 3 <= length (vels bf))%nat ->
  (count * 3 <= length (colors bf))%nat ->
  (i < count)%nat -> (k < 3)%nat ->
  exists bf' s' c,
    physics_loop targets base treble count bf s = Ok (bf', s') /\
    0 <= heat (speed (vels bf') i) treble <= 1 /\
    colors bf' !! (i * 3 + k)%nat = Some c /\
    c = (1 - heat (speed (vels bf') i) treble) * channel k base
        + heat (speed (vels bf') i) treble * channel k THREE_COLOR_HOT /\
    Rmin (channel k base) (channel k THREE_COLOR_HOT) <= c
      <= Rmax (channel k base) (channel k THREE_COLOR_HOT) /\
    (treble = 0 ->
     cell (vels bf') (i * 3) = 0 -> cell (vels bf') (i * 3 + 1) = 0 ->
     cell (vels bf') (i * 3 + 2) = 0 ->
     c = channel k base).
Proof.
  intros Htr Ht Hp Hv Hc Hi Hk.
  destruct (physics_loop_returns targets base treble count bf s Ht Hp Hv)
    as (bf' & s' & Hrun & _ & _ & _ & _ & Hcells & _ & Hcol).
  assert (Hspeed : speed_after targets bf s treble i = speed (vels bf') i).
  { unfold speed_after, speed.
    destruct (Hcells (i * 3)%nat ltac:(lia)) as [_ V0].
    destruct (Hcells (i * 3 + 1)%nat ltac:(lia)) as [_ V1].
    destruct (Hcells (i * 3 + 2)%nat ltac:(lia)) as [_ V2].
    rewrite (cell_lookup _ _ _ V0), (cell_lookup _ _ _ V1),
      (cell_lookup _ _ _ V2). reflexivity. }
  assert (Hheat : 0 <= heat (speed (vels bf') i) treble <= 1).
  { apply heat_unit; [apply sqrt_pos | exact Htr]. }
  exists bf', s', (lerp (channel k base) (channel k THREE_COLOR_HOT)
                     (heat (speed (vels bf') i) treble)).
  split; [exact Hrun |]. split; [exact Hheat |].
  split; [rewrite <- Hspeed; apply Hcol; [exact Hi | exact Hk | lia] |].
  split; [reflexivity |].
  split; [apply lerp_between, Hheat |].
  intros -> E0 E1 E2. unfold speed. rewrite E0, E1, E2.
  replace (0 ^ 2 + 0 ^ 2 + 0 ^ 2) with 0 by lra.
  rewrite sqrt_0. unfold heat.
  replace (0 * 3.0 + 0 * 0.5) with 0 by lra.
  rewrite Rmin_left by lra. apply lerp_0.
Qed.

Lemma heat_colour_bounds_witness :
  exists bf' s' c,
    physics_loop [0; 0; 0] (mkColor 0 0.5 1) 0 1
      (Buffers [0; 0; 0] [0; 0; 0] [0; 0; 0]) (Rng (fun _ => 0.5) 0)
    = Ok (bf', s') /\
    0 <= heat (speed (vels bf') 0) 0 <= 1 /\
    colors bf' !! (0 * 3 + 1)%nat = Some c /\
    c = (1 - heat (speed (vels bf') 0) 0) * channel 1 (mkColor 0 0.5 1)
        + heat (speed (vels bf') 0) 0 * channel 1 THREE_COLOR_HOT /\
    Rmin (channel 1 (mkColor 0 0.5 1)) (channel 1 THREE_COLOR_HOT) <= c
      <= Rmax (channel 1 (mkColor 0 0.5 1)) (channel 1 THREE_COLOR_HOT) /\
    (0 = 0 ->
     cell (vels bf') (0 * 3) = 0 -> cell (vels bf') (0 * 3 + 1) = 0 ->
     cell (vels bf') (0 * 3 + 2) = 0 ->
     c = channel 1 (mkColor 0 0.5 1)).
Proof.
  apply (heat_colour_bounds [0; 0; 0] (mkColor 0 0.5 1) 0 1
           (Buffers [0; 0; 0] [0; 0; 0] [0; 0; 0]) (Rng (fun _ => 0.5) 0) 0 1);
    [lra | simpl; lia ..].
Defined.

(** ** The pixel scan *)

Lemma fold_left_nil {A B} (f : list A -> B -> list A) (l : list B) :
  (forall y, f [] y = []) -> fold_left f l [] = [].
Proof.
  intros Hf. induction l as [| y l IH]; simpl; [reflexivity |].
  rewrite Hf. exact IH.
Qed.

(** An image without a byte above the threshold has no valid pixel. *)
Lemma scan_pixels_dark data :
  (forall k alpha, data !! k = Some alpha -> (alpha <= 128)%Z) ->
  scan_pixels data = [].
Proof.
  intros Hdark. unfold scan_pixels.
  apply fold_left_nil. intros y. apply fold_left_nil. intros x.
  destruct (data !! Z.to_nat ((y * size + x) * 4)) as [alpha |] eqn:E;
    [| reflexivity].
  apply Hdark in E. destruct (Z.ltb_spec 128 alpha); [lia | reflexivity].
Qed.

Lemma scan_pixels_nil : scan_pixels [] = [].
Proof. apply scan_pixels_dark. intros k alpha H. discriminate. Qed.

Lemma fold_left_fixed {A B} (f : A -> B -> A) (P : B -> Prop) l acc :
  (forall y, In y l -> P y) -> (forall y, P y -> f acc y = acc) ->
  fold_left f l acc = acc.
Proof.
  intros Hl Hf. induction l as [| y l IH]; simpl; [reflexivity |].
  rewrite Hf by (apply Hl; left; reflexivity).
  apply IH. intros z Hz. apply Hl. right. exact Hz.
Qed.

Lemma in_range_from (lo len : nat) (y : Z) :
  In y (map Z.of_nat (seq lo len)) -> (Z.of_nat lo <= y)%Z.
Proof.
  intros H. apply in_map_iff in H as (k & <- & Hk).
  apply in_seq in Hk. lia.
Qed.

Lemma scan_pixels_dark_image : scan_pixels dark_image = [].
Proof.
  apply scan_pixels_dark. intros k alpha H.
  apply lookup_replicate in H as [-> _]. lia.
Qed.

Lemma fold_left_cons {A B} (f : A -> B -> A) x l acc :
  fold_left f (x :: l) acc = fold_left f l (f acc x).
Proof. reflexivity. Qed.

(** An image whose first byte alone is bright has the single valid pixel
    (0, 0). *)
Lemma scan_pixels_dot data :
  data !! 0%nat = Some 255%Z ->
  (forall k alpha, data !! S k = Some alpha -> (alpha <= 128)%Z) ->
  scan_pixels data = [(0%Z, 0%Z)].
Proof.
  intros Hfirst Hrest.
  assert (Hoff : forall x y acc, (0 <= x)%Z -> (0 <= y)%Z -> (1 <= x + y)%Z ->
            match data !! Z.to_nat ((y * size + x) * 4) with
            | Some alpha => if (128 <? alpha)%Z then acc ++ [(x, y)] else acc
            | None => acc
            end = acc).
  { intros x y acc Hx Hy Hxy.
    destruct (Z.to_nat ((y * size + x) * 4)) as [| k] eqn:Ek;
      [unfold size in Ek; lia |].
    destruct (data !! S k) as [alpha |] eqn:E; [| reflexivity].
    apply Hrest in E. destruct (Z.ltb_spec 128 alpha); [lia | reflexivity]. }
  assert (Hrow : forall y acc l, (0 <= y)%Z ->
            (forall x, In x l -> (0 <= x)%Z /\ (1 <= x + y)%Z) ->
            fold_left (fun validPixels x =>
              match data !! Z.to_nat ((y * size + x) * 4) with
              | Some alpha => if (128 <? alpha)%Z then validPixels ++ [(x, y)]
                              else validPixels
              | None => validPixels
              end) l acc = acc).
  { intros y acc l Hy Hl. induction l as [| x l IH]; cbn [fold_left];
      [reflexivity |].
    destruct (Hl x (or_introl eq_refl)) as [Hx Hxy].
    rewrite Hoff by assumption. apply IH.
    intros z Hz. apply Hl. right. exact Hz. }
  assert (Hcols : map Z.of_nat (seq 0 (Z.to_nat size))
                  = 0%Z :: map Z.of_nat (seq 1 99)) by reflexivity.
  unfold scan_pixels. rewrite Hcols.
  rewrite fold_left_cons, fold_left_cons.
  replace (Z.to_nat ((0 * size + 0) * 4)) with 0%nat by reflexivity.
  rewrite Hfirst.
  replace (128 <? 255)%Z with true by reflexivity.
  rewrite Hrow; [| lia |].
  - apply (fold_left_fixed _ (fun y => 1 <= y)%Z).
    + intros y Hy. apply in_range_from in Hy. lia.
    + intros y Hy. rewrite fold_left_cons, Hoff by lia. apply Hrow; [lia |].
      intros x Hx. apply in_range_from in Hx. lia.
  - intros x Hx. apply in_range_from in Hx. lia.
Qed.

Lemma scan_pixels_dot_image : scan_pixels dot_image = [(0%Z, 0%Z)].
Proof.
  apply scan_pixels_dot; [reflexivity |].
  intros k alpha H. unfold dot_image in H. rewrite lookup_cons in H.
  apply lookup_replicate in H as [-> _]. lia.
Qed.

(** ** Sampling ends without a fault *)

Lemma uniform_ext s s' : draws s' = draws s -> uniform s -> uniform s'.
Proof. unfold uniform. intros ->. auto. Qed.

Lemma ratio_bounds x y : 0 <= x -> x < y -> 0 <= 2 * x / y <= 2.
Proof.
  intros Hx Hy.
  assert (Hi : 0 < / y) by (apply Rinv_0_lt_compat; lra).
  assert (E : y * / y = 1) by (apply Rinv_r; lra).
  unfold Rdiv. split; nra.
Qed.

Lemma index_below (i : nat) (pCount : Z) :
  (i < Z.to_nat pCount)%nat -> 0 <= INR i < IZR pCount.
Proof.
  intros H. rewrite INR_IZR_INZ. split.
  - apply IZR_le. lia.
  - apply IZR_lt. lia.
Qed.

Ltac use_uniform Hu :=
  repeat match goal with
         | |- context [draws ?s ?k] =>
             lazymatch goal with
             | _ : 0 <= draws s k < 1 |- _ => fail
             | _ => pose proof (Hu k)
             end
         end.

Ltac sample_step :=
  lazymatch goal with
  | |- returns (bind _ _) _ _ => apply returns_bind
  | |- returns Math_random _ _ => apply returns_random; cbn [draws cursor]
  | |- returns (js_div _ _) _ _ => apply returns_div
  | |- returns (Math_acos _) _ _ => apply returns_acos
  | |- returns (Math_sqrt _) _ _ => apply returns_sqrt
  | |- returns (ret _) _ _ => apply returns_ret
  end.

Lemma big_bang_point_returns radius s :
  uniform s ->
  returns (big_bang_point radius) s (fun _ s' => draws s' = draws s).
Proof.
  intros Hu. unfold big_bang_point. cbv zeta.
  repeat sample_step; [| reflexivity].
  use_uniform Hu. lra.
Qed.

(** The switch ends without a fault for every shape and every index of
    the loop. *)
Lemma shape_point_returns type pCount radius i s :
  uniform s -> (i < Z.to_nat pCount)%nat ->
  returns (shape_point type pCount radius i) s (fun _ s' => draws s' = draws s).
Proof.
  intros Hu Hi. pose proof (index_below i pCount Hi) as Hb.
  pose proof PI_RGT_0 as Hpi.
  destruct type; unfold shape_point; cbv zeta;
    try (apply big_bang_point_returns, Hu).
  - (* SPHERE *)
    repeat sample_step; try reflexivity; try lra.
    + pose proof (ratio_bounds (INR i) (IZR pCount)). lra.
    + nra.
  - (* CUBE *) repeat sample_step. reflexivity.
  - (* TORUS *) repeat sample_step. reflexivity.
  - (* GALAXY *) repeat sample_step; try reflexivity; lra.
  - (* DNA *) repeat sample_step; try reflexivity; lra.
  - (* SATURN *)
    destruct (Rlt_dec (INR i) (IZR pCount * 0.7)) as [Hlt | Hge].
    + repeat sample_step; try reflexivity; try lra.
      * pose proof (ratio_bounds (INR i) (IZR pCount * 0.7)). lra.
      * nra.
    + repeat sample_step; try reflexivity.
      use_uniform Hu. lra.
  - (* PYRAMID *)
    repeat sample_step.
    destruct (pyramid_fold _ _ _) as [[a' b'] c'].
    apply returns_ret. reflexivity.
Qed.

Lemma shape_particle_returns type pCount radius i positions s :
  uniform s -> (i < Z.to_nat pCount)%nat ->
  returns (shape_particle type pCount radius i positions) s
    (fun positions' s' =>
       draws s' = draws s /\ length positions' = length positions).
Proof.
  intros Hu Hi. unfold shape_particle. cbv zeta.
  apply returns_bind. eapply returns_mono.
  - apply shape_point_returns; assumption.
  - intros [[x y] z] s' Hs. apply returns_ret.
    unfold aset. rewrite !length_insert. auto.
Qed.

(** A draw scaled by a positive length and floored is a valid index. *)
Lemma floor_index u (len : nat) :
  0 <= u < 1 -> (0 < len)%nat ->
  (0 <= Zfloor (u * INR len))%Z /\ (Z.to_nat (Zfloor (u * INR len)) < len)%nat.
Proof.
  intros Hu Hlen.
  assert (Hl : 0 < INR len) by (apply lt_0_INR; lia).
  pose proof (Zfloor_bound (u * INR len)) as [Hlo Hhi].
  assert (H0 : (0 <= Zfloor (u * INR len))%Z).
  { apply Zfloor_lub. simpl. nra. }
  split; [exact H0 |].
  assert (H1 : (Zfloor (u * INR len) < Z.of_nat len)%Z).
  { apply lt_IZR. rewrite <- INR_IZR_INZ. nra. }
  lia.
Qed.

Lemma pick_pixel_returns (validPixels : list (Z * Z)) u s
    (Q : Z * Z -> rng -> Prop) :
  0 <= u < 1 -> (0 < length validPixels)%nat ->
  (forall pixel, pixel ∈ validPixels -> Q pixel s) ->
  returns (pick_pixel validPixels (Zfloor (u * INR (length validPixels)))) s Q.
Proof.
  intros Hu Hlen HQ.
  destruct (floor_index u (length validPixels) Hu Hlen) as [H0 H1].
  unfold pick_pixel.
  destruct (Z.ltb_spec (Zfloor (u * INR (length validPixels))) 0); [lia |].
  destruct (lookup_lt_is_Some_2 validPixels _ H1) as [pixel Hpx].
  rewrite Hpx. apply returns_ret, HQ.
  eapply list_elem_of_lookup_2, Hpx.
Qed.

Lemma text_particle_returns validPixels radius i positions s :
  uniform s -> (0 < length validPixels)%nat ->
  returns (text_particle validPixels radius i positions) s
    (fun positions' s' =>
       draws s' = draws s /\ length positions' = length positions).
Proof.
  intros Hu Hlen. unfold text_particle.
  apply returns_bind, returns_random. cbn [draws cursor].
  apply returns_bind, pick_pixel_returns; [apply Hu | exact Hlen |].
  intros pixel _. cbv zeta.
  apply returns_bind, returns_random. cbn [draws cursor].
  apply returns_ret. unfold aset. rewrite !length_insert. auto.
Qed.

(** A sampling loop keeps the length of the buffer it fills. *)
Lemma sampling_loop_returns (body : nat -> list R -> M (list R)) n positions s :
  uniform s ->
  (forall i positions' s', uniform s' -> (i < n)%nat ->
     returns (body i positions') s' (fun positions'' s'' =>
       draws s'' = draws s' /\ length positions'' = length positions')) ->
  returns (for_loop n body positions) s (fun positions' s' =>
    draws s' = draws s /\ length positions' = length positions).
Proof.
  intros Hu Hbody.
  apply (returns_for_loop body (fun _ positions' s' =>
           draws s' = draws s /\ length positions' = length positions)).
  - auto.
  - intros m positions' s' Hm [Hd Hl].
    eapply returns_mono.
    + apply Hbody; [exact (uniform_ext _ _ Hd Hu) | exact Hm].
    + intros positions'' s'' [Hd' Hl']. split; congruence.
Qed.

Lemma triple_length pCount : (0 <= pCount)%Z ->
  Z.to_nat (pCount * 3) = (Z.to_nat pCount * 3)%nat.
Proof. intros H. lia. Qed.

Lemma generateTextPositions_returns canvas text pCount radius s :
  uniform s -> (0 <= pCount)%Z ->
  returns (generateTextPositions canvas text pCount radius) s
    (fun positions s' =>
       draws s' = draws s /\ length positions = (Z.to_nat pCount * 3)%nat).
Proof.
  intros Hu Hn. unfold generateTextPositions.
  destruct canvas as [raster |].
  - cbv zeta. apply returns_bind, returns_new; [lia |].
    destruct (decide (length (scan_pixels (raster text)) = 0%nat)) as [E | NE].
    + apply returns_ret. rewrite length_replicate, triple_length; auto.
    + eapply returns_mono.
      * apply sampling_loop_returns; [exact Hu |].
        intros i positions' s' Hu' _. apply text_particle_returns; [exact Hu' | lia].
      * intros positions' s' [Hd Hl].
        rewrite Hl, length_replicate, triple_length; auto.
  - apply returns_new; [lia |].
    rewrite length_replicate, triple_length; auto.
Qed.

(** [generateTargetPositions] ends without a fault, on every formation
    and for every count that is not negative, with a buffer of three
    numbers per particle. *)
Lemma generateTargetPositions_returns canvas charIndex numIndex type pCount
    radius s :
  uniform s -> (0 <= pCount)%Z ->
  returns (generateTargetPositions canvas charIndex numIndex type pCount radius) s
    (fun positions s' =>
       draws s' = draws s /\ length positions = (Z.to_nat pCount * 3)%nat).
Proof.
  intros Hu Hn.
  assert (Hloop : returns
            (let! positions := Float32Array_new (pCount * 3) in
             for_loop (Z.to_nat pCount) (shape_particle type pCount radius)
               positions) s
            (fun positions s' =>
               draws s' = draws s /\ length positions = (Z.to_nat pCount * 3)%nat)).
  { apply returns_bind, returns_new; [lia |].
    eapply returns_mono.
    - apply sampling_loop_returns; [exact Hu |].
      intros i positions' s' Hu' Hi. apply shape_particle_returns; assumption.
    - intros positions' s' [Hd Hl].
      rewrite Hl, length_replicate, triple_length; auto. }
  unfold generateTargetPositions.
  destruct type; try exact Hloop;
    apply generateTextPositions_returns; assumption.
Qed.

(** ** C5: every formation yields count finite triples *)

(** C5.  For every formation, the glyph formations included, and every
    count >= 0, with the generator in [0, 1), sampling ends without a
    fault: no NaN or infinity arises and nothing is thrown, and the
    result holds exactly count triples of (real, hence finite) numbers;
    for count = 0 it is empty. *)
Theorem sample_count_finite canvas charIndex numIndex type pCount radius s :
  uniform s -> (0 <= pCount)%Z ->
  exists (positions : list R) s',
    generateTargetPositions canvas charIndex numIndex type pCount radius s
      = Ok (positions, s') /\
    length positions = (Z.to_nat pCount * 3)%nat /\
    (pCount = 0%Z -> positions = []).
Proof.
  intros Hu Hn.
  destruct (generateTargetPositions_returns canvas charIndex numIndex type
              pCount radius s Hu Hn) as (positions & s' & Hrun & _ & Hlen).
  exists positions, s'. split; [exact Hrun |]. split; [exact Hlen |].
  intros ->. apply nil_length_inv. rewrite Hlen. reflexivity.
Qed.

Lemma sample_count_finite_witness :
  exists (positions : list R) s',
    generateTargetPositions None 0 0 SATURN 4 10 (Rng (fun _ => 0.5) 0)
      = Ok (positions, s') /\
    length positions = (Z.to_nat 4 * 3)%nat /\
    (4%Z = 0%Z -> positions = []).
Proof.
  apply (sample_count_finite None 0 0 SATURN 4 10 (Rng (fun _ => 0.5) 0));
    [intros k; simpl; lra | lia].
Defined.

(** ** C9: glyphs without foreground pixels *)

(** A glyph formation without a context, or whose glyph has no bright
    pixel, yields the zero array and draws nothing. *)
Lemma generateTargetPositions_blank canvas charIndex numIndex type pCount
    radius s :
  type = TEXT \/ type = NUMBER ->
  (0 <= pCount)%Z ->
  (canvas = None \/
   exists raster, canvas = Some raster /\
     scan_pixels (raster (glyph_text charIndex numIndex type)) = []) ->
  generateTargetPositions canvas charIndex numIndex type pCount radius s
  = Ok (replicate (Z.to_nat pCount * 3) 0, s).
Proof.
  intros Htype Hn Hcanvas.
  assert (Hnew : Float32Array_new (pCount * 3) s
                 = Ok (replicate (Z.to_nat pCount * 3) 0, s)).
  { unfold Float32Array_new, ret.
    destruct (Z.ltb_spec (pCount * 3) 0); [lia |].
    rewrite triple_length by exact Hn. reflexivity. }
  assert (Htext : generateTextPositions canvas
                    (glyph_text charIndex numIndex type) pCount radius s
                  = Ok (replicate (Z.to_nat pCount * 3) 0, s)).
  { unfold generateTextPositions.
    destruct Hcanvas as [-> | (raster & -> & Hscan)]; [exact Hnew |].
    cbv zeta. unfold bind. rewrite Hnew, Hscan. reflexivity. }
  destruct Htype as [-> | ->]; exact Htext.
Qed.

(** C9.  For the glyph-text and glyph-digit formations, when the drawing
    context is unavailable or the rasterised glyph has no pixel above the
    threshold, sampling returns the all-zero array of count triples and
    raises nothing; no random value is drawn. *)
Theorem glyph_degenerate canvas charIndex numIndex type pCount radius s :
  type = TEXT \/ type = NUMBER ->
  (0 <= pCount)%Z ->
  (canvas = None \/
   exists raster, canvas = Some raster /\
     scan_pixels (raster (glyph_text charIndex numIndex type)) = []) ->
  exists positions,
    generateTargetPositions canvas charIndex numIndex type pCount radius s
      = Ok (positions, s) /\
    length positions = (Z.to_nat pCount * 3)%nat /\
    Forall (fun x => x = 0) positions.
Proof.
  intros Htype Hn Hcanvas.
  exists (replicate (Z.to_nat pCount * 3) 0).
  split; [apply generateTargetPositions_blank; assumption |].
  split; [apply length_replicate |].
  apply Forall_replicate. reflexivity.
Qed.

Lemma glyph_degenerate_witness :
  exists positions,
    generateTargetPositions
      (Some (fun _ => dark_image))
      0 5 NUMBER 2 10 (Rng (fun _ => 0.5) 0)
      = Ok (positions, Rng (fun _ => 0.5) 0) /\
    length positions = (Z.to_nat 2 * 3)%nat /\
    Forall (fun x => x = 0) positions.
Proof.
  apply (glyph_degenerate
           (Some (fun _ => dark_image))
           0 5 NUMBER 2 10 (Rng (fun _ => 0.5) 0));
    [right; reflexivity | lia |].
  right. exists (fun _ => dark_image).
  split; [reflexivity | exact scan_pixels_dark_image].
Defined.

(** ** C6: retargeting *)

(** C6.  The shape update effect, run on a formation, character or digit
    change, installs a freshly sampled target of count triples and leaves
    the current positions, the velocities and the colour array exactly as
    they were. *)
Theorem retarget_frame canvas p rf s :
  uniform s -> (0 <= particleCount p)%Z ->
  exists rf' target s',
    shape_update_effect canvas p rf s = Ok (rf', s') /\
    sample canvas p (shape p) s = Ok (target, s') /\
    length target = (Z.to_nat (particleCount p) * 3)%nat /\
    targetPositionsRef rf' = Some target /\
    currentPositionsRef rf' = currentPositionsRef rf /\
    velocitiesRef rf' = velocitiesRef rf /\
    pointsRef rf' = pointsRef rf.
Proof.
  intros Hu Hn.
  destruct (generateTargetPositions_returns canvas (charIndex p) (numIndex p)
              (shape p) (particleCount p) default_radius s Hu Hn)
    as (target & s' & Hrun & _ & Hlen).
  eexists _, target, s'.
  split; [unfold shape_update_effect, bind, sample; rewrite Hrun; reflexivity |].
  split; [exact Hrun |]. split; [exact Hlen |].
  cbn. auto.
Qed.

Lemma retarget_frame_witness :
  exists rf' target s',
    shape_update_effect None (mkProps CUBE (mkColor 0 0 0) 1 0 0)
      (mkRefs (Some [0; 0; 0]) (Some [1; 2; 3]) (Some [4; 5; 6]) None)
      (Rng (fun _ => 0.5) 0) = Ok (rf', s') /\
    sample None (mkProps CUBE (mkColor 0 0 0) 1 0 0) CUBE
      (Rng (fun _ => 0.5) 0) = Ok (target, s') /\
    length target = (Z.to_nat 1 * 3)%nat /\
    targetPositionsRef rf' = Some target /\
    currentPositionsRef rf' = Some [1; 2; 3] /\
    velocitiesRef rf' = Some [4; 5; 6] /\
    pointsRef rf' = None.
Proof.
  apply (retarget_frame None (mkProps CUBE (mkColor 0 0 0) 1 0 0)
           (mkRefs (Some [0; 0; 0]) (Some [1; 2; 3]) (Some [4; 5; 6]) None)
           (Rng (fun _ => 0.5) 0));
    [intros k; simpl; lra | simpl; lia].
Defined.

(** ** C7: resizing *)

(** The colour array of a fresh geometry: the base colour per particle. *)
Lemma core_geometry_returns p s :
  (0 <= particleCount p)%Z ->
  returns (core_geometry p) s (fun colors s' =>
    s' = s /\
    length colors = (Z.to_nat (particleCount p) * 3)%nat /\
    forall i k, (i < Z.to_nat (particleCount p))%nat -> (k < 3)%nat ->
      colors !! (i * 3 + k)%nat = Some (channel k (threeColorBase p))).
Proof.
  intros Hn. unfold core_geometry. cbv zeta.
  apply returns_bind, returns_new; [lia |].
  set (n := Z.to_nat (particleCount p)).
  assert (Hle : (n <= n)%nat) by lia. revert Hle.
  generalize n at 1 3 5 as m. intros m Hm.
  eapply returns_mono.
  - apply (returns_for_loop _ (fun m colors s' =>
             s' = s /\ length colors = (n * 3)%nat /\
             forall i k, (i < m)%nat -> (k < 3)%nat ->
               colors !! (i * 3 + k)%nat = Some (channel k (threeColorBase p)))).
    + split; [reflexivity |].
      split; [rewrite length_replicate; subst n; apply triple_length, Hn |].
      intros i k Hi. lia.
    + intros j colors s' Hj (-> & Hl & Hc). apply returns_ret.
      unfold aset. rewrite !length_insert.
      do 2 (split; [auto |]).
      intros i k Hi Hk. destruct (decide (i < j)%nat) as [Hlt | Hge].
      * rewrite !list_lookup_insert_ne by lia. apply Hc; assumption.
      * assert (i = j) by lia. subst i.
        assert (Hk3 : k = 0%nat \/ k = 1%nat \/ k = 2%nat) by lia.
        destruct Hk3 as [-> | [-> | ->]]; rewrite ?Nat.add_0_r;
          repeat first
            [ rewrite list_lookup_insert_ne by lia
            | rewrite list_lookup_insert_eq by (rewrite ?length_insert; lia) ];
          reflexivity.
  - cbv beta. intros colors s' H. exact H.
Qed.

(** What a change of the particle count runs, step by step. *)
Lemma resize_runs canvas p rf s :
  uniform s -> (0 <= particleCount p)%Z ->
  exists current s1 target0 s2 colors target s',
    sample canvas p BIG_BANG s = Ok (current, s1) /\
    sample canvas p (shape p) s1 = Ok (target0, s2) /\
    sample canvas p (shape p) s2 = Ok (target, s') /\
    resize canvas p rf s
    = Ok (mkRefs (Some target) (Some current)
            (Some (replicate (Z.to_nat (particleCount p) * 3) 0))
            (Some colors), s') /\
    length current = (Z.to_nat (particleCount p) * 3)%nat /\
    length target = (Z.to_nat (particleCount p) * 3)%nat /\
    length colors = (Z.to_nat (particleCount p) * 3)%nat /\
    forall i k, (i < Z.to_nat (particleCount p))%nat -> (k < 3)%nat ->
      colors !! (i * 3 + k)%nat = Some (channel k (threeColorBase p)).
Proof.
  intros Hu Hn.
  destruct (generateTargetPositions_returns canvas (charIndex p) (numIndex p)
              BIG_BANG (particleCount p) default_radius s Hu Hn)
    as (current & s1 & Hcur & Hd1 & Lcur).
  pose proof (uniform_ext _ _ Hd1 Hu) as Hu1.
  destruct (generateTargetPositions_returns canvas (charIndex p) (numIndex p)
              (shape p) (particleCount p) default_radius s1 Hu1 Hn)
    as (target0 & s2 & Htar0 & Hd2 & _).
  pose proof (uniform_ext _ _ Hd2 Hu1) as Hu2.
  destruct (core_geometry_returns p s2 Hn)
    as (colors & s2' & Hgeo & -> & Lcol & Hcol).
  destruct (generateTargetPositions_returns canvas (charIndex p) (numIndex p)
              (shape p) (particleCount p) default_radius s2 Hu2 Hn)
    as (target & s' & Htar & _ & Ltar).
  exists current, s1, target0, s2, colors, target, s'.
  do 3 (split; [assumption |]).
  split; [| auto].
  assert (Hvel : Float32Array_new (particleCount p * 3) s1
                 = Ok (replicate (Z.to_nat (particleCount p) * 3) 0, s1)).
  { unfold Float32Array_new, ret.
    destruct (Z.ltb_spec (particleCount p * 3) 0); [lia |].
    rewrite triple_length by exact Hn. reflexivity. }
  unfold resize, initialization, shape_update_effect, bind, sample in *.
  cbv zeta. rewrite Hcur, Hvel, Htar0. unfold ret at 1.
  rewrite Hgeo. cbn [targetPositionsRef currentPositionsRef velocitiesRef
    pointsRef]. rewrite Htar. reflexivity.
Qed.

(** The third coordinate of a one-particle explosion drawn with 0. *)
Lemma big_bang_origin s :
  draws s = (fun _ => 0) ->
  returns (generateTargetPositions None 0 0 BIG_BANG 1 10) s
    (fun current _ => current !! 2%nat = Some 0).
Proof.
  intros Hd. unfold generateTargetPositions.
  apply returns_bind, returns_new; [lia |].
  change (Z.to_nat (1 * 3)) with 3%nat. change (Z.to_nat 1) with 1%nat.
  cbn [for_loop replicate]. apply returns_bind, returns_ret.
  unfold shape_particle, shape_point, big_bang_point. cbv zeta.
  repeat sample_step.
  - rewrite Hd. lra.
  - rewrite Hd. unfold aset. cbn. f_equal. lra.
Qed.

(** The third coordinate of a one-particle sphere of radius 10. *)
Lemma sphere_south_pole s :
  returns (generateTargetPositions None 0 0 SPHERE 1 10) s
    (fun target _ => target !! 2%nat = Some (-10)).
Proof.
  unfold generateTargetPositions.
  apply returns_bind, returns_new; [lia |].
  change (Z.to_nat (1 * 3)) with 3%nat. change (Z.to_nat 1) with 1%nat.
  cbn [for_loop replicate]. apply returns_bind, returns_ret.
  unfold shape_particle, shape_point. cbv zeta.
  pose proof PI_RGT_0.
  repeat sample_step; cbn [INR]; try lra.
  unfold aset. cbn. f_equal. rewrite cos_acos by lra. lra.
Qed.

(** C7, refuted as stated.  With the sphere active, a resize to one
    particle under a generator that returns 0 leaves in current a point
    whose third coordinate is 0, while every sample of the active
    formation has third coordinate -10: current is not recomputed from
    the active formation. *)
Lemma resize_current_not_from_shape :
  exists rf' s' current,
    resize None (mkProps SPHERE (mkColor 0 0 0) 1 0 0)
      (mkRefs None None None None) (Rng (fun _ => 0) 0) = Ok (rf', s') /\
    currentPositionsRef rf' = Some current /\
    forall s1 target s1',
      sample None (mkProps SPHERE (mkColor 0 0 0) 1 0 0) SPHERE s1
        = Ok (target, s1') ->
      current <> target.
Proof.
  destruct (resize_runs None (mkProps SPHERE (mkColor 0 0 0) 1 0 0)
              (mkRefs None None None None) (Rng (fun _ => 0) 0))
    as (current & s1 & target0 & s2 & colors & target & s' & Hcur & _ & _
        & Hrun & _); [intros k; simpl; lra | simpl; lia |].
  eexists _, s', current. split; [exact Hrun |]. split; [reflexivity |].
  intros t1 target1 t1' Hsample E. subst target1.
  pose proof (returns_inv _ _ _ _ _ (big_bang_origin (Rng (fun _ => 0) 0) eq_refl)
                Hcur) as H0.
  pose proof (returns_inv _ _ _ _ _ (sphere_south_pole t1) Hsample) as H1.
  cbv beta in H0, H1. rewrite H0 in H1. injection H1 as H1. lra.
Qed.

(** C7, as the code has it.  A change of the particle count reallocates
    the four core sequences with count triples each, resets every
    velocity component to zero, fills the colours with the base colour,
    recomputes target from the active formation and recomputes current
    from the explosion formation, whatever the active formation is;
    nothing of the old buffers is carried over. *)
Theorem resize_hard_reset canvas p rf s :
  uniform s -> (0 <= particleCount p)%Z ->
  exists current s1 target s2 colors s',
    resize canvas p rf s
    = Ok (mkRefs (Some target) (Some current)
            (Some (replicate (Z.to_nat (particleCount p) * 3) 0))
            (Some colors), s') /\
    sample canvas p BIG_BANG s = Ok (current, s1) /\
    sample canvas p (shape p) s2 = Ok (target, s') /\
    length current = (Z.to_nat (particleCount p) * 3)%nat /\
    length target = (Z.to_nat (particleCount p) * 3)%nat /\
    length colors = (Z.to_nat (particleCount p) * 3)%nat /\
    forall i k, (i < Z.to_nat (particleCount p))%nat -> (k < 3)%nat ->
      colors !! (i * 3 + k)%nat = Some (channel k (threeColorBase p)).
Proof.
  intros Hu Hn.
  destruct (resize_runs canvas p rf s Hu Hn)
    as (current & s1 & target0 & s2 & colors & target & s' & Hcur & _ & Htar
        & Hrun & Hrest).
  exists current, s1, target, s2, colors, s'. auto.
Qed.

Lemma resize_hard_reset_witness :
  exists current s1 target s2 colors s',
    resize None (mkProps TORUS (mkColor 0 0.5 1) 2 0 0)
      (mkRefs None None None None) (Rng (fun _ => 0.5) 0)
    = Ok (mkRefs (Some target) (Some current)
            (Some (replicate (Z.to_nat 2 * 3) 0)) (Some colors), s') /\
    sample None (mkProps TORUS (mkColor 0 0.5 1) 2 0 0) BIG_BANG
      (Rng (fun _ => 0.5) 0) = Ok (current, s1) /\
    sample None (mkProps TORUS (mkColor 0 0.5 1) 2 0 0) TORUS s2
      = Ok (target, s') /\
    length current = (Z.to_nat 2 * 3)%nat /\
    length target = (Z.to_nat 2 * 3)%nat /\
    length colors = (Z.to_nat 2 * 3)%nat /\
    forall i k, (i < Z.to_nat 2)%nat -> (k < 3)%nat ->
      colors !! (i * 3 + k)%nat = Some (channel k (mkColor 0 0.5 1)).
Proof.
  apply (resize_hard_reset None (mkProps TORUS (mkColor 0 0.5 1) 2 0 0)
           (mkRefs None None None None) (Rng (fun _ => 0.5) 0));
    [intros k; simpl; lra | simpl; lia].
Defined.

(** ** C8: configuration values are not clamped *)

Lemma letter_command_range char cmd :
  letter_command char = Some cmd ->
  exists c rest index,
    char = c :: rest /\ index = (c - 65)%Z /\ (0 <= index <= 25)%Z /\
    cmd = (SET_CHAR, String_of_number index).
Proof.
  unfold letter_command. destruct char as [| c rest]; [discriminate |].
  cbv zeta.
  destruct ((0 <=? c - 65)%Z && (c - 65 <=? 25)%Z) eqn:E; [| discriminate].
  intros [= <-]. exists c, rest, (c - 65)%Z.
  apply andb_prop in E as [E1 E2].
  repeat split; lia.
Qed.

Lemma number_command_range valStr cmd :
  number_command valStr = Some cmd ->
  exists n, (0 <= n <= 9)%Z /\ cmd = (SET_NUM, String_of_number n).
Proof.
  unfold number_command.
  destruct (match parseInt valStr, NUMBER_WORD_MAP !! valStr with
            | None, Some n => Some n
            | _, _ => parseInt valStr
            end) as [n |]; [| discriminate].
  destruct ((0 <=? n)%Z && (n <=? 9)%Z) eqn:E; [| discriminate].
  intros [= <-]. exists n.
  apply andb_prop in E as [E1 E2]. split; [lia | reflexivity].
Qed.

Lemma letter_command_dropped c rest :
  ~ (65 <= c <= 90)%Z -> letter_command (c :: rest) = None.
Proof.
  intros H. unfold letter_command. cbv zeta.
  destruct ((0 <=? c - 65)%Z && (c - 65 <=? 25)%Z) eqn:E; [| reflexivity].
  apply andb_prop in E as [E1 E2]. lia.
Qed.

Lemma number_command_dropped valStr n :
  parseInt valStr = Some n -> ~ (0 <= n <= 9)%Z ->
  number_command valStr = None.
Proof.
  intros Hp Hn. unfold number_command. rewrite Hp.
  destruct ((0 <=? n)%Z && (n <=? 9)%Z) eqn:E; [| reflexivity].
  apply andb_prop in E as [E1 E2]. lia.
Qed.

(** A negative count makes the allocation throw, on every formation. *)
Lemma generateTargetPositions_negative canvas charIndex numIndex type pCount
    radius s :
  (pCount < 0)%Z ->
  generateTargetPositions canvas charIndex numIndex type pCount radius s
  = Raise RangeError.
Proof.
  intros Hn.
  assert (Hnew : Float32Array_new (pCount * 3) s = Raise RangeError).
  { unfold Float32Array_new, raise.
    destruct (Z.ltb_spec (pCount * 3) 0); [reflexivity | lia]. }
  unfold generateTargetPositions, generateTextPositions.
  destruct type, canvas; cbv zeta; unfold bind; rewrite ?Hnew; reflexivity.
Qed.

(** A zero count yields the empty buffer, on every formation. *)
Lemma generateTargetPositions_zero canvas charIndex numIndex type radius s :
  generateTargetPositions canvas charIndex numIndex type 0 radius s
  = Ok ([], s).
Proof.
  unfold generateTargetPositions, generateTextPositions.
  destruct type, canvas; cbv zeta; unfold bind; cbn;
    try reflexivity;
    match goal with
    | |- context [decide ?P] => destruct (decide P); reflexivity
    end.
Qed.

(** On the canvas that lights one pixel for [lit], the glyph formation
    whose text is [lit] samples that pixel. *)
Lemma lit_glyph_sample (lit : js_string) charIndex numIndex type s :
  type = TEXT \/ type = NUMBER ->
  glyph_text charIndex numIndex type = lit ->
  uniform s ->
  returns (generateTargetPositions (dot_canvas lit) charIndex numIndex type
             1 10) s
    (fun positions _ => positions !! 0%nat = Some (-7.5)).
Proof.
  intros Htype Hlit Hu.
  assert (Hgen : generateTargetPositions (dot_canvas lit) charIndex numIndex
                   type 1 10
                 = generateTextPositions (dot_canvas lit)
                     (glyph_text charIndex numIndex type) 1 10).
  { destruct Htype as [-> | ->]; reflexivity. }
  rewrite Hgen, Hlit. unfold generateTextPositions, dot_canvas. cbv zeta.
  destruct (decide (lit = lit)) as [_ | NE]; [| contradiction].
  rewrite scan_pixels_dot_image.
  apply returns_bind, returns_new; [lia |].
  change (Z.to_nat (1 * 3)) with 3%nat. change (Z.to_nat 1) with 1%nat.
  destruct (decide (length [(0%Z, 0%Z)] = 0%nat)) as [E | _]; [discriminate |].
  cbn [for_loop replicate]. apply returns_bind, returns_ret.
  unfold text_particle.
  apply returns_bind, returns_random. cbn [draws cursor].
  apply returns_bind, pick_pixel_returns; [apply Hu | simpl; lia |].
  intros pixel Hpx. apply list_elem_of_singleton in Hpx. subst pixel.
  cbv zeta. apply returns_bind, returns_random. cbn [draws cursor].
  apply returns_ret. unfold aset, size. cbn. f_equal. lra.
Qed.

(** C8, refuted as stated.  Nothing is clamped on the way to the sampler:
    a particle count of -1 makes sampling fail with a RangeError; on a
    canvas where only the letter Z lights a pixel, charIndex = 26 does not
    sample what charIndex = 25 samples; on a canvas where only the digit 9
    lights a pixel, numIndex = 10 does not sample what numIndex = 9
    samples. *)
Lemma no_clamping :
  generateTargetPositions None 0 0 SPHERE (-1) 10 (Rng (fun _ => 0) 0)
    = Raise RangeError /\
  generateTargetPositions (dot_canvas (units "Z")) 26 0 TEXT 1 10
    (Rng (fun _ => 0) 0)
  <> generateTargetPositions (dot_canvas (units "Z")) 25 0 TEXT 1 10
       (Rng (fun _ => 0) 0) /\
  generateTargetPositions (dot_canvas (units "9")) 0 10 NUMBER 1 10
    (Rng (fun _ => 0) 0)
  <> generateTargetPositions (dot_canvas (units "9")) 0 9 NUMBER 1 10
       (Rng (fun _ => 0) 0).
Proof.
  assert (Hu : uniform (Rng (fun _ => 0) 0)) by (intros k; simpl; lra).
  split; [apply generateTargetPositions_negative; lia |].
  split.
  - rewrite generateTargetPositions_blank;
      [| left; reflexivity | lia
       | right; eexists; split; [reflexivity | exact scan_pixels_dark_image]].
    destruct (lit_glyph_sample (units "Z") 25 0 TEXT (Rng (fun _ => 0) 0))
      as (positions & s' & Hrun & Hx); [left; reflexivity | reflexivity | exact Hu |].
    rewrite Hrun. intros [= <- _]. cbn in Hx. injection Hx as Hx. lra.
  - rewrite generateTargetPositions_blank;
      [| right; reflexivity | lia
       | right; eexists; split; [reflexivity | exact scan_pixels_dark_image]].
    destruct (lit_glyph_sample (units "9") 0 9 NUMBER (Rng (fun _ => 0) 0))
      as (positions & s' & Hrun & Hx); [right; reflexivity | reflexivity | exact Hu |].
    rewrite Hrun. intros [= <- _]. cbn in Hx. injection Hx as Hx. lra.
Qed.

(** C8, as the code has it.  Out-of-range values are dropped at the voice
    service, not clamped: a letter command is emitted only with an index
    in [0, 25] and a number command only with a value in [0, 9], and a
    letter or number outside the range emits nothing.  The sampler uses
    the configuration as given: the glyph is the character of code
    65 + charIndex, so charIndex = 0 selects 'A' and charIndex = 25
    selects 'Z', or the decimal numeral of numIndex; a particle count of 0
    yields empty buffers and a negative one fails with a RangeError. *)
Theorem configuration_passthrough :
  (forall char cmd, letter_command char = Some cmd ->
     exists index, (0 <= index <= 25)%Z /\
                   cmd = (SET_CHAR, String_of_number index)) /\
  (forall c rest, ~ (65 <= c <= 90)%Z -> letter_command (c :: rest) = None) /\
  (forall valStr cmd, number_command valStr = Some cmd ->
     exists n, (0 <= n <= 9)%Z /\ cmd = (SET_NUM, String_of_number n)) /\
  (forall valStr n, parseInt valStr = Some n -> ~ (0 <= n <= 9)%Z ->
     number_command valStr = None) /\
  (forall canvas charIndex numIndex pCount radius,
     generateTargetPositions canvas charIndex numIndex TEXT pCount radius
     = generateTextPositions canvas (String_fromCharCode (65 + charIndex))
         pCount radius /\
     generateTargetPositions canvas charIndex numIndex NUMBER pCount radius
     = generateTextPositions canvas (String_of_number numIndex)
         pCount radius) /\
  String_fromCharCode (65 + 0) = units "A" /\
  String_fromCharCode (65 + 25) = units "Z" /\
  (forall canvas charIndex numIndex type radius s,
     generateTargetPositions canvas charIndex numIndex type 0 radius s
     = Ok ([], s)) /\
  (forall canvas charIndex numIndex type pCount radius s,
     (pCount < 0)%Z ->
     generateTargetPositions canvas charIndex numIndex type pCount radius s
     = Raise RangeError).
Proof.
  split.
  { intros char cmd H.
    destruct (letter_command_range char cmd H) as (c & rest & index & _ & _ & Hr & E).
    exists index. auto. }
  split; [exact letter_command_dropped |].
  split; [exact number_command_range |].
  split; [exact number_command_dropped |].
  split; [intros; split; reflexivity |].
  split; [reflexivity |]. split; [reflexivity |].
  split; [exact generateTargetPositions_zero |].
  exact generateTargetPositions_negative.
Qed.

Lemma configuration_passthrough_witness :
  (exists index, (0 <= index <= 25)%Z /\
     (SET_CHAR, String_of_number 25) = (SET_CHAR, String_of_number index)) /\
  letter_command (units "[") = None /\
  (exists n, (0 <= n <= 9)%Z /\
     (SET_NUM, String_of_number 5) = (SET_NUM, String_of_number n)) /\
  number_command (units "12") = None /\
  generateTargetPositions None 0 0 CUBE (-1) 10 (Rng (fun _ => 0.5) 0)
  = Raise RangeError.
Proof.
  destruct configuration_passthrough
    as (Hletter & Hdrop & Hnumber & Hdropn & _ & _ & _ & _ & Hneg).
  split; [apply (Hletter (units "Z")); reflexivity |].
  split; [apply (Hdrop 91%Z []); lia |].
  split; [apply (Hnumber (units "FIVE")); reflexivity |].
  split; [apply (Hdropn (units "12") 12%Z); [reflexivity | lia] |].
  apply Hneg. lia.
Defined.

(** * Further properties of the modelled code *)

(** ** Where the sampled points lie *)

Lemma cell_insert_eq (l : list R) j v :
  (j < length l)%nat -> cell (<[j := v]> l) j = v.
Proof. intros H. apply cell_lookup, list_lookup_insert_eq, H. Qed.

Lemma cell_insert_ne (l : list R) j j' v :
  j <> j' -> cell (<[j := v]> l) j' = cell l j'.
Proof. intros H. apply cell_ext, list_lookup_insert_ne, H. Qed.

(** A loop that stores one point per round: every stored point keeps the
    property its round established. *)
Lemma point_loop_returns (body : nat -> M (R * R * R))
    (P : nat -> R * R * R -> Prop) (Inv : rng -> Prop) n positions s :
  Inv s -> (n * 3 <= length positions)%nat ->
  (forall i s', Inv s' -> (i < n)%nat ->
     returns (body i) s' (fun xyz s'' => Inv s'' /\ P i xyz)) ->
  returns (for_loop n (fun i positions =>
             let! xyz := body i in
             let '(x, y, z) := xyz in
             ret (aset (aset (aset positions (i * 3) x) (i * 3 + 1) y)
                    (i * 3 + 2) z)) positions) s
    (fun positions' s' =>
       Inv s' /\ length positions' = length positions /\
       forall i, (i < n)%nat -> P i (point positions' i)).
Proof.
  intros Hs Hlen Hbody.
  assert (Hn : (n <= n)%nat) by lia. revert Hn.
  generalize n at 1 3 4 as m. intros m Hm.
  apply (returns_for_loop _ (fun m positions' s' =>
           Inv s' /\ length positions' = length positions /\
           forall i, (i < m)%nat -> P i (point positions' i))).
  - split; [exact Hs |]. split; [reflexivity |]. intros i Hi. lia.
  - intros j positions' s' Hj (HI & Hl & Hpts).
    apply returns_bind. eapply returns_mono; [apply Hbody; [exact HI | lia] |].
    intros [[x y] z] s'' [HI' HP]. apply returns_ret.
    unfold aset. split; [exact HI' |].
    split; [rewrite !length_insert; exact Hl |].
    intros i Hi. unfold point.
    destruct (decide (i < j)%nat) as [Hlt | Hge].
    + rewrite !cell_insert_ne by lia. apply Hpts, Hlt.
    + assert (i = j) by lia. subst i.
      rewrite cell_insert_ne, cell_insert_ne, cell_insert_eq by lia.
      rewrite (cell_insert_ne _ (j * 3 + 2)), cell_insert_eq
        by (rewrite ?length_insert; lia).
      rewrite cell_insert_eq by (rewrite ?length_insert; lia).
      exact HP.
Qed.

(** The same for [generateTargetPositions] on a formation that is not a
    glyph. *)
Lemma shape_sample_points canvas charIndex numIndex type pCount radius
    (P : nat -> R * R * R -> Prop) (Inv : rng -> Prop) s :
  type <> TEXT -> type <> NUMBER ->
  Inv s -> (0 <= pCount)%Z ->
  (forall i s', Inv s' -> (i < Z.to_nat pCount)%nat ->
     returns (shape_point type pCount radius i) s'
       (fun xyz s'' => Inv s'' /\ P i xyz)) ->
  returns (generateTargetPositions canvas charIndex numIndex type pCount radius) s
    (fun positions s' =>
       Inv s' /\ length positions = (Z.to_nat pCount * 3)%nat /\
       forall i, (i < Z.to_nat pCount)%nat -> P i (point positions i)).
Proof.
  intros HT HN Hs Hn Hbody.
  assert (Hloop : returns
            (let! positions := Float32Array_new (pCount * 3) in
             for_loop (Z.to_nat pCount) (shape_particle type pCount radius)
               positions) s
            (fun positions s' =>
               Inv s' /\ length positions = (Z.to_nat pCount * 3)%nat /\
               forall i, (i < Z.to_nat pCount)%nat -> P i (point positions i))).
  { apply returns_bind, returns_new; [lia |].
    eapply returns_mono.
    - apply (point_loop_returns (shape_point type pCount radius) P Inv);
        [exact Hs | rewrite length_replicate; lia | exact Hbody].
    - cbv beta. intros positions s' (HI & Hl & Hp).
      rewrite Hl, length_replicate, triple_length; auto. }
  unfold generateTargetPositions. destruct type; try exact Hloop; contradiction.
Qed.

Lemma spherical_norm r theta phi :
  (r * cos theta * sin phi) ^ 2 + (r * sin theta * sin phi) ^ 2
  + (r * cos phi) ^ 2 = r ^ 2.
Proof.
  pose proof (sin2_cos2 theta) as Ht. pose proof (sin2_cos2 phi) as Hp.
  unfold Rsqr in Ht, Hp.
  replace ((r * cos theta * sin phi) ^ 2 + (r * sin theta * sin phi) ^ 2
           + (r * cos phi) ^ 2)
    with (r ^ 2 * (sin phi * sin phi * (sin theta * sin theta + cos theta * cos theta)
                   + cos phi * cos phi)) by ring.
  rewrite Ht, Rmult_1_r, Hp. ring.
Qed.

Lemma sphere_point_returns pCount radius i s :
  (i < Z.to_nat pCount)%nat ->
  returns (shape_point SPHERE pCount radius i) s
    (fun xyz s' => s' = s /\ norm2 xyz = radius ^ 2).
Proof.
  intros Hi. pose proof (index_below i pCount Hi) as Hb.
  pose proof PI_RGT_0 as Hpi.
  unfold shape_point. cbv zeta.
  repeat sample_step; try lra.
  - pose proof (ratio_bounds (INR i) (IZR pCount)). lra.
  - nra.
  - split; [reflexivity |]. unfold norm2. apply spherical_norm.
Qed.

(** X1.  The sphere formation puts every particle at distance exactly
    radius from the origin, and draws no random value. *)
Theorem sphere_on_sphere canvas charIndex numIndex pCount radius s :
  (0 <= pCount)%Z ->
  exists positions,
    generateTargetPositions canvas charIndex numIndex SPHERE pCount radius s
      = Ok (positions, s) /\
    length positions = (Z.to_nat pCount * 3)%nat /\
    forall i, (i < Z.to_nat pCount)%nat ->
      norm2 (point positions i) = radius ^ 2.
Proof.
  intros Hn.
  destruct (shape_sample_points canvas charIndex numIndex SPHERE pCount radius
              (fun _ xyz => norm2 xyz = radius ^ 2) (fun s' => s' = s) s)
    as (positions & s' & Hrun & -> & Hlen & Hp);
    [discriminate | discriminate | reflexivity | exact Hn | |].
  - intros i s' -> Hi. apply sphere_point_returns, Hi.
  - exists positions. auto.
Qed.

Lemma sphere_on_sphere_witness :
  exists positions,
    generateTargetPositions None 0 0 SPHERE 4000 12 (Rng (fun _ => 0.5) 0)
      = Ok (positions, Rng (fun _ => 0.5) 0) /\
    length positions = (Z.to_nat 4000 * 3)%nat /\
    forall i, (i < Z.to_nat 4000)%nat ->
      norm2 (point positions i) = 12 ^ 2.
Proof.
  apply (sphere_on_sphere None 0 0 4000 12 (Rng (fun _ => 0.5) 0)). lia.
Defined.

Lemma cube_point_returns pCount radius i s :
  uniform s -> 0 <= radius ->
  returns (shape_point CUBE pCount radius i) s
    (fun xyz s' => uniform s' /\
       let '(x, y, z) := xyz in
       - (0.75 * radius) <= x <= 0.75 * radius /\
       - (0.75 * radius) <= y <= 0.75 * radius /\
       - (0.75 * radius) <= z <= 0.75 * radius).
Proof.
  intros Hu Hr. unfold shape_point. cbv zeta.
  repeat sample_step. split; [exact Hu |].
  use_uniform Hu. repeat split; nra.
Qed.

(** X2.  The cube formation keeps every coordinate of every particle
    within 0.75 * radius of the origin. *)
Theorem cube_in_box canvas charIndex numIndex pCount radius s :
  uniform s -> (0 <= pCount)%Z -> 0 <= radius ->
  exists positions s',
    generateTargetPositions canvas charIndex numIndex CUBE pCount radius s
      = Ok (positions, s') /\
    forall i, (i < Z.to_nat pCount)%nat ->
      let '(x, y, z) := point positions i in
      - (0.75 * radius) <= x <= 0.75 * radius /\
      - (0.75 * radius) <= y <= 0.75 * radius /\
      - (0.75 * radius) <= z <= 0.75 * radius.
Proof.
  intros Hu Hn Hr.
  destruct (shape_sample_points canvas charIndex numIndex CUBE pCount radius
              (fun _ xyz => let '(x, y, z) := xyz in
                 - (0.75 * radius) <= x <= 0.75 * radius /\
                 - (0.75 * radius) <= y <= 0.75 * radius /\
                 - (0.75 * radius) <= z <= 0.75 * radius) uniform s)
    as (positions & s' & Hrun & _ & _ & Hp);
    [discriminate | discriminate | exact Hu | exact Hn | |].
  - intros i s' Hu' Hi. apply cube_point_returns; assumption.
  - exists positions, s'. auto.
Qed.

Lemma cube_in_box_witness :
  exists positions s',
    generateTargetPositions None 0 0 CUBE 3 10 (Rng (fun _ => 0.25) 0)
      = Ok (positions, s') /\
    forall i, (i < Z.to_nat 3)%nat ->
      let '(x, y, z) := point positions i in
      - (0.75 * 10) <= x <= 0.75 * 10 /\
      - (0.75 * 10) <= y <= 0.75 * 10 /\
      - (0.75 * 10) <= z <= 0.75 * 10.
Proof.
  apply (cube_in_box None 0 0 3 10 (Rng (fun _ => 0.25) 0));
    [intros k; simpl; lra | lia | lra].
Defined.

Lemma torus_norm R0 t u v :
  ((R0 + t * cos v) * cos u) ^ 2 + ((R0 + t * cos v) * sin u) ^ 2
  + (t * sin v) ^ 2
  = R0 ^ 2 + 2 * R0 * t * cos v + t ^ 2.
Proof.
  pose proof (sin2_cos2 u) as Hu. pose proof (sin2_cos2 v) as Hv.
  unfold Rsqr in Hu, Hv.
  replace (((R0 + t * cos v) * cos u) ^ 2 + ((R0 + t * cos v) * sin u) ^ 2
           + (t * sin v) ^ 2)
    with ((R0 + t * cos v) ^ 2 * (sin u * sin u + cos u * cos u)
          + t ^ 2 * (sin v * sin v)) by ring.
  rewrite Hu.
  replace (sin v * sin v) with (1 - cos v * cos v) by lra. ring.
Qed.

Lemma torus_point_returns pCount radius i s :
  uniform s -> 0 <= radius ->
  returns (shape_point TORUS pCount radius i) s
    (fun xyz s' => uniform s' /\
       (0.7 * radius) ^ 2 <= norm2 xyz <= (1.3 * radius) ^ 2 /\
       - (0.3 * radius) <= snd xyz <= 0.3 * radius).
Proof.
  intros Hu Hr. unfold shape_point. cbv zeta.
  repeat sample_step. split; [exact Hu |].
  unfold norm2. cbn [snd]. rewrite torus_norm.
  match goal with
  | |- context [cos ?v] =>
      pose proof (COS_bound v) as Hc; pose proof (SIN_bound v) as Hs;
      generalize dependent (cos v); generalize dependent (sin v)
  end.
  intros sv Hs cv Hc.
  assert (0 <= radius ^ 2 * (1 + cv)) by (apply Rmult_le_pos; nra).
  assert (0 <= radius ^ 2 * (1 - cv)) by (apply Rmult_le_pos; nra).
  assert (0 <= radius * (1 + sv)) by (apply Rmult_le_pos; lra).
  assert (0 <= radius * (1 - sv)) by (apply Rmult_le_pos; lra).
  repeat split; first [lra | nra].
Qed.

(** X3.  The torus formation keeps every particle between 0.7 * radius
    and 1.3 * radius from the origin and within 0.3 * radius of the plane
    z = 0. *)
Theorem torus_in_shell canvas charIndex numIndex pCount radius s :
  uniform s -> (0 <= pCount)%Z -> 0 <= radius ->
  exists positions s',
    generateTargetPositions canvas charIndex numIndex TORUS pCount radius s
      = Ok (positions, s') /\
    forall i, (i < Z.to_nat pCount)%nat ->
      (0.7 * radius) ^ 2 <= norm2 (point positions i) <= (1.3 * radius) ^ 2 /\
      - (0.3 * radius) <= snd (point positions i) <= 0.3 * radius.
Proof.
  intros Hu Hn Hr.
  destruct (shape_sample_points canvas charIndex numIndex TORUS pCount radius
              (fun _ xyz =>
                 (0.7 * radius) ^ 2 <= norm2 xyz <= (1.3 * radius) ^ 2 /\
                 - (0.3 * radius) <= snd xyz <= 0.3 * radius) uniform s)
    as (positions & s' & Hrun & _ & _ & Hp);
    [discriminate | discriminate | exact Hu | exact Hn | |].
  - intros i s' Hu' Hi. apply torus_point_returns; assumption.
  - exists positions, s'. auto.
Qed.

Lemma torus_in_shell_witness :
  exists positions s',
    generateTargetPositions None 0 0 TORUS 3 10 (Rng (fun _ => 0.25) 0)
      = Ok (positions, s') /\
    forall i, (i < Z.to_nat 3)%nat ->
      (0.7 * 10) ^ 2 <= norm2 (point positions i) <= (1.3 * 10) ^ 2 /\
      - (0.3 * 10) <= snd (point positions i) <= 0.3 * 10.
Proof.
  apply (torus_in_shell None 0 0 3 10 (Rng (fun _ => 0.25) 0));
    [intros k; simpl; lra | lia | lra].
Defined.

Lemma big_bang_point_in_ball radius s :
  uniform s -> 0 <= radius ->
  returns (big_bang_point radius) s
    (fun xyz s' => uniform s' /\ norm2 xyz <= (2 * radius) ^ 2).
Proof.
  intros Hu Hr. unfold big_bang_point. cbv zeta.
  repeat sample_step.
  - use_uniform Hu. lra.
  - split; [exact Hu |]. unfold norm2.
    match goal with
    | |- (?r * sin ?phi * cos ?theta) ^ 2 + _ + _ <= _ =>
        replace ((r * sin phi * cos theta) ^ 2 + (r * sin phi * sin theta) ^ 2
                 + (r * cos phi) ^ 2)
          with ((r * cos theta * sin phi) ^ 2 + (r * sin theta * sin phi) ^ 2
                + (r * cos phi) ^ 2) by ring;
        rewrite spherical_norm
    end.
    pose proof (Hu (cursor s)) as H0.
    assert (H1 : 0 <= draws s (cursor s) * radius <= radius) by nra.
    nra.
Qed.

(** X4.  The explosion formation, which is also where a resize puts the
    current positions, keeps every particle within 2 * radius of the
    origin. *)
Theorem big_bang_in_ball canvas charIndex numIndex pCount radius s :
  uniform s -> (0 <= pCount)%Z -> 0 <= radius ->
  exists positions s',
    generateTargetPositions canvas charIndex numIndex BIG_BANG pCount radius s
      = Ok (positions, s') /\
    forall i, (i < Z.to_nat pCount)%nat ->
      norm2 (point positions i) <= (2 * radius) ^ 2.
Proof.
  intros Hu Hn Hr.
  destruct (shape_sample_points canvas charIndex numIndex BIG_BANG pCount radius
              (fun _ xyz => norm2 xyz <= (2 * radius) ^ 2) uniform s)
    as (positions & s' & Hrun & _ & _ & Hp);
    [discriminate | discriminate | exact Hu | exact Hn | |].
  - intros i s' Hu' Hi. apply big_bang_point_in_ball; assumption.
  - exists positions, s'. auto.
Qed.

Lemma big_bang_in_ball_witness :
  exists positions s',
    generateTargetPositions None 0 0 BIG_BANG 3 10 (Rng (fun _ => 0.25) 0)
      = Ok (positions, s') /\
    forall i, (i < Z.to_nat 3)%nat ->
      norm2 (point positions i) <= (2 * 10) ^ 2.
Proof.
  apply (big_bang_in_ball None 0 0 3 10 (Rng (fun _ => 0.25) 0));
    [intros k; simpl; lra | lia | lra].
Defined.

Lemma circle_norm r theta : (r * cos theta) ^ 2 + (r * sin theta) ^ 2 = r ^ 2.
Proof.
  pose proof (sin2_cos2 theta) as H. unfold Rsqr in H.
  replace ((r * cos theta) ^ 2 + (r * sin theta) ^ 2)
    with (r ^ 2 * (sin theta * sin theta + cos theta * cos theta)) by ring.
  rewrite H. ring.
Qed.

Lemma sqrt_unit u : 0 <= u < 1 -> 0 <= sqrt u <= 1.
Proof.
  intros [H0 H1]. split; [apply sqrt_pos |].
  rewrite <- sqrt_1. apply sqrt_le_1_alt. lra.
Qed.

Lemma saturn_point_returns pCount radius i s :
  uniform s -> 0 <= radius -> (i < Z.to_nat pCount)%nat ->
  returns (shape_point SATURN pCount radius i) s
    (fun xyz s' => uniform s' /\
       (INR i < IZR pCount * 0.7 -> norm2 xyz = (0.6 * radius) ^ 2) /\
       (~ INR i < IZR pCount * 0.7 ->
        let '(x, y, z) := xyz in
        -0.1 <= y <= 0.1 /\
        (0.8 * radius) ^ 2 <= x ^ 2 + z ^ 2 <= (1.5 * radius) ^ 2)).
Proof.
  intros Hu Hr Hi. pose proof (index_below i pCount Hi) as Hb.
  pose proof PI_RGT_0 as Hpi.
  unfold shape_point.
  destruct (Rlt_dec (INR i) (IZR pCount * 0.7)) as [Hlt | Hge]; cbv zeta.
  - repeat sample_step; try lra.
    + pose proof (ratio_bounds (INR i) (IZR pCount * 0.7)). lra.
    + nra.
    + split; [exact Hu |]. split; [| intros; contradiction].
      intros _. unfold norm2. rewrite spherical_norm. ring.
  - repeat sample_step.
    + use_uniform Hu. lra.
    + split; [exact Hu |]. split; [intros; contradiction |].
      intros _. rewrite circle_norm.
      pose proof (Hu (S (S (cursor s)))) as Hy.
      pose proof (sqrt_unit _ (Hu (S (cursor s)))) as Hq.
      set (q := sqrt (draws s (S (cursor s)))) in *.
      assert (0 <= q * radius <= radius) by nra.
      split; [lra | split; nra].
Qed.

(** X5.  In the ringed-sphere formation the particles whose index is
    below 0.7 * count lie on the sphere of radius 0.6 * radius; the others
    lie in a flat ring: height within 0.1 of the plane and distance from
    the axis between 0.8 * radius and 1.5 * radius. *)
Theorem saturn_ball_and_ring canvas charIndex numIndex pCount radius s :
  uniform s -> (0 <= pCount)%Z -> 0 <= radius ->
  exists positions s',
    generateTargetPositions canvas charIndex numIndex SATURN pCount radius s
      = Ok (positions, s') /\
    forall i, (i < Z.to_nat pCount)%nat ->
      (INR i < IZR pCount * 0.7 ->
       norm2 (point positions i) = (0.6 * radius) ^ 2) /\
      (~ INR i < IZR pCount * 0.7 ->
       let '(x, y, z) := point positions i in
       -0.1 <= y <= 0.1 /\
       (0.8 * radius) ^ 2 <= x ^ 2 + z ^ 2 <= (1.5 * radius) ^ 2).
Proof.
  intros Hu Hn Hr.
  destruct (shape_sample_points canvas charIndex numIndex SATURN pCount radius
              (fun i xyz =>
                 (INR i < IZR pCount * 0.7 -> norm2 xyz = (0.6 * radius) ^ 2) /\
                 (~ INR i < IZR pCount * 0.7 ->
                  let '(x, y, z) := xyz in
                  -0.1 <= y <= 0.1 /\
                  (0.8 * radius) ^ 2 <= x ^ 2 + z ^ 2 <= (1.5 * radius) ^ 2))
              uniform s)
    as (positions & s' & Hrun & _ & _ & Hp);
    [discriminate | discriminate | exact Hu | exact Hn | |].
  - intros i s' Hu' Hi. apply saturn_point_returns; assumption.
  - exists positions, s'. auto.
Qed.

Lemma saturn_ball_and_ring_witness :
  exists positions s',
    generateTargetPositions None 0 0 SATURN 10 10 (Rng (fun _ => 0.25) 0)
      = Ok (positions, s') /\
    forall i, (i < Z.to_nat 10)%nat ->
      (INR i < IZR 10 * 0.7 ->
       norm2 (point positions i) = (0.6 * 10) ^ 2) /\
      (~ INR i < IZR 10 * 0.7 ->
       let '(x, y, z) := point positions i in
       -0.1 <= y <= 0.1 /\
       (0.8 * 10) ^ 2 <= x ^ 2 + z ^ 2 <= (1.5 * 10) ^ 2).
Proof.
  apply (saturn_ball_and_ring None 0 0 10 10 (Rng (fun _ => 0.25) 0));
    [intros k; simpl; lra | lia | lra].
Defined.

Lemma galaxy_point_returns pCount radius i s :
  uniform s -> 0 <= radius -> (i < Z.to_nat pCount)%nat ->
  returns (shape_point GALAXY pCount radius i) s
    (fun xyz s' => uniform s' /\
       let '(x, y, z) := xyz in
       let arm := INR i / IZR pCount * radius in
       - (0.1 * arm) <= y <= 0.1 * arm /\
       exists off, - (0.1 * radius) <= off <= 0.1 * radius /\
                   (x - off) ^ 2 + (z - off) ^ 2 = arm ^ 2).
Proof.
  intros Hu Hr Hi. pose proof (index_below i pCount Hi) as Hb.
  unfold shape_point. cbv zeta.
  repeat sample_step; try lra.
  split; [exact Hu |].
  pose proof (Hu (cursor s)) as H0. pose proof (Hu (S (cursor s))) as H1.
  assert (Hq : 0 <= INR i / IZR pCount).
  { apply Rmult_le_pos; [lra |]. left. apply Rinv_0_lt_compat. lra. }
  assert (Harm : 0 <= INR i / IZR pCount * radius) by (apply Rmult_le_pos; lra).
  split; [split; nra |].
  exists ((draws s (cursor s) - 0.5) * (radius * 0.2)).
  split; [split; nra |].
  rewrite <- (circle_norm (INR i / IZR pCount * radius)
                (INR i / IZR pCount * 3 * PI * 2)).
  ring.
Qed.

(** X6.  In the galaxy formation particle i lies on a circle of radius
    (i / count) * radius around the vertical axis, displaced by one
    offset of at most 0.1 * radius that is the same along x and z, at a
    height within a tenth of that circle's radius: the arms grow from the
    centre with the index and the disc is thinnest at the centre. *)
Theorem galaxy_spiral canvas charIndex numIndex pCount radius s :
  uniform s -> (0 <= pCount)%Z -> 0 <= radius ->
  exists positions s',
    generateTargetPositions canvas charIndex numIndex GALAXY pCount radius s
      = Ok (positions, s') /\
    forall i, (i < Z.to_nat pCount)%nat ->
      let '(x, y, z) := point positions i in
      let arm := INR i / IZR pCount * radius in
      - (0.1 * arm) <= y <= 0.1 * arm /\
      exists off, - (0.1 * radius) <= off <= 0.1 * radius /\
                  (x - off) ^ 2 + (z - off) ^ 2 = arm ^ 2.
Proof.
  intros Hu Hn Hr.
  destruct (shape_sample_points canvas charIndex numIndex GALAXY pCount radius
              (fun i xyz =>
                 let '(x, y, z) := xyz in
                 let arm := INR i / IZR pCount * radius in
                 - (0.1 * arm) <= y <= 0.1 * arm /\
                 exists off, - (0.1 * radius) <= off <= 0.1 * radius /\
                             (x - off) ^ 2 + (z - off) ^ 2 = arm ^ 2)
              uniform s)
    as (positions & s' & Hrun & _ & _ & Hp);
    [discriminate | discriminate | exact Hu | exact Hn | |].
  - intros i s' Hu' Hi. apply galaxy_point_returns; assumption.
  - exists positions, s'. auto.
Qed.

Lemma galaxy_spiral_witness :
  exists positions s',
    generateTargetPositions None 0 0 GALAXY 3 10 (Rng (fun _ => 0.25) 0)
      = Ok (positions, s') /\
    forall i, (i < Z.to_nat 3)%nat ->
      let '(x, y, z) := point positions i in
      let arm := INR i / IZR 3 * 10 in
      - (0.1 * arm) <= y <= 0.1 * arm /\
      exists off, - (0.1 * 10) <= off <= 0.1 * 10 /\
                  (x - off) ^ 2 + (z - off) ^ 2 = arm ^ 2.
Proof.
  apply (galaxy_spiral None 0 0 3 10 (Rng (fun _ => 0.25) 0));
    [intros k; simpl; lra | lia | lra].
Defined.

Lemma dna_point_returns pCount radius i s :
  uniform s -> 0 <= radius -> (i < Z.to_nat pCount)%nat ->
  returns (shape_point DNA pCount radius i) s
    (fun xyz s' => uniform s' /\
       let '(x, y, z) := xyz in
       y = INR i / IZR pCount * radius * 2.5 - radius * 1.25 /\
       - (1.25 * radius) <= y <= 1.25 * radius /\
       exists jx jz, -0.5 <= jx <= 0.5 /\ -0.5 <= jz <= 0.5 /\
                     (x - jx) ^ 2 + (z - jz) ^ 2 = (0.5 * radius) ^ 2).
Proof.
  intros Hu Hr Hi. pose proof (index_below i pCount Hi) as Hb.
  unfold shape_point. cbv zeta.
  repeat sample_step; try lra.
  split; [exact Hu |].
  pose proof (Hu (cursor s)) as H0. pose proof (Hu (S (cursor s))) as H1.
  assert (Hq : 0 <= INR i / IZR pCount <= 1).
  { assert (Hi' : 0 < / IZR pCount) by (apply Rinv_0_lt_compat; lra).
    assert (E : IZR pCount * / IZR pCount = 1) by (apply Rinv_r; lra).
    unfold Rdiv. split; nra. }
  split; [reflexivity |]. split; [split; nra |].
  exists (draws s (cursor s) - 0.5), (draws s (S (cursor s)) - 0.5).
  split; [lra |]. split; [lra |].
  match goal with
  | |- context [cos ?t] => rewrite <- (circle_norm (0.5 * radius) t)
  end.
  ring.
Qed.

(** X7.  In the helix formation the height of particle i is
    (i / count) * 2.5 * radius - 1.25 * radius, so the strand climbs with
    the index from -1.25 * radius up, and the particle lies on the
    cylinder of radius 0.5 * radius up to a jitter of at most 0.5 in x and
    in z. *)
Theorem dna_helix canvas charIndex numIndex pCount radius s :
  uniform s -> (0 <= pCount)%Z -> 0 <= radius ->
  exists positions s',
    generateTargetPositions canvas charIndex numIndex DNA pCount radius s
      = Ok (positions, s') /\
    forall i, (i < Z.to_nat pCount)%nat ->
      let '(x, y, z) := point positions i in
      y = INR i / IZR pCount * radius * 2.5 - radius * 1.25 /\
      - (1.25 * radius) <= y <= 1.25 * radius /\
      exists jx jz, -0.5 <= jx <= 0.5 /\ -0.5 <= jz <= 0.5 /\
                    (x - jx) ^ 2 + (z - jz) ^ 2 = (0.5 * radius) ^ 2.
Proof.
  intros Hu Hn Hr.
  destruct (shape_sample_points canvas charIndex numIndex DNA pCount radius
              (fun i xyz =>
                 let '(x, y, z) := xyz in
                 y = INR i / IZR pCount * radius * 2.5 - radius * 1.25 /\
                 - (1.25 * radius) <= y <= 1.25 * radius /\
                 exists jx jz, -0.5 <= jx <= 0.5 /\ -0.5 <= jz <= 0.5 /\
                               (x - jx) ^ 2 + (z - jz) ^ 2 = (0.5 * radius) ^ 2)
              uniform s)
    as (positions & s' & Hrun & _ & _ & Hp);
    [discriminate | discriminate | exact Hu | exact Hn | |].
  - intros i s' Hu' Hi. apply dna_point_returns; assumption.
  - exists positions, s'. auto.
Qed.

Lemma dna_helix_witness :
  exists positions s',
    generateTargetPositions None 0 0 DNA 4 10 (Rng (fun _ => 0.25) 0)
      = Ok (positions, s') /\
    forall i, (i < Z.to_nat 4)%nat ->
      let '(x, y, z) := point positions i in
      y = INR i / IZR 4 * 10 * 2.5 - 10 * 1.25 /\
      - (1.25 * 10) <= y <= 1.25 * 10 /\
      exists jx jz, -0.5 <= jx <= 0.5 /\ -0.5 <= jz <= 0.5 /\
                    (x - jx) ^ 2 + (z - jz) ^ 2 = (0.5 * 10) ^ 2.
Proof.
  apply (dna_helix None 0 0 4 10 (Rng (fun _ => 0.25) 0));
    [intros k; simpl; lra | lia | lra].
Defined.





(** ** The pixel scan and the glyph slab *)

Lemma scan_row_elem (data : list Z) y (l : list Z) acc p :
  p ∈ fold_left (fun validPixels x =>
        match data !! Z.to_nat ((y * size + x) * 4) with
        | Some alpha => if (128 <? alpha)%Z then validPixels ++ [(x, y)]
                        else validPixels
        | None => validPixels
        end) l acc
  <-> p ∈ acc \/
      exists x alpha, x ∈ l /\ p = (x, y) /\
        data !! Z.to_nat ((y * size + x) * 4) = Some alpha /\ (128 < alpha)%Z.
Proof.
  revert acc. induction l as [| x l IH]; intros acc; cbn [fold_left].
  - split; [auto |]. intros [H | (x & alpha & Hx & _)]; [exact H |].
    apply elem_of_nil in Hx. contradiction.
  - rewrite IH. split.
    + intros [H | (x' & alpha & Hx' & Hp & Hd & Ha)].
      * destruct (data !! Z.to_nat ((y * size + x) * 4)) as [alpha |] eqn:E;
          [| auto].
        destruct (Z.ltb_spec 128 alpha); [| auto].
        apply elem_of_app in H as [H | H]; [auto |].
        apply list_elem_of_singleton in H. right. exists x, alpha.
        split; [apply elem_of_cons; auto | auto].
      * right. exists x', alpha. split; [apply elem_of_cons; auto | auto].
    + intros [H | (x' & alpha & Hx' & Hp & Hd & Ha)].
      * left. destruct (data !! Z.to_nat ((y * size + x) * 4)) as [alpha |];
          [| exact H].
        destruct (128 <? alpha)%Z; [apply elem_of_app; auto | exact H].
      * apply elem_of_cons in Hx' as [-> | Hx'].
        -- left. rewrite Hd. destruct (Z.ltb_spec 128 alpha); [| lia].
           apply elem_of_app. right. apply list_elem_of_singleton, Hp.
        -- right. exists x', alpha. auto.
Qed.

Lemma scan_rows_elem (data : list Z) (cols rows : list Z) acc p :
  p ∈ fold_left (fun validPixels y =>
        fold_left (fun validPixels x =>
          match data !! Z.to_nat ((y * size + x) * 4) with
          | Some alpha => if (128 <? alpha)%Z then validPixels ++ [(x, y)]
                          else validPixels
          | None => validPixels
          end) cols validPixels) rows acc
  <-> p ∈ acc \/
      exists x y alpha, x ∈ cols /\ y ∈ rows /\ p = (x, y) /\
        data !! Z.to_nat ((y * size + x) * 4) = Some alpha /\ (128 < alpha)%Z.
Proof.
  revert acc. induction rows as [| y rows IH]; intros acc; cbn [fold_left].
  - split; [auto |]. intros [H | (x & y & alpha & _ & Hy & _)]; [exact H |].
    apply elem_of_nil in Hy. contradiction.
  - rewrite IH, scan_row_elem. split.
    + intros [[H | (x & alpha & Hx & Hp & Hd)] | (x & y' & alpha & Hx & Hy & Hr)].
      * auto.
      * right. exists x, y, alpha. split; [exact Hx |].
        split; [apply elem_of_cons; auto | auto].
      * right. exists x, y', alpha. split; [exact Hx |].
        split; [apply elem_of_cons; auto | auto].
    + intros [H | (x & y' & alpha & Hx & Hy & Hr)]; [auto |].
      apply elem_of_cons in Hy as [-> | Hy].
      * left. right. exists x, alpha. auto.
      * right. exists x, y', alpha. auto.
Qed.

Lemma elem_of_range (x : Z) (n : nat) :
  x ∈ map Z.of_nat (seq 0 n) <-> (0 <= x < Z.of_nat n)%Z.
Proof.
  rewrite list_elem_of_In, in_map_iff. split.
  - intros (k & <- & Hk). apply in_seq in Hk. lia.
  - intros Hx. exists (Z.to_nat x). split; [lia |]. apply in_seq. lia.
Qed.

(** Every pixel the scan collects lies on the canvas. *)
Lemma scan_pixels_on_canvas (data : list Z) x y :
  (x, y) ∈ scan_pixels data -> (0 <= x < 100)%Z /\ (0 <= y < 100)%Z.
Proof.
  unfold scan_pixels. rewrite scan_rows_elem. change size with 100%Z.
  intros [H | (x' & y' & alpha & Hx & Hy & [= -> ->] & _)].
  - apply elem_of_nil in H. contradiction.
  - apply elem_of_range in Hx, Hy. lia.
Qed.

(** X9.  The scan collects exactly the pixels of the 100 x 100 canvas
    whose red byte exceeds 128: a pixel is valid if and only if both its
    coordinates are in [0, 100) and the byte at index (y * 100 + x) * 4 of
    the image data exists and is greater than 128. *)
Theorem scan_pixels_spec (data : list Z) x y :
  (x, y) ∈ scan_pixels data <->
  (0 <= x < 100)%Z /\ (0 <= y < 100)%Z /\
  exists alpha, data !! Z.to_nat ((y * 100 + x) * 4) = Some alpha /\
                (128 < alpha)%Z.
Proof.
  unfold scan_pixels. rewrite scan_rows_elem.
  change size with 100%Z. split.
  - intros [H | (x' & y' & alpha & Hx & Hy & [= -> ->] & Hd & Ha)].
    + apply elem_of_nil in H. contradiction.
    + apply elem_of_range in Hx, Hy.
      split; [lia |]. split; [lia |]. eauto.
  - intros (Hx & Hy & alpha & Hd & Ha). right. exists x, y, alpha.
    split; [apply elem_of_range; lia |].
    split; [apply elem_of_range; lia | auto].
Qed.

Lemma point_replicate n i : point (replicate n 0) i = (0, 0, 0).
Proof.
  assert (H : forall j, cell (replicate n 0) j = 0).
  { intros j. unfold cell.
    destruct (replicate n 0 !! j) as [v |] eqn:E; [| reflexivity].
    apply lookup_replicate in E as [-> _]. reflexivity. }
  unfold point. rewrite !H. reflexivity.
Qed.

Lemma text_particle_slab validPixels radius i positions s :
  uniform s -> 0 <= radius -> (0 < length validPixels)%nat ->
  (forall pixel, pixel ∈ validPixels ->
     (0 <= fst pixel < 100)%Z /\ (0 <= snd pixel < 100)%Z) ->
  (i * 3 + 2 < length positions)%nat ->
  returns (text_particle validPixels radius i positions) s
    (fun positions' s' =>
       uniform s' /\ length positions' = length positions /\
       (let '(x, y, z) := point positions' i in
        - (0.75 * radius) <= x <= 0.75 * radius /\
        - (0.75 * radius) <= y <= 0.75 * radius /\
        - (0.1 * radius) <= z <= 0.1 * radius) /\
       forall j, j <> i -> point positions' j = point positions j).
Proof.
  intros Hu Hr Hlen Hpx Hi. unfold text_particle.
  apply returns_bind, returns_random. cbn [draws cursor].
  apply returns_bind, pick_pixel_returns; [apply Hu | exact Hlen |].
  intros [px py] Hin. destruct (Hpx _ Hin) as [Hx Hy]. cbn [fst snd] in *.
  cbv zeta. apply returns_bind, returns_random. cbn [draws cursor].
  apply returns_ret. unfold aset. split; [exact Hu |].
  split; [rewrite !length_insert; reflexivity |].
  split.
  - unfold point.
    rewrite cell_insert_ne, cell_insert_ne, cell_insert_eq by lia.
    rewrite (cell_insert_ne _ (i * 3 + 2)), cell_insert_eq
      by (rewrite ?length_insert; lia).
    rewrite cell_insert_eq by (rewrite ?length_insert; lia).
    pose proof (Hu (S (cursor s))) as Hz.
    assert (Hpx' : 0 <= IZR px <= 99) by (split; apply IZR_le; lia).
    assert (Hpy' : 0 <= IZR py <= 99) by (split; apply IZR_le; lia).
    unfold size.
    assert (Ex : 0 <= IZR px / 100 <= 0.99) by lra.
    assert (Ey : 0 <= IZR py / 100 <= 0.99) by lra.
    repeat split; nra.
  - intros j Hj. unfold point. rewrite !cell_insert_ne by lia. reflexivity.
Qed.

(** A loop whose round [i] sets point [i] and keeps the others. *)
Lemma step_loop_returns (step : nat -> list R -> M (list R))
    (P : R * R * R -> Prop) (Inv : rng -> Prop) n positions s :
  Inv s ->
  (forall i positions' s', Inv s' -> (i < n)%nat ->
     length positions' = length positions ->
     returns (step i positions') s' (fun positions'' s'' =>
       Inv s'' /\ length positions'' = length positions' /\
       P (point positions'' i) /\
       forall j, j <> i -> point positions'' j = point positions' j)) ->
  returns (for_loop n step positions) s (fun positions' s' =>
    Inv s' /\ length positions' = length positions /\
    forall i, (i < n)%nat -> P (point positions' i)).
Proof.
  intros Hs Hstep.
  assert (Hn : (n <= n)%nat) by lia. revert Hn.
  generalize n at 1 3 4 as m. intros m Hm.
  apply (returns_for_loop step (fun m positions' s' =>
           Inv s' /\ length positions' = length positions /\
           forall i, (i < m)%nat -> P (point positions' i))).
  - split; [exact Hs |]. split; [reflexivity |]. intros i Hi. lia.
  - intros j positions' s' Hj (HI & Hl & Hpts).
    eapply returns_mono; [apply Hstep; [exact HI | lia | exact Hl] |].
    cbv beta. intros positions'' s'' (HI' & Hl' & HP & Hkeep).
    split; [exact HI' |]. split; [congruence |].
    intros i Hi. destruct (decide (i = j)) as [-> | Hne]; [exact HP |].
    rewrite Hkeep by exact Hne. apply Hpts. lia.
Qed.

(** X10.  The glyph formations always lie in a thin slab: every particle
    has x and y within 0.75 * radius and z within 0.1 * radius of the
    origin, whatever the canvas renders and also when it renders nothing
    or is unavailable. *)
Theorem glyph_in_slab canvas charIndex numIndex type pCount radius s :
  type = TEXT \/ type = NUMBER ->
  uniform s -> (0 <= pCount)%Z -> 0 <= radius ->
  exists positions s',
    generateTargetPositions canvas charIndex numIndex type pCount radius s
      = Ok (positions, s') /\
    length positions = (Z.to_nat pCount * 3)%nat /\
    forall i, (i < Z.to_nat pCount)%nat ->
      let '(x, y, z) := point positions i in
      - (0.75 * radius) <= x <= 0.75 * radius /\
      - (0.75 * radius) <= y <= 0.75 * radius /\
      - (0.1 * radius) <= z <= 0.1 * radius.
Proof.
  intros Htype Hu Hn Hr.
  set (P := fun xyz : R * R * R =>
              let '(x, y, z) := xyz in
              - (0.75 * radius) <= x <= 0.75 * radius /\
              - (0.75 * radius) <= y <= 0.75 * radius /\
              - (0.1 * radius) <= z <= 0.1 * radius).
  assert (Hzero : forall m i, P (point (replicate m 0) i)).
  { intros m i. rewrite point_replicate. unfold P. repeat split; lra. }
  assert (Htext : forall text,
            returns (generateTextPositions canvas text pCount radius) s
              (fun positions _ =>
                 length positions = (Z.to_nat pCount * 3)%nat /\
                 forall i, (i < Z.to_nat pCount)%nat -> P (point positions i))).
  { intros text. unfold generateTextPositions.
    destruct canvas as [raster |].
    - cbv zeta. apply returns_bind, returns_new; [lia |].
      destruct (decide (length (scan_pixels (raster text)) = 0%nat)) as [E | NE].
      + apply returns_ret. rewrite length_replicate, triple_length by exact Hn.
        auto.
      + eapply returns_mono.
        * apply (step_loop_returns _ P uniform); [exact Hu |].
          intros i positions' s' Hu' Hi Hl.
          eapply returns_mono.
          -- apply text_particle_slab; [exact Hu' | exact Hr | lia | |].
             ++ intros [px py] Hin. apply scan_pixels_on_canvas in Hin.
                cbn [fst snd]. lia.
             ++ rewrite Hl, length_replicate, triple_length by exact Hn. lia.
          -- cbv beta. intros positions'' s'' (H1 & H2 & H3 & H4). auto.
        * cbv beta. intros positions' s' (_ & Hl & Hp).
          rewrite Hl, length_replicate, triple_length by exact Hn. auto.
    - apply returns_new; [lia |].
      rewrite length_replicate, triple_length by exact Hn. auto. }
  assert (Hgen : generateTargetPositions canvas charIndex numIndex type pCount
                   radius
                 = generateTextPositions canvas
                     (glyph_text charIndex numIndex type) pCount radius).
  { destruct Htype as [-> | ->]; reflexivity. }
  rewrite Hgen.
  destruct (Htext (glyph_text charIndex numIndex type))
    as (positions & s' & Hrun & Hl & Hp).
  exists positions, s'. auto.
Qed.

Lemma glyph_in_slab_witness :
  exists positions s',
    generateTargetPositions (dot_canvas (units "A")) 0 0 TEXT 2 10
      (Rng (fun _ => 0.25) 0) = Ok (positions, s') /\
    length positions = (Z.to_nat 2 * 3)%nat /\
    forall i, (i < Z.to_nat 2)%nat ->
      let '(x, y, z) := point positions i in
      - (0.75 * 10) <= x <= 0.75 * 10 /\
      - (0.75 * 10) <= y <= 0.75 * 10 /\
      - (0.1 * 10) <= z <= 0.1 * 10.
Proof.
  apply (glyph_in_slab (dot_canvas (units "A")) 0 0 TEXT 2 10
           (Rng (fun _ => 0.25) 0));
    [left; reflexivity | intros k; simpl; lra | lia | lra].
Defined.

(** Two buffers with the same particles are the same buffer. *)
Lemma points_ext (l1 l2 : list R) n :
  length l1 = (n * 3)%nat -> length l2 = (n * 3)%nat ->
  (forall i, (i < n)%nat -> point l1 i = point l2 i) -> l1 = l2.
Proof.
  intros H1 H2 Hp. apply list_eq. intros j.
  destruct (decide (j < n * 3)%nat) as [Hj | Hj].
  - rewrite (lookup_cell l1 j), (lookup_cell l2 j) by lia. f_equal.
    assert (Hi : (j / 3 < n)%nat) by (apply Nat.Div0.div_lt_upper_bound; lia).
    pose proof (Hp _ Hi) as E. unfold point in E. injection E as E0 E1 E2.
    pose proof (Nat.div_mod_eq j 3) as Hd.
    pose proof (Nat.mod_upper_bound j 3 ltac:(lia)) as Hm.
    assert (Hk : (j mod 3 = 0 \/ j mod 3 = 1 \/ j mod 3 = 2)%nat) by lia.
    destruct Hk as [Hk | [Hk | Hk]].
    + replace j with (j / 3 * 3)%nat by lia. exact E0.
    + replace j with (j / 3 * 3 + 1)%nat by lia. exact E1.
    + replace j with (j / 3 * 3 + 2)%nat by lia. exact E2.
  - rewrite !(proj2 (lookup_ge_None _ _)) by lia. reflexivity.
Qed.

(** X11.  The sphere formation does not depend on the random source:
    whatever the generator holds, sampling returns the same buffer, so
    retargeting to the sphere twice gives the same target. *)
Theorem sphere_deterministic canvas charIndex numIndex pCount radius s1 s2 :
  (0 <= pCount)%Z ->
  exists positions,
    generateTargetPositions canvas charIndex numIndex SPHERE pCount radius s1
      = Ok (positions, s1) /\
    generateTargetPositions canvas charIndex numIndex SPHERE pCount radius s2
      = Ok (positions, s2).
Proof.
  intros Hn.
  set (f := fun i : nat =>
              let phi := acos (-1 + 2 * INR i / IZR pCount) in
              let theta := sqrt (IZR pCount * PI) * phi in
              (radius * cos theta * sin phi, radius * sin theta * sin phi,
               radius * cos phi)).
  assert (Hpt : forall i s, (i < Z.to_nat pCount)%nat ->
            returns (shape_point SPHERE pCount radius i) s
              (fun xyz s' => s' = s /\ xyz = f i)).
  { intros i s Hi. pose proof (index_below i pCount Hi) as Hb.
    pose proof PI_RGT_0 as Hpi.
    unfold shape_point. cbv zeta.
    repeat sample_step; try lra.
    - pose proof (ratio_bounds (INR i) (IZR pCount)). lra.
    - nra.
    - split; reflexivity. }
  assert (Hrun : forall s, exists positions,
            generateTargetPositions canvas charIndex numIndex SPHERE pCount
              radius s = Ok (positions, s) /\
            length positions = (Z.to_nat pCount * 3)%nat /\
            forall i, (i < Z.to_nat pCount)%nat -> point positions i = f i).
  { intros s.
    destruct (shape_sample_points canvas charIndex numIndex SPHERE pCount radius
                (fun i xyz => xyz = f i) (fun s' => s' = s) s)
      as (positions & s' & Hrun & -> & Hlen & Hp);
      [discriminate | discriminate | reflexivity | exact Hn | |].
    - intros i s' -> Hi. apply Hpt, Hi.
    - exists positions. auto. }
  destruct (Hrun s1) as (p1 & R1 & L1 & P1).
  destruct (Hrun s2) as (p2 & R2 & L2 & P2).
  exists p1. split; [exact R1 |].
  rewrite R2. do 2 f_equal. symmetry.
  apply (points_ext p1 p2 (Z.to_nat pCount) L1 L2).
  intros i Hi. rewrite P1, P2 by exact Hi. reflexivity.
Qed.

Lemma sphere_deterministic_witness :
  exists positions,
    generateTargetPositions None 0 0 SPHERE 5 10 (Rng (fun _ => 0.25) 0)
      = Ok (positions, Rng (fun _ => 0.25) 0) /\
    generateTargetPositions None 0 0 SPHERE 5 10 (Rng (fun _ => 0.75) 7)
      = Ok (positions, Rng (fun _ => 0.75) 7).
Proof.
  apply (sphere_deterministic None 0 0 5 10 (Rng (fun _ => 0.25) 0)
           (Rng (fun _ => 0.75) 7)). lia.
Defined.

(** ** Rotation and scale of the cloud *)

Lemma target_scale_range hand audioBass :
  0 <= handSpread hand <= 1 -> 0 <= audioBass <= 1 ->
  0.3 <= target_scale hand audioBass <= 1.9.
Proof.
  intros Hs Hb. unfold target_scale. destruct (isDetected hand); lra.
Qed.

Lemma Vector3_lerp_within lo hi this t alpha :
  0 <= alpha <= 1 -> lo <= t <= hi -> within lo hi this ->
  within lo hi (Vector3_lerp this (mkVector3 t t t) alpha).
Proof.
  intros Ha Ht (Hx & Hy & Hz). unfold within, Vector3_lerp. cbn.
  repeat split; nra.
Qed.

Lemma frame_transform_range hand audioBass state sc :
  0 <= handSpread hand <= 1 -> 0 <= audioBass <= 1 ->
  within 0.3 1.9 (scale (points sc)) ->
  (forall a, aura sc = Some a -> within 0.3 2.85 (scale a)) ->
  within 0.3 1.9 (scale (points (frame_transform hand audioBass state sc))) /\
  (forall a, aura (frame_transform hand audioBass state sc) = Some a ->
     within 0.3 2.85 (scale a)).
Proof.
  intros Hs Hb Hp Ha.
  pose proof (target_scale_range hand audioBass Hs Hb) as Ht.
  unfold target_scale in Ht. unfold frame_transform. cbv zeta. cbn [points scale aura].
  split.
  - apply Vector3_lerp_within; [lra | exact Ht | exact Hp].
  - intros a' E. destruct (aura sc) as [a |]; [| discriminate].
    injection E as <-. cbn [scale].
    apply Vector3_lerp_within; [lra | | apply Ha; reflexivity].
    split; nra.
Qed.

(** X12.  Whatever the hand and the audio do, as long as the hand spread
    and the bass stay in [0, 1], the scale of the core cloud stays in
    [0.3, 1.9] on every axis and the scale of the aura in [0.3, 2.85],
    frame after frame, once they start there (a new object has scale 1). *)
Theorem scale_stays_in_range inputs sc :
  Forall (fun input => 0 <= handSpread (fst (fst input)) <= 1 /\
                       0 <= snd (fst input) <= 1) inputs ->
  within 0.3 1.9 (scale (points sc)) ->
  (forall a, aura sc = Some a -> within 0.3 2.85 (scale a)) ->
  within 0.3 1.9 (scale (points (transform_run inputs sc))) /\
  (forall a, aura (transform_run inputs sc) = Some a ->
     within 0.3 2.85 (scale a)).
Proof.
  intros Hin. revert sc. unfold transform_run.
  induction Hin as [| input inputs [Hs Hb] _ IH]; intros sc Hp Ha; cbn [fold_left].
  - auto.
  - destruct (frame_transform_range (fst (fst input)) (snd (fst input))
                (snd input) sc Hs Hb Hp Ha) as [Hp' Ha'].
    apply IH; assumption.
Qed.

Lemma scale_stays_in_range_witness :
  within 0.3 1.9
    (scale (points (transform_run
       [(mkHand 0.5 0.5 true 1, 1, mkState 0 0 0);
        (mkHand 0 0 false 0, 0, mkState 0.1 0.2 3)]
       (mkScene (mkObject3D 0 0 (mkVector3 1 1 1))
          (Some (mkObject3D 0 0 (mkVector3 1 1 1))))))) /\
  (forall a,
     aura (transform_run
       [(mkHand 0.5 0.5 true 1, 1, mkState 0 0 0);
        (mkHand 0 0 false 0, 0, mkState 0.1 0.2 3)]
       (mkScene (mkObject3D 0 0 (mkVector3 1 1 1))
          (Some (mkObject3D 0 0 (mkVector3 1 1 1))))) = Some a ->
     within 0.3 2.85 (scale a)).
Proof.
  apply (scale_stays_in_range
           [(mkHand 0.5 0.5 true 1, 1, mkState 0 0 0);
            (mkHand 0 0 false 0, 0, mkState 0.1 0.2 3)]
           (mkScene (mkObject3D 0 0 (mkVector3 1 1 1))
              (Some (mkObject3D 0 0 (mkVector3 1 1 1))))).
  - repeat constructor; cbn; lra.
  - unfold within. cbn. lra.
  - intros a [= <-]. unfold within. cbn. lra.
Defined.



(** ** The audio bands *)

Lemma slice_length (arr : list Z) b e :
  length (slice arr b e) = Nat.min (e - b) (length arr - b).
Proof. unfold slice. rewrite length_take, length_drop. reflexivity. Qed.

Lemma slice_insert_outside (arr : list Z) b e k v :
  (k < b \/ e <= k)%nat -> slice (<[k := v]> arr) b e = slice arr b e.
Proof.
  intros Hk. unfold slice. destruct (decide (k < b)%nat) as [Hlt | Hge].
  - rewrite drop_insert_lt by exact Hlt. reflexivity.
  - rewrite drop_insert_ge by lia. apply take_insert_ge. lia.
Qed.

Lemma sum_bytes_range (arr : list Z) acc :
  Forall (fun byte => 0 <= byte <= 255)%Z arr ->
  (acc <= fold_left Z.add arr acc <= acc + 255 * Z.of_nat (length arr))%Z.
Proof.
  intros H. revert acc. induction H as [| byte arr Hb _ IH]; intros acc;
    cbn [fold_left length].
  - lia.
  - specialize (IH (acc + byte)%Z). lia.
Qed.

Lemma getAvg_returns (arr : list Z) s (Q : R -> rng -> Prop) :
  Forall (fun byte => 0 <= byte <= 255)%Z arr -> (0 < length arr)%nat ->
  (forall avg, 0 <= avg / 255 <= 1 -> Q avg s) ->
  returns (getAvg arr) s Q.
Proof.
  intros Hb Hlen HQ. unfold getAvg.
  assert (Hl : 0 < INR (length arr)) by (apply lt_0_INR; lia).
  apply returns_div; [lra |]. apply HQ.
  pose proof (sum_bytes_range arr 0%Z Hb) as [Hlo Hhi].
  apply IZR_le in Hlo, Hhi. rewrite plus_IZR, mult_IZR, <- INR_IZR_INZ in Hhi.
  assert (Hi : 0 < / INR (length arr)) by (apply Rinv_0_lt_compat; lra).
  assert (E : INR (length arr) * / INR (length arr) = 1) by (apply Rinv_r; lra).
  set (total := IZR (fold_left Z.add arr 0%Z)) in *.
  unfold Rdiv. split; nra.
Qed.

Lemma getAvg_empty s : getAvg [] s = Raise NotFinite.
Proof.
  unfold getAvg, js_div. cbn [length INR].
  destruct (Req_dec_T 0 0) as [_ | NE]; [reflexivity | contradiction].
Qed.

Lemma Forall_slice (P : Z -> Prop) (arr : list Z) b e :
  Forall P arr -> Forall P (slice arr b e).
Proof. intros H. unfold slice. apply Forall_take, Forall_drop, H. Qed.

(** X14.  With every byte of the analyser in [0, 255] and at least 62
    frequency bins, the band computation ends without a fault and the
    bass, mid, treble and average it returns all lie in [0, 1]. *)
Theorem bands_in_unit (dataArray : list Z) s :
  Forall (fun byte => 0 <= byte <= 255)%Z dataArray ->
  (62 <= length dataArray)%nat ->
  exists d,
    frequency_bands dataArray s = Ok (d, s) /\
    0 <= bass d <= 1 /\ 0 <= mid d <= 1 /\ 0 <= treble d <= 1 /\
    0 <= average d <= 1.
Proof.
  intros Hb Hlen.
  assert (H : returns (frequency_bands dataArray) s (fun d s' =>
                s' = s /\ 0 <= bass d <= 1 /\ 0 <= mid d <= 1 /\
                0 <= treble d <= 1 /\ 0 <= average d <= 1)).
  { unfold frequency_bands. cbv zeta.
    apply returns_bind, getAvg_returns;
      [apply Forall_slice, Hb | rewrite slice_length; lia |].
    intros b Hbass.
    apply returns_bind, getAvg_returns;
      [apply Forall_slice, Hb | rewrite slice_length; lia |].
    intros m Hmid.
    apply returns_bind, getAvg_returns;
      [apply Forall_slice, Hb | rewrite slice_length; lia |].
    intros t Htreble.
    apply returns_ret. cbn [bass mid treble average].
    repeat split; lra. }
  destruct H as (d & s' & Hrun & -> & Hrest). exists d. auto.
Qed.

Lemma bands_in_unit_witness :
  exists d,
    frequency_bands (replicate 256 128%Z) (Rng (fun _ => 0.5) 0)
      = Ok (d, Rng (fun _ => 0.5) 0) /\
    0 <= bass d <= 1 /\ 0 <= mid d <= 1 /\ 0 <= treble d <= 1 /\
    0 <= average d <= 1.
Proof.
  apply (bands_in_unit (replicate 256 128%Z) (Rng (fun _ => 0.5) 0)).
  - apply Forall_replicate. lia.
  - rewrite length_replicate. lia.
Defined.

(** X15.  The frequency bins 10 and 60, and every bin from 255 on, never
    reach the bands: writing any value there leaves the result of the band
    computation as it was. *)
Theorem bands_skip_bins (dataArray : list Z) k v s :
  (k = 10 \/ k = 60 \/ 255 <= k)%nat ->
  frequency_bands (<[k := v]> dataArray) s = frequency_bands dataArray s.
Proof.
  intros Hk. unfold frequency_bands.
  rewrite !slice_insert_outside by lia. reflexivity.
Qed.

Lemma bands_skip_bins_witness :
  frequency_bands (<[60%nat := 255%Z]> (replicate 256 0%Z))
    (Rng (fun _ => 0.5) 0)
  = frequency_bands (replicate 256 0%Z) (Rng (fun _ => 0.5) 0).
Proof.
  apply (bands_skip_bins (replicate 256 0%Z) 60 255%Z (Rng (fun _ => 0.5) 0)).
  right. left. reflexivity.
Defined.

(** The bound 62 is needed: with fewer frequency bins one of the three
    ranges is empty, its average is 0 / 0, and the band computation yields
    NaN. *)
Lemma bands_short_array (dataArray : list Z) s :
  (length dataArray < 62)%nat ->
  frequency_bands dataArray s = Raise NotFinite.
Proof.
  intros Hlen.
  assert (Hcases : forall arr : list Z,
            getAvg arr s = Raise NotFinite \/
            exists avg, getAvg arr s = Ok (avg, s)).
  { intros arr. unfold getAvg, js_div, raise, ret.
    destruct (Req_dec_T (INR (length arr)) 0); eauto. }
  assert (Hempty : slice dataArray 61 255 = []).
  { apply nil_length_inv. rewrite slice_length. lia. }
  unfold frequency_bands, bind. cbv zeta.
  destruct (Hcases (slice dataArray 0 10)) as [-> | (b & ->)]; [reflexivity |].
  destruct (Hcases (slice dataArray 11 60)) as [-> | (m & ->)]; [reflexivity |].
  rewrite Hempty, getAvg_empty. reflexivity.
Qed.


(** ** The audio visualizer *)

Lemma bandIdx_half data i : bandIdx data i = Z.of_nat (i / 2).
Proof.
  unfold bandIdx, bars, levels. cbn [length].
  replace (INR 20) with 20 by (simpl; lra).
  replace (INR 10) with 10 by (simpl; lra).
  apply Zfloor_eq. rewrite <- INR_IZR_INZ.
  pose proof (Nat.div_mod_eq i 2) as Hd.
  pose proof (Nat.mod_upper_bound i 2 ltac:(lia)) as Hm.
  assert (Hi : INR i = 2 * INR (i / 2) + INR (i mod 2)).
  { rewrite Hd at 1. rewrite plus_INR, mult_INR. simpl. lra. }
  assert (Hr : 0 <= INR (i mod 2) <= 1).
  { split; [apply pos_INR |]. change 1 with (INR 1). apply le_INR. lia. }
  lra.
Qed.

(** X16.  Each of the twenty bars of the visualizer reads a defined level:
    bar i takes level i / 2 of the ten, so bars 0 to 5 show the bass, 6 to
    13 the mid and 14 to 19 the treble, and its height is at least 2. *)
Theorem visualizer_bars data canvas_height i s :
  (i < bars)%nat ->
  exists level,
    levels data !! (i / 2)%nat = Some level /\
    bar_height data canvas_height i s
      = Ok (Rmax 2 (level * canvas_height * 1.5 * draws s (cursor s)),
            advance 1 s) /\
    2 <= Rmax 2 (level * canvas_height * 1.5 * draws s (cursor s)) /\
    ((i < 6)%nat -> level = bass data) /\
    ((6 <= i < 14)%nat -> level = mid data) /\
    ((14 <= i)%nat -> level = treble data).
Proof.
  unfold bars. intros Hi.
  assert (Hk : (i / 2 < 10)%nat) by (apply Nat.Div0.div_lt_upper_bound; lia).
  destruct (lookup_lt_is_Some_2 (levels data) (i / 2) Hk) as [level Hl].
  exists level. split; [exact Hl |].
  split.
  - unfold bar_height. cbv zeta. rewrite bandIdx_half.
    destruct (Z.ltb_spec (Z.of_nat (i / 2)) 0); [lia |].
    rewrite Nat2Z.id. unfold bind, aget. rewrite Hl.
    unfold ret, Math_random, advance. do 3 f_equal. lia.
  - split; [apply Rmax_l |].
    pose proof (Nat.div_mod_eq i 2) as Hd.
    pose proof (Nat.mod_upper_bound i 2 ltac:(lia)) as Hm.
    assert (Hc : (i / 2 = 0 \/ i / 2 = 1 \/ i / 2 = 2 \/ i / 2 = 3 \/ i / 2 = 4
                  \/ i / 2 = 5 \/ i / 2 = 6 \/ i / 2 = 7 \/ i / 2 = 8
                  \/ i / 2 = 9)%nat) by lia.
    repeat (destruct Hc as [Hc | Hc]);
      rewrite Hc in Hl, Hd; injection Hl as <-;
      repeat split; intros; first [reflexivity | lia].
Qed.

Lemma visualizer_bars_witness :
  exists level,
    levels (mkAudio 0.2 0.4 0.6 0.4) !! (7 / 2)%nat = Some level /\
    bar_height (mkAudio 0.2 0.4 0.6 0.4) 48 7 (Rng (fun _ => 0.5) 0)
      = Ok (Rmax 2 (level * 48 * 1.5 * 0.5), advance 1 (Rng (fun _ => 0.5) 0)) /\
    2 <= Rmax 2 (level * 48 * 1.5 * 0.5) /\
    ((7 < 6)%nat -> level = 0.2) /\
    ((6 <= 7 < 14)%nat -> level = 0.4) /\
    ((14 <= 7)%nat -> level = 0.6).
Proof.
  apply (visualizer_bars (mkAudio 0.2 0.4 0.6 0.4) 48 7 (Rng (fun _ => 0.5) 0)).
  unfold bars. lia.
Defined.

(** ** The buffers across renders and frames *)

Lemma sample_returns canvas p type s :
  uniform s -> (0 <= particleCount p)%Z ->
  returns (sample canvas p type) s (fun positions s' =>
    uniform s' /\ length positions = (Z.to_nat (particleCount p) * 3)%nat).
Proof.
  intros Hu Hn. eapply returns_mono.
  - apply generateTargetPositions_returns; eassumption.
  - cbv beta. intros positions s' [Hd Hl].
    split; [exact (uniform_ext _ _ Hd Hu) | exact Hl].
Qed.

Lemma initialization_returns canvas p rf s :
  uniform s -> (0 <= particleCount p)%Z ->
  returns (initialization canvas p rf) s (fun rf' s' =>
    uniform s' /\
    exists target current,
      rf' = mkRefs (Some target) (Some current)
              (Some (replicate (Z.to_nat (particleCount p) * 3) 0))
              (pointsRef rf) /\
      length target = (Z.to_nat (particleCount p) * 3)%nat /\
      length current = (Z.to_nat (particleCount p) * 3)%nat).
Proof.
  intros Hu Hn. unfold initialization. cbv zeta.
  apply returns_bind. eapply returns_mono; [apply sample_returns; assumption |].
  cbv beta. intros current s1 [Hu1 Lc].
  apply returns_bind, returns_new; [lia |].
  apply returns_bind. eapply returns_mono; [apply sample_returns; assumption |].
  cbv beta. intros target s2 [Hu2 Lt].
  apply returns_ret. split; [exact Hu2 |].
  exists target, current. rewrite triple_length by exact Hn. auto.
Qed.

Lemma shape_update_effect_returns canvas p rf s :
  uniform s -> (0 <= particleCount p)%Z ->
  returns (shape_update_effect canvas p rf) s (fun rf' s' =>
    uniform s' /\
    exists target,
      rf' = mkRefs (Some target) (currentPositionsRef rf) (velocitiesRef rf)
              (pointsRef rf) /\
      length target = (Z.to_nat (particleCount p) * 3)%nat).
Proof.
  intros Hu Hn. unfold shape_update_effect.
  apply returns_bind. eapply returns_mono; [apply sample_returns; assumption |].
  cbv beta. intros target s' [Hu' Lt].
  apply returns_ret. split; [exact Hu' |]. exists target. auto.
Qed.

Lemma render_returns canvas new c s :
  uniform s -> cloud_ok c -> (0 <= particleCount new)%Z ->
  returns (render canvas new c) s (fun c' s' =>
    uniform s' /\ cloud_ok c' /\ props c' = Some new /\
    render_keeps new c s c' s').
Proof.
  intros Hu Hok Hn. unfold render. cbv zeta.
  assert (Hmk : forall target current velocities colorArray g,
            length target = (Z.to_nat (particleCount new) * 3)%nat ->
            length current = (Z.to_nat (particleCount new) * 3)%nat ->
            length velocities = (Z.to_nat (particleCount new) * 3)%nat ->
            length colorArray = (Z.to_nat (particleCount new) * 3)%nat ->
            length g = (Z.to_nat auraCount * 3)%nat ->
            cloud_ok (mkComponent (Some new)
                        (mkRefs (Some target) (Some current) (Some velocities)
                           (Some colorArray)) (Some g))).
  { intros target current velocities colorArray g Lt Lc Lv Lk Lg.
    exists target, current, velocities, colorArray, g. cbn. auto 10. }
  destruct c as [[old |] rf g]; unfold cloud_ok, render_keeps in *;
    cbn [props refs auraGeometry] in *.
  - destruct Hok as (target & current & velocities & colorArray & g0 & -> & ->
                     & Lt & Lc & Lv & Lk & Lg).
    destruct (Z.eqb_spec (particleCount old) (particleCount new)) as [E | NE];
      cbn [negb].
    + rewrite E in *.
      apply returns_bind, returns_ret. apply returns_bind, returns_ret.
      apply returns_bind, returns_ret.
      destruct (negb _) eqn:Hdeps.
      * apply returns_bind. eapply returns_mono;
          [apply shape_update_effect_returns; [exact Hu | exact Hn] |].
        cbv beta. intros rf' s' (Hu' & target' & -> & Lt').
        apply returns_ret. cbn [targetPositionsRef currentPositionsRef
          velocitiesRef pointsRef props refs auraGeometry].
        split; [exact Hu' |]. split; [apply Hmk; assumption |].
        split; [reflexivity |].
        intros old' [= <-]. split; [reflexivity |]. intros _.
        do 3 (split; [reflexivity |]). intros E1 E2 E3. exfalso.
        rewrite E1, E2, E3, bool_decide_true, !Z.eqb_refl in Hdeps
          by reflexivity.
        discriminate Hdeps.
      * apply returns_bind, returns_ret. apply returns_ret.
        cbn [props refs auraGeometry].
        split; [exact Hu |]. split; [apply Hmk; assumption |].
        split; [reflexivity |].
        intros old' [= <-]. auto 10.
    + apply returns_bind. eapply returns_mono;
        [apply initialization_returns; [exact Hu | exact Hn] |].
      cbv beta. intros rf1 s1 (Hu1 & target1 & current1 & -> & Lt1 & Lc1).
      apply returns_bind, returns_ret.
      apply returns_bind, returns_bind.
      eapply returns_mono; [apply core_geometry_returns; exact Hn |].
      cbv beta. intros colors s2 (-> & Lk2 & _).
      apply returns_ret. cbn [targetPositionsRef currentPositionsRef
        velocitiesRef pointsRef].
      rewrite andb_false_r, andb_false_l. cbn [negb].
      apply returns_bind. eapply returns_mono;
        [apply shape_update_effect_returns; [exact Hu1 | exact Hn] |].
      cbv beta. intros rf' s' (Hu' & target' & -> & Lt').
      apply returns_ret. cbn [targetPositionsRef currentPositionsRef
        velocitiesRef pointsRef props refs auraGeometry].
      split; [exact Hu' |].
      split; [apply Hmk; try assumption; apply length_replicate |].
      split; [reflexivity |].
      intros old' [= <-]. split; [reflexivity |]. intros E. contradiction.
  - apply returns_bind. eapply returns_mono;
      [apply initialization_returns; [exact Hu | exact Hn] |].
    cbv beta. intros rf1 s1 (Hu1 & target1 & current1 & -> & Lt1 & Lc1).
    apply returns_bind. eapply returns_mono.
    { apply generateTargetPositions_returns;
        [exact Hu1 | unfold auraCount; lia]. }
    cbv beta. intros g1 s2 [Hd2 Lg1].
    pose proof (uniform_ext _ _ Hd2 Hu1) as Hu2.
    apply returns_bind, returns_bind.
    eapply returns_mono; [apply core_geometry_returns; exact Hn |].
    cbv beta. intros colors s3 (-> & Lk3 & _).
    apply returns_ret. cbn [targetPositionsRef currentPositionsRef
      velocitiesRef pointsRef].
    apply returns_bind. eapply returns_mono;
      [apply shape_update_effect_returns; [exact Hu2 | exact Hn] |].
    cbv beta. intros rf' s' (Hu' & target' & -> & Lt').
    apply returns_ret. cbn [targetPositionsRef currentPositionsRef
      velocitiesRef pointsRef props refs auraGeometry].
    split; [exact Hu' |].
    split; [apply Hmk; try assumption; apply length_replicate |].
    split; [reflexivity |]. intros old' [=].
Qed.

Lemma frame_returns audioService c s :
  uniform s -> cloud_ok c ->
  returns (frame audioService c) s (fun c' s' =>
    uniform s' /\ cloud_ok c' /\ props c' = props c /\
    auraGeometry c' = auraGeometry c /\
    targetPositionsRef (refs c') = targetPositionsRef (refs c)).
Proof.
  intros Hu Hok. unfold frame.
  destruct c as [[p |] rf g]; unfold cloud_ok in *;
    cbn [props refs auraGeometry] in *.
  - destruct Hok as (target & current & velocities & colorArray & g0 & -> & ->
                     & Lt & Lc & Lv & Lk & Lg).
    destruct (physics_loop_returns target (threeColorBase p)
                (snd (audio_reactivity audioService))
                (Z.to_nat (particleCount p))
                (Buffers current velocities colorArray) s)
      as (bf' & s' & Hrun & -> & Lp' & Lv' & Lc' & _);
      cbn [positions vels colors]; try lia.
    cbn [positions vels colors] in *.
    apply returns_bind.
    exists (mkRefs (Some target) (Some (positions bf')) (Some (vels bf'))
              (Some (colors bf'))), (advance (Z.to_nat (particleCount p) * 3) s).
    split; [apply useFrame_runs, Hrun |].
    apply returns_ret. cbn [props refs auraGeometry targetPositionsRef].
    split; [exact Hu |].
    split; [| auto].
    exists target, (positions bf'), (vels bf'), (colors bf'), g0.
    repeat split; congruence.
  - apply returns_ret. auto.
Qed.


Lemma run_returns canvas events : forall c s,
  uniform s -> cloud_ok c -> Forall valid_event events ->
  returns (run canvas events c) s (fun c' s' =>
    uniform s' /\ cloud_ok c' /\
    (is_Some (props c) ->
       is_Some (props c') /\ auraGeometry c' = auraGeometry c)).
Proof.
  induction events as [| e rest IH]; intros c s Hu Hok Hev.
  - apply returns_ret. auto.
  - apply Forall_cons in Hev as [He Hrest].
    destruct e as [p | a]; cbn [run valid_event] in *.
    + apply returns_bind. eapply returns_mono;
        [apply render_returns; eassumption |].
      cbv beta. intros c1 s1 (Hu1 & Hok1 & Hp1 & Hkeep).
      eapply returns_mono; [apply IH; assumption |].
      cbv beta. intros c2 s2 (Hu2 & Hok2 & Hm).
      split; [exact Hu2 |]. split; [exact Hok2 |].
      intros [old Hold]. destruct (Hkeep old Hold) as [Ha _].
      destruct Hm as [Hs2 Ha2]; [rewrite Hp1; eauto |].
      split; [exact Hs2 | congruence].
    + apply returns_bind. eapply returns_mono;
        [apply frame_returns; eassumption |].
      cbv beta. intros c1 s1 (Hu1 & Hok1 & Hp1 & Ha1 & _).
      eapply returns_mono; [apply IH; assumption |].
      cbv beta. intros c2 s2 (Hu2 & Hok2 & Hm).
      split; [exact Hu2 |]. split; [exact Hok2 |].
      intros Hs. destruct Hm as [Hs2 Ha2]; [rewrite Hp1; exact Hs |].
      split; [exact Hs2 | congruence].
Qed.

(** X17.  Whatever renders and frames follow one another, starting from
    buffers of the right sizes, none of them fails and the four buffers
    keep three numbers per particle of the last rendered count: a frame
    never reads outside a buffer, also right after a change of count. *)
Theorem buffers_stay_sized canvas events c s :
  uniform s -> cloud_ok c -> Forall valid_event events ->
  returns (run canvas events c) s (fun c' s' => uniform s' /\ cloud_ok c').
Proof.
  intros Hu Hok Hev. eapply returns_mono; [apply run_returns; eassumption |].
  cbv beta. tauto.
Qed.

Lemma buffers_stay_sized_witness :
  returns
    (run None
       [Render (mkProps SPHERE (mkColor 0 0 0) 2 0 0); Frame None;
        Render (mkProps CUBE (mkColor 1 1 1) 1 0 0); Frame None]
       unmounted) (Rng (fun _ => 0.5) 0)
    (fun c' s' => uniform s' /\ cloud_ok c').
Proof.
  apply (buffers_stay_sized None
           [Render (mkProps SPHERE (mkColor 0 0 0) 2 0 0); Frame None;
            Render (mkProps CUBE (mkColor 1 1 1) 1 0 0); Frame None]
           unmounted (Rng (fun _ => 0.5) 0)).
  - intros k. cbn. lra.
  - exact I.
  - repeat constructor; cbn; lia.
Defined.

(** X18.  A render with the same particle count keeps the current
    positions, the velocities, the colour buffer and the aura; when the
    shape, the character and the digit are the same as well (only the
    colour may differ) it keeps the targets too and draws no random
    value. *)
Theorem render_same_count canvas old new c s :
  uniform s -> cloud_ok c -> props c = Some old ->
  (0 <= particleCount new)%Z ->
  particleCount old = particleCount new ->
  returns (render canvas new c) s (fun c' s' =>
    currentPositionsRef (refs c') = currentPositionsRef (refs c) /\
    velocitiesRef (refs c') = velocitiesRef (refs c) /\
    pointsRef (refs c') = pointsRef (refs c) /\
    auraGeometry c' = auraGeometry c /\
    (shape old = shape new -> charIndex old = charIndex new ->
     numIndex old = numIndex new ->
     c' = mkComponent (Some new) (refs c) (auraGeometry c) /\ s' = s)).
Proof.
  intros Hu Hok Hold Hn E.
  eapply returns_mono; [apply render_returns; eassumption |].
  cbv beta. intros c' s' (_ & _ & Hp & Hkeep).
  destruct (Hkeep old Hold) as (Ha & Hsame).
  destruct (Hsame E) as (H1 & H2 & H3 & Hall).
  do 4 (split; [assumption |]). intros E1 E2 E3.
  destruct (Hall E1 E2 E3) as [Hr ->]. split; [| reflexivity].
  destruct c' as [p' rf' g']. cbn in *. congruence.
Qed.

Lemma render_same_count_witness :
  returns
    (render None (mkProps SPHERE (mkColor 1 0 0) 1 0 0)
       (mkComponent (Some (mkProps SPHERE (mkColor 0 0 1) 1 0 0))
          (mkRefs (Some [1; 2; 3]) (Some [4; 5; 6]) (Some [0; 0; 0])
             (Some [0; 0; 1]))
          (Some (replicate (Z.to_nat auraCount * 3) 0))))
    (Rng (fun _ => 0.5) 0)
    (fun c' s' =>
       currentPositionsRef (refs c') = Some [4; 5; 6] /\
       velocitiesRef (refs c') = Some [0; 0; 0] /\
       pointsRef (refs c') = Some [0; 0; 1] /\
       auraGeometry c' = Some (replicate (Z.to_nat auraCount * 3) 0) /\
       (SPHERE = SPHERE -> 0%Z = 0%Z -> 0%Z = 0%Z ->
        c' = mkComponent (Some (mkProps SPHERE (mkColor 1 0 0) 1 0 0))
               (mkRefs (Some [1; 2; 3]) (Some [4; 5; 6]) (Some [0; 0; 0])
                  (Some [0; 0; 1]))
               (Some (replicate (Z.to_nat auraCount * 3) 0)) /\
        s' = Rng (fun _ => 0.5) 0)).
Proof.
  apply (render_same_count None (mkProps SPHERE (mkColor 0 0 1) 1 0 0)
           (mkProps SPHERE (mkColor 1 0 0) 1 0 0)
           (mkComponent (Some (mkProps SPHERE (mkColor 0 0 1) 1 0 0))
              (mkRefs (Some [1; 2; 3]) (Some [4; 5; 6]) (Some [0; 0; 0])
                 (Some [0; 0; 1]))
              (Some (replicate (Z.to_nat auraCount * 3) 0)))
           (Rng (fun _ => 0.5) 0)).
  - intros k. cbn. lra.
  - exists [1; 2; 3], [4; 5; 6], [0; 0; 0], [0; 0; 1], (replicate (Z.to_nat auraCount * 3) 0).
    cbn [refs auraGeometry particleCount].
    rewrite length_replicate. repeat split; reflexivity.
  - reflexivity.
  - cbn. lia.
  - reflexivity.
Defined.



(** ** The voice handler as a whole *)

Lemma starts_with_app (search rest : js_string) :
  starts_with search (search ++ rest) = true.
Proof.
  induction search as [| c search IH]; [reflexivity |].
  cbn. rewrite Z.eqb_refl. exact IH.
Qed.

Lemma starts_with_inv (search text : js_string) :
  starts_with search text = true -> exists post, text = search ++ post.
Proof.
  revert text. induction search as [| c search IH]; intros text H.
  - exists text. reflexivity.
  - destruct text as [| d text]; [discriminate |]. cbn in H.
    apply andb_prop in H as [E H]. apply Z.eqb_eq in E as ->.
    destruct (IH text H) as [post ->]. exists post. reflexivity.
Qed.

Lemma includes_unfold (text search : js_string) :
  includes text search
  = starts_with search text
    || match text with
       | [] => false
       | _ :: text' => includes text' search
       end.
Proof. destruct text; reflexivity. Qed.

(** [includes] is the substring test. *)
Lemma includes_spec (text search : js_string) :
  includes text search = true <-> exists pre post, text = pre ++ search ++ post.
Proof.
  split.
  - induction text as [| d text IH]; rewrite includes_unfold; intros H;
      apply orb_prop in H as [H | H].
    + destruct (starts_with_inv _ _ H) as [post ->]. exists [], post. reflexivity.
    + discriminate.
    + destruct (starts_with_inv _ _ H) as [post ->]. exists [], post. reflexivity.
    + destruct (IH H) as (pre & post & ->). exists (d :: pre), post. reflexivity.
  - intros (pre & post & ->). induction pre as [| d pre IH];
      rewrite includes_unfold.
    + cbn [app]. rewrite starts_with_app. reflexivity.
    + cbn [app]. rewrite IH. apply orb_true_r.
Qed.

Lemma color_commands_cases text :
  color_commands text = [] \/ exists hex, color_commands text = [(COLOR, hex)].
Proof.
  unfold color_commands.
  destruct (find _ COLOR_PALETTES); [right; eauto |].
  repeat (match goal with
          | |- context [if ?b then _ else _] => destruct b
          end; [right; eauto |]).
  left. reflexivity.
Qed.

Lemma value_commands_cases c :
  value_commands c = [] \/ exists t v, value_commands c = [(VALUE t, v)].
Proof. destruct c as [[t v] |]; cbn; eauto. Qed.

Lemma shape_commands_cases text letterMatch numberMatch shapes :
  shape_commands text letterMatch numberMatch shapes = [] \/
  exists v,
    shape_commands text letterMatch numberMatch shapes = [(SHAPE, v)] /\
    v ∈ shapes /\
    (includes text v = true \/
     v = units "BIG_BANG" /\ includes text (units "BIG BANG") = true) /\
    (letterMatch = true -> v <> units "TEXT") /\
    (numberMatch = true -> v <> units "NUMBER").
Proof.
  induction shapes as [| shape rest IH]; [left; reflexivity |].
  assert (Hrest : shape_commands text letterMatch numberMatch rest = [] \/
            exists v,
              shape_commands text letterMatch numberMatch rest = [(SHAPE, v)] /\
              v ∈ shape :: rest /\
              (includes text v = true \/
               v = units "BIG_BANG" /\ includes text (units "BIG BANG") = true) /\
              (letterMatch = true -> v <> units "TEXT") /\
              (numberMatch = true -> v <> units "NUMBER")).
  { destruct IH as [IH | (v & E & Hin & Hrest)]; [left; exact IH |].
    right. exists v. split; [exact E |]. split; [right; exact Hin | exact Hrest]. }
  cbn [shape_commands].
  destruct (includes text shape
            || bool_decide (shape = units "BIG_BANG")
               && includes text (units "BIG BANG")) eqn:Hinc; [| exact Hrest].
  destruct (bool_decide (shape = units "TEXT") && letterMatch) eqn:HT;
    [exact Hrest |].
  destruct (bool_decide (shape = units "NUMBER") && numberMatch) eqn:HN;
    [exact Hrest |].
  right. exists shape. split; [reflexivity |]. split; [left |].
  split.
  - apply orb_prop in Hinc as [H | H]; [left; exact H |].
    apply andb_prop in H as [H1 H2]. apply bool_decide_eq_true in H1. auto.
  - split; intros -> E; subst shape;
      rewrite bool_decide_true in * by reflexivity; discriminate.
Qed.

(** X20.  A transcript that contains RESET, CLEAR or DEFAULT anywhere,
    also inside a longer word, yields the reset command and nothing else,
    whatever colours, values and shapes it names; and no other transcript
    yields a reset. *)
Theorem reset_overrides shapes letterMatch numberMatch text :
  (forall word pre post,
     word ∈ [units "RESET"; units "CLEAR"; units "DEFAULT"] ->
     text = pre ++ word ++ post ->
     processCommand shapes letterMatch numberMatch text = [(RESET, [])]) /\
  (forall v, (RESET, v) ∈ processCommand shapes letterMatch numberMatch text ->
     exists word pre post,
       word ∈ [units "RESET"; units "CLEAR"; units "DEFAULT"] /\
       text = pre ++ word ++ post).
Proof.
  split.
  - intros word pre post Hw ->. unfold processCommand.
    assert (H : includes (pre ++ word ++ post) word = true)
      by (apply includes_spec; eauto).
    repeat (apply elem_of_cons in Hw as [-> | Hw]);
      [| | | apply elem_of_nil in Hw; contradiction];
      rewrite H, ?orb_true_r; reflexivity.
  - intros v. unfold processCommand.
    destruct (includes text (units "RESET")) eqn:E1.
    { intros _. apply includes_spec in E1 as (pre & post & ->).
      exists (units "RESET"), pre, post. split; [left | reflexivity]. }
    destruct (includes text (units "CLEAR")) eqn:E2.
    { intros _. apply includes_spec in E2 as (pre & post & ->).
      exists (units "CLEAR"), pre, post.
      split; [right; left | reflexivity]. }
    destruct (includes text (units "DEFAULT")) eqn:E3.
    { intros _. apply includes_spec in E3 as (pre & post & ->).
      exists (units "DEFAULT"), pre, post.
      split; [right; right; left | reflexivity]. }
    cbn [orb]. intros H. exfalso.
    repeat (apply elem_of_app in H as [H | H]).
    + destruct (_ || _) in H;
        [apply list_elem_of_singleton in H; discriminate
        | apply elem_of_nil in H; exact H].
    + destruct (color_commands_cases text) as [E | [hex E]]; rewrite E in H;
        [apply elem_of_nil in H; exact H
        | apply list_elem_of_singleton in H; discriminate].
    + destruct letterMatch as [char |]; [| apply elem_of_nil in H; exact H].
      destruct (value_commands_cases (letter_command char))
        as [E | (t & w & E)]; rewrite E in H;
        [apply elem_of_nil in H; exact H
        | apply list_elem_of_singleton in H; discriminate].
    + destruct numberMatch as [valStr |]; [| apply elem_of_nil in H; exact H].
      destruct (value_commands_cases (number_command valStr))
        as [E | (t & w & E)]; rewrite E in H;
        [apply elem_of_nil in H; exact H
        | apply list_elem_of_singleton in H; discriminate].
    + destruct (shape_commands_cases text (bool_decide (is_Some letterMatch))
                  (bool_decide (is_Some numberMatch)) shapes)
        as [E | (w & E & _)]; rewrite E in H;
        [apply elem_of_nil in H; exact H
        | apply list_elem_of_singleton in H; discriminate].
Qed.

Lemma reset_overrides_witness :
  processCommand [units "SPHERE"; units "CUBE"] (Some (units "A")) None
    (units "RED A CUBE PRESETS") = [(RESET, [])].
Proof.
  apply (proj1 (reset_overrides [units "SPHERE"; units "CUBE"]
                  (Some (units "A")) None (units "RED A CUBE PRESETS"))
           (units "RESET") (units "RED A CUBE P") (units "S")).
  - left.
  - reflexivity.
Defined.

(** X21.  A shape command, when there is one, is the last command and the
    only shape command of the transcript; its shape is one of the
    enumeration that the transcript contains (BIG BANG also with a space),
    and it is not TEXT when the letter expression matched nor NUMBER when
    the number expression matched. *)
Theorem shape_command_last shapes letterMatch numberMatch text v :
  (SHAPE, v) ∈ processCommand shapes letterMatch numberMatch text ->
  (exists before,
     processCommand shapes letterMatch numberMatch text
     = before ++ [(SHAPE, v)] /\
     forall c, c ∈ before -> fst c <> SHAPE) /\
  v ∈ shapes /\
  (includes text v = true \/
   v = units "BIG_BANG" /\ includes text (units "BIG BANG") = true) /\
  (is_Some letterMatch -> v <> units "TEXT") /\
  (is_Some numberMatch -> v <> units "NUMBER").
Proof.
  unfold processCommand.
  destruct (_ || _ || _).
  { intros H. apply list_elem_of_singleton in H. discriminate. }
  set (snapshot := if _ || _ then [(SNAPSHOT, [])] else []).
  set (letter := match letterMatch with
                 | Some char => value_commands (letter_command char)
                 | None => []
                 end).
  set (number := match numberMatch with
                 | Some valStr => value_commands (number_command valStr)
                 | None => []
                 end).
  assert (Hs : forall c, c ∈ snapshot -> fst c <> SHAPE).
  { intros c H. subst snapshot. destruct (_ || _) in H;
      [apply list_elem_of_singleton in H as ->; discriminate
      | apply elem_of_nil in H; contradiction]. }
  assert (Hc : forall c, c ∈ color_commands text -> fst c <> SHAPE).
  { intros c H.
    destruct (color_commands_cases text) as [E | [hex E]]; rewrite E in H;
      [apply elem_of_nil in H; contradiction
      | apply list_elem_of_singleton in H as ->; discriminate]. }
  assert (Hv : forall o c, c ∈ value_commands o -> fst c <> SHAPE).
  { intros o c H.
    destruct (value_commands_cases o) as [E | (t & w & E)]; rewrite E in H;
      [apply elem_of_nil in H; contradiction
      | apply list_elem_of_singleton in H as ->; discriminate]. }
  assert (Hl : forall c, c ∈ letter -> fst c <> SHAPE).
  { intros c H. subst letter. destruct letterMatch; [eapply Hv, H |].
    apply elem_of_nil in H. contradiction. }
  assert (Hn : forall c, c ∈ number -> fst c <> SHAPE).
  { intros c H. subst number. destruct numberMatch; [eapply Hv, H |].
    apply elem_of_nil in H. contradiction. }
  assert (Hbefore : forall c,
            c ∈ snapshot ++ color_commands text ++ letter ++ number ->
            fst c <> SHAPE).
  { intros c H. repeat (apply elem_of_app in H as [H | H]); auto. }
  intros H.
  destruct (shape_commands_cases text (bool_decide (is_Some letterMatch))
              (bool_decide (is_Some numberMatch)) shapes)
    as [E | (w & E & Hin & Hinc & HT & HN)]; rewrite E in *.
  - exfalso. rewrite !app_nil_r in H. exact (Hbefore _ H eq_refl).
  - assert (w = v) as ->.
    { rewrite !app_assoc in H. apply elem_of_app in H as [H | H].
      - exfalso. rewrite <- !app_assoc in H. exact (Hbefore _ H eq_refl).
      - apply list_elem_of_singleton in H. congruence. }
    split.
    { exists (snapshot ++ color_commands text ++ letter ++ number).
      split; [rewrite <- !app_assoc; reflexivity | exact Hbefore]. }
    split; [exact Hin |]. split; [exact Hinc |].
    split; intros Hm; [apply HT | apply HN]; apply bool_decide_eq_true_2, Hm.
Qed.

Lemma shape_command_last_witness :
  (exists before,
     processCommand [units "TEXT"; units "SPHERE"; units "CUBE"]
       (Some (units "A")) (Some (units "A")) (units "TEXT A CUBE SPHERE")
     = before ++ [(SHAPE, units "SPHERE")] /\
     forall c, c ∈ before -> fst c <> SHAPE) /\
  units "SPHERE" ∈ [units "TEXT"; units "SPHERE"; units "CUBE"] /\
  (includes (units "TEXT A CUBE SPHERE") (units "SPHERE") = true \/
   units "SPHERE" = units "BIG_BANG" /\
   includes (units "TEXT A CUBE SPHERE") (units "BIG BANG") = true) /\
  (is_Some (Some (units "A")) -> units "SPHERE" <> units "TEXT") /\
  (is_Some (Some (units "A")) -> units "SPHERE" <> units "NUMBER").
Proof.
  apply (shape_command_last [units "TEXT"; units "SPHERE"; units "CUBE"]
           (Some (units "A")) (Some (units "A"))
           (units "TEXT A CUBE SPHERE") (units "SPHERE")).
  vm_compute. right. left.
Defined.

Lemma find_app_first {A} (f : A -> bool) (before after : list A) (x : A) :
  (forall e, e ∈ before -> f e = false) -> f x = true ->
  find f (before ++ x :: after) = Some x.
Proof.
  intros Hb Hx. induction before as [| e before IH]; cbn.
  - rewrite Hx. reflexivity.
  - rewrite (Hb e) by left. apply IH. intros e' He'. apply Hb. right. exact He'.
Qed.

(** X22.  The colour is chosen by the order of the palette table, not by
    the order of the words: of the palette names the transcript contains,
    the one that comes first in the table gives the single colour command. *)
Theorem color_by_table_order text before name hex after :
  COLOR_PALETTES = before ++ (name, hex) :: after ->
  includes text name = true ->
  (forall e, e ∈ before -> includes text (fst e) = false) ->
  color_commands text = [(COLOR, hex)].
Proof.
  intros Htable Hname Hbefore. unfold color_commands. rewrite Htable.
  rewrite (find_app_first (fun e => includes text (fst e)) before after
             (name, hex) Hbefore Hname).
  reflexivity.
Qed.

Lemma color_by_table_order_witness :
  color_commands (units "RED GOLD") = [(COLOR, units "#ffaa00")].
Proof.
  apply (color_by_table_order (units "RED GOLD")
           [(units "CYAN", units "#00f3ff")] (units "GOLD") (units "#ffaa00")
           [(units "MAGENTA", units "#ff00aa"); (units "LIME", units "#39ff14");
            (units "ORANGE", units "#ff4500"); (units "RED", units "#ff003c");
            (units "WHITE", units "#ffffff"); (units "PURPLE", units "#a855f7")]).
  - reflexivity.
  - reflexivity.
  - intros e He. apply list_elem_of_singleton in He as ->. reflexivity.
Defined.

(** X23.  Every digit from 0 to 9 is accepted by the number handler, as
    its numeral and as its English word, and sets that digit. *)
Theorem number_command_accepts valStr n :
  (0 <= n <= 9)%Z ->
  valStr = String_of_number n \/ NUMBER_WORD_MAP !! valStr = Some n ->
  number_command valStr = Some (SET_NUM, String_of_number n).
Proof.
  intros Hn [-> | Hword].
  - assert (Hk : (Z.to_nat n < 10)%nat) by lia.
    rewrite <- (Z2Nat.id n) by lia.
    generalize dependent (Z.to_nat n). clear Hn. intros k Hk.
    do 10 (destruct k as [| k]; [reflexivity |]). lia.
  - apply elem_of_list_to_map_2 in Hword.
    repeat (apply elem_of_cons in Hword as [[= -> ->] | Hword]);
      [reflexivity .. | apply elem_of_nil in Hword; contradiction].
Qed.

Lemma number_command_accepts_witness :
  number_command (units "SEVEN") = Some (SET_NUM, String_of_number 7).
Proof.
  apply (number_command_accepts (units "SEVEN") 7%Z).
  - lia.
  - right. reflexivity.
Defined.

(** X24.  Every capital letter is accepted by the letter handler, and the
    index it emits selects the glyph of that very letter in the sampler. *)
Theorem letter_selects_glyph c rest canvas numIndex pCount radius :
  (65 <= c <= 90)%Z ->
  letter_command (c :: rest) = Some (SET_CHAR, String_of_number (c - 65)) /\
  generateTargetPositions canvas (c - 65) numIndex TEXT pCount radius
  = generateTextPositions canvas [c] pCount radius.
Proof.
  intros Hc. split.
  - unfold letter_command. cbv zeta.
    destruct ((0 <=? c - 65)%Z && (c - 65 <=? 25)%Z) eqn:E; [reflexivity |].
    apply andb_false_iff in E as [E | E]; lia.
  - change (generateTargetPositions canvas (c - 65) numIndex TEXT pCount radius)
      with (generateTextPositions canvas (String_fromCharCode (65 + (c - 65)))
              pCount radius).
    unfold String_fromCharCode.
    replace ((65 + (c - 65)) mod 65536)%Z with c; [reflexivity |].
    rewrite Z.mod_small; lia.
Qed.

Lemma letter_selects_glyph_witness :
  letter_command (units "Q") = Some (SET_CHAR, String_of_number (81 - 65)) /\
  generateTargetPositions None (81 - 65) 0 TEXT 10 10
  = generateTextPositions None [81%Z] 10 10.
Proof.
  apply (letter_selects_glyph 81%Z [] None 0%Z 10%Z 10). lia.
Defined.
